(** * fio-debian-benchmarking: the metric extractor and the run summarizer

    A shallow embedding of [fio_utils/parse_fio_output.py] and
    [fio_utils/summarize_consolidated.py], and the properties of the
    specification checked against it.

    Modelling conventions.
    - A Python [str] is a list of characters; a character is a code point
      below 256 (Rocq's [ascii]).  White space, lower-casing and the regular
      expression classes are the ones Python uses on that range.
    - A Python [dict] from strings to strings is a [gmap str str].
    - A Python [float] is a binary64 value, a [spec_float] of the
      Standard Library with precision 53 and maximal exponent 1024: signed
      zeros, infinities, one NaN, and every operation rounded to nearest,
      ties to even.
    - A Python [int] is a [Z]; [int] of a string refuses more than 4300
      digits, the interpreter's default limit.
    - A call that can raise returns a [result]: [Ok v] or [Raise e]. *)

From Stdlib Require Import Ascii String List ZArith QArith Lia Bool.
From Stdlib Require Import DecimalString SpecFloat.
From stdpp Require Import base option list gmap strings.

(** ** Strings *)

Abbreviation str := (list ascii).

Definition str_of_bytes (l : list Byte.byte) : list ascii :=
  List.map ascii_of_byte l.
Definition bytes_of_str (l : list ascii) : list Byte.byte :=
  List.map byte_of_ascii l.

Declare Scope str_scope.
Delimit Scope str_scope with str.
String Notation str str_of_bytes bytes_of_str : str_scope.
Open Scope str_scope.
Open Scope bool_scope.

Definition code (c : ascii) : nat := nat_of_ascii c.

Definition in_range (lo hi : nat) (c : ascii) : bool :=
  (lo <=? code c)%nat && (code c <=? hi)%nat.

Definition is_code (n : nat) (c : ascii) : bool := (code c =? n)%nat.

Definition is_digit : ascii -> bool := in_range 48 57.
Definition is_upper : ascii -> bool := in_range 65 90.
Definition is_lower : ascii -> bool := in_range 97 122.
Definition is_alpha (c : ascii) : bool := is_upper c || is_lower c.
Definition is_alnum (c : ascii) : bool := is_alpha c || is_digit c.

(** [str.isspace] on one character, which is also the regular expression
    class [\s]: TAB..CR, FS..US, space, NEL and NBSP. *)
Definition is_space (c : ascii) : bool :=
  in_range 9 13 c || in_range 28 32 c || is_code 133 c || is_code 160 c.

(** [str.lower] on one character: the ASCII capitals and the Latin-1
    capitals (the multiplication sign U+00D7 is not a letter). *)
Definition lower_char (c : ascii) : ascii :=
  if is_upper c || (in_range 192 222 c && negb (is_code 215 c))
  then ascii_of_nat (code c + 32) else c.

Definition chr_eqb (a b : ascii) : bool := Ascii.eqb a b.

Definition lower (s : str) : str := List.map lower_char s.

Fixpoint drop_while (p : ascii -> bool) (s : str) : str :=
  match s with
  | c :: s' => if p c then drop_while p s' else s
  | [] => []
  end.

Fixpoint take_while (p : ascii -> bool) (s : str) : str :=
  match s with
  | c :: s' => if p c then c :: take_while p s' else []
  | [] => []
  end.

Definition lstrip_by (p : ascii -> bool) (s : str) : str := drop_while p s.
Definition rstrip_by (p : ascii -> bool) (s : str) : str :=
  rev (drop_while p (rev s)).
Definition strip_by (p : ascii -> bool) (s : str) : str :=
  rstrip_by p (lstrip_by p s).

(** [s.strip()] *)
Definition strip (s : str) : str := strip_by is_space s.

Definition is_nl (c : ascii) : bool := is_code 10 c.

Fixpoint startswith (p s : str) : bool :=
  match p, s with
  | [], _ => true
  | a :: p', b :: s' => chr_eqb a b && startswith p' s'
  | _ :: _, [] => false
  end.

Definition endswith (p s : str) : bool := startswith (rev p) (rev s).

(** [sub in s] *)
Fixpoint contains (sub s : str) : bool :=
  startswith sub s ||
  match s with
  | [] => false
  | _ :: s' => contains sub s'
  end.

Definition has_char (c : ascii) (s : str) : bool := existsb (chr_eqb c) s.

(** [s.split(c, 1)] for a one-character separator: two parts when [c]
    occurs in [s], the string itself otherwise. *)
Fixpoint split1 (c : ascii) (s : str) : list str :=
  match s with
  | [] => [[]]
  | a :: s' =>
      if chr_eqb c a then [[]; s']
      else match split1 c s' with
           | h :: t => (a :: h) :: t
           | [] => [[a]]
           end
  end.

(** [s.replace(c, new)] for a one-character pattern. *)
Fixpoint replace_char (c : ascii) (new : str) (s : str) : str :=
  match s with
  | [] => []
  | a :: s' =>
      if chr_eqb c a then new ++ replace_char c new s'
      else a :: replace_char c new s'
  end.

(** [s[i:-j]] for non-negative literals [i] and [j]. *)
Definition slice_mid (i j : nat) (s : str) : str :=
  take (length s - j - i) (drop i s).

Definition str_eqb (a b : str) : bool := bool_decide (a = b).

Definition nonempty (s : str) : bool :=
  match s with [] => false | _ => true end.

(** ** Results of calls that can raise *)

Inductive exn : Type := ValueError | IndexError | ZeroDivisionError.

Inductive result (A : Type) : Type :=
| Ok (a : A)
| Raise (e : exn).
Arguments Ok {A} a.
Arguments Raise {A} e.

Definition bind {A B : Type} (r : result A) (f : A -> result B) : result B :=
  match r with
  | Ok a => f a
  | Raise e => Raise e
  end.

Notation "'let*' x ':=' r 'in' k" := (bind r (fun x => k))
  (at level 10, x name, r at level 100, k at level 200).

(** [l[i]] on a Python list. *)
Definition index {A : Type} (l : list A) (i : nat) : result A :=
  match nth_error l i with
  | Some a => Ok a
  | None => Raise IndexError
  end.

(** [try: ... except ValueError: handler] *)
Definition except_ValueError {A : Type} (r : result A) (handler : result A)
  : result A :=
  match r with
  | Raise ValueError => handler
  | _ => r
  end.

(** ** Regular expressions

    The fragment of Python's [re] the two programs use: character classes,
    sequence, ordered choice, greedy repetition of a class, capture groups
    and the anchors.  [run] is the backtracking matcher in continuation
    style: alternatives are tried in the order [re] tries them, so the
    first success is the match [re] reports. *)

Module Re.

Inductive regex : Type :=
| Eps
| Chr (p : ascii -> bool)
| Seq (a b : regex)
| Alt (a b : regex)
| Star (p : ascii -> bool)
| Group (n : nat) (a : regex)
| Bol
| Eol.

Definition caps : Type := list (nat * str).

Definition get_group (n : nat) (g : caps) : option str :=
  snd <$> List.find (fun e => (fst e =? n)%nat) g.

Section Run.
Context {R : Type}.

(** Greedy [class*]: the longest run first, then shorter ones. *)
Fixpoint star_loop (p : ascii -> bool) (k : nat -> str -> option R)
    (pos : nat) (s : str) {struct s} : option R :=
  match s with
  | c :: s' =>
      if p c then
        match star_loop p k (S pos) s' with
        | Some x => Some x
        | None => k pos s
        end
      else k pos s
  | [] => k pos s
  end.

Fixpoint run (r : regex) (pos : nat) (s : str) (g : caps)
    (k : nat -> str -> caps -> option R) {struct r} : option R :=
  match r with
  | Eps => k pos s g
  | Chr p =>
      match s with
      | c :: s' => if p c then k (S pos) s' g else None
      | [] => None
      end
  | Seq a b => run a pos s g (fun pos' s' g' => run b pos' s' g' k)
  | Alt a b =>
      match run a pos s g k with
      | Some x => Some x
      | None => run b pos s g k
      end
  | Star p => star_loop p (fun pos' s' => k pos' s' g) pos s
  | Group n a =>
      run a pos s g
        (fun pos' s' g' => k pos' s' ((n, take (pos' - pos) s) :: g'))
  | Bol => if (pos =? 0)%nat then k pos s g else None
  | Eol =>
      match s with
      | [] => k pos s g
      | [c] => if is_nl c then k pos s g else None
      | _ => None
      end
  end.

End Run.

(** A match object: [start()], [end()], the groups, and the text after
    the match. *)
Record mobj : Type := MObj {
  m_start : nat;
  m_end : nat;
  m_groups : caps;
  m_rest : str
}.

Definition match_at (r : regex) (pos : nat) (s : str) : option mobj :=
  run r pos s []
    (fun pos' s' g =>
       Some (MObj pos pos' ((0, take (pos' - pos) s) :: g) s')).

(** [pattern.match(s)] *)
Definition rmatch (r : regex) (s : str) : option mobj := match_at r 0 s.

Fixpoint search_from (r : regex) (pos : nat) (s : str) : option mobj :=
  match match_at r pos s with
  | Some m => Some m
  | None =>
      match s with
      | [] => None
      | _ :: s' => search_from r (S pos) s'
      end
  end.

(** [pattern.search(s)] *)
Definition search (r : regex) (s : str) : option mobj := search_from r 0 s.

(** [m.group(n)] for a group that took part in the match. *)
Definition group (m : mobj) (n : nat) : str :=
  default [] (get_group n (m_groups m)).

Fixpoint finditer_from (fuel : nat) (r : regex) (pos : nat) (s : str)
  : list mobj :=
  match fuel with
  | 0 => []
  | S fuel' =>
      match search_from r pos s with
      | None => []
      | Some m =>
          m :: (if (m_end m =? m_start m)%nat then
                  match m_rest m with
                  | [] => []
                  | _ :: t => finditer_from fuel' r (S (m_end m)) t
                  end
                else finditer_from fuel' r (m_end m) (m_rest m))
      end
  end.

(** [pattern.finditer(s)], as the list of its matches. *)
Definition finditer (r : regex) (s : str) : list mobj :=
  finditer_from (S (length s)) r 0 s.

Fixpoint sub_from (fuel : nat) (r : regex) (repl : str) (pos : nat) (s : str)
  : str :=
  match fuel with
  | 0 => s
  | S fuel' =>
      match match_at r pos s with
      | Some m =>
          if (m_end m =? pos)%nat then
            match s with
            | [] => repl
            | c :: t => repl ++ c :: sub_from fuel' r repl (S pos) t
            end
          else repl ++ sub_from fuel' r repl (m_end m) (m_rest m)
      | None =>
          match s with
          | [] => []
          | c :: t => c :: sub_from fuel' r repl (S pos) t
          end
      end
  end.

(** [re.sub(pattern, repl, s)] for a replacement without back-references. *)
Definition sub (r : regex) (repl : str) (s : str) : str :=
  sub_from (S (length s)) r repl 0 s.

(** Pattern combinators. *)
Definition one_of (cs : str) (c : ascii) : bool := existsb (chr_eqb c) cs.
Definition one_of_ci (cs : str) (c : ascii) : bool :=
  existsb (fun x => chr_eqb (lower_char c) (lower_char x)) cs.
Definition any_char (c : ascii) : bool := negb (is_nl c).

Definition plus (p : ascii -> bool) : regex := Seq (Chr p) (Star p).
Definition opt (r : regex) : regex := Alt r Eps.

Fixpoint lit (s : str) : regex :=
  match s with
  | [] => Eps
  | c :: s' => Seq (Chr (chr_eqb c)) (lit s')
  end.

(** A literal under [re.I]. *)
Fixpoint liti (s : str) : regex :=
  match s with
  | [] => Eps
  | c :: s' =>
      Seq (Chr (fun x => chr_eqb (lower_char c) (lower_char x))) (liti s')
  end.

Fixpoint seqs (rs : list regex) : regex :=
  match rs with
  | [] => Eps
  | [r] => r
  | r :: rs' => Seq r (seqs rs')
  end.

End Re.

(** ** Numbers

    [float] is binary64.  The arithmetic is the Standard Library's
    specification of IEEE 754, which rounds to nearest, ties to even;
    division raises on a zero divisor, as Python's does. *)

Abbreviation float := spec_float.

Definition prec : Z := 53.
Definition emax : Z := 1024.

(** [a * b] *)
Definition fmul (a b : float) : float := SFmul prec emax a b.

(** The IEEE quotient. *)
Definition fquot (a b : float) : float := SFdiv prec emax a b.

Definition is_zero (a : float) : bool :=
  match a with
  | S754_zero _ => true
  | _ => false
  end.

(** [a / b] *)
Definition fdiv (a b : float) : result float :=
  if is_zero b then Raise ZeroDivisionError else Ok (fquot a b).

(** [a <= b]: false when either side is NaN. *)
Definition fle (a b : float) : bool := SFleb a b.

(** The [float] an [int] operand is converted to. *)
Definition float_of_Z (z : Z) : float := binary_normalize prec emax z 0 false.

Definition digit_val (c : ascii) : Z := Z.of_nat (code c - 48).

Definition digits_val (s : str) : Z :=
  fold_left (fun acc c => (10 * acc + digit_val c)%Z) s 0%Z.

(** The value of a string of ASCII digits. *)
Definition int_of_digits (s : str) : Z := digits_val s.

(** The most digits [int] converts (the default of
    [sys.get_int_max_str_digits]). *)
Definition max_str_digits : Z := 4300.

(** [int(s)] for a string of ASCII digits. *)
Definition py_int (s : str) : result Z :=
  if (max_str_digits <? Z.of_nat (length s))%Z then Raise ValueError
  else Ok (int_of_digits s).

Definition split_sign (s : str) : bool * str :=
  match s with
  | c :: t =>
      if is_code 45 c then (true, t)
      else if is_code 43 c then (false, t)
      else (false, s)
  | [] => (false, s)
  end.

(** The exponent part of a float literal: empty, or [e] or [E], an
    optional sign and at least one digit. *)
Definition exponent (s : str) : option Z :=
  match s with
  | [] => Some 0%Z
  | c :: t =>
      if is_code 101 c || is_code 69 c then
        let '(neg, ds) := split_sign t in
        if nonempty ds && forallb is_digit ds then
          Some (if neg then (- digits_val ds)%Z else digits_val ds)
        else None
      else None
  end.

(** The binary64 value nearest to [mant * 10 ^ e10], for [mant >= 0]: an
    integer is rounded as it is, a quotient by a power of ten is rounded
    once, from its exact value. *)
Definition float_of_decimal (neg : bool) (mant e10 : Z) : float :=
  match mant with
  | Zpos m =>
      if (0 <=? e10)%Z then
        binary_round prec emax neg (m * Z.to_pos (10 ^ e10)) 0
      else
        let '(q, e', l) :=
          SFdiv_core_binary prec emax mant 0 (10 ^ (- e10))%Z 0 in
        binary_round_aux prec emax neg q e' l
  | _ => S754_zero neg
  end.

(** A float that is not negative and not NaN: a zero or a finite number
    with the plus sign, or plus infinity. *)
Definition is_nonneg (x : float) : bool :=
  match x with
  | S754_zero false | S754_finite false _ _ | S754_infinity false => true
  | _ => false
  end.

(** A rounded result has the sign it was given and is not NaN. *)
Definition has_sign (s : bool) (x : float) : Prop :=
  match x with
  | S754_zero s' | S754_finite s' _ _ | S754_infinity s' => s' = s
  | S754_nan => False
  end.

(** The white space [float] strips: the ASCII one. *)
Definition float_space (c : ascii) : bool := in_range 9 13 c || is_code 32 c.

(** Before it parses, [float] turns the white space beyond ASCII (NEL and
    NBSP on this range) into a space; every other character stays. *)
Definition to_ascii_space (c : ascii) : ascii :=
  if is_code 133 c || is_code 160 c then " "%char else c.

Definition is_underscore (c : ascii) : bool := is_code 95 c.

(** An underscore is only allowed between two digits. *)
Fixpoint underscores_ok (prev_digit : bool) (s : str) : bool :=
  match s with
  | [] => true
  | c :: t =>
      if is_underscore c then
        prev_digit
        && match t with
           | d :: _ => is_digit d
           | [] => false
           end
        && underscores_ok false t
      else underscores_ok (is_digit c) t
  end.

(** [inf], [infinity] and [nan], in either case. *)
Definition special_float (neg : bool) (t : str) : option float :=
  let l := lower t in
  if str_eqb l "inf" || str_eqb l "infinity" then Some (S754_infinity neg)
  else if str_eqb l "nan" then Some S754_nan
  else None.

(** A decimal literal: digits with at most one point and at least one
    digit, and an exponent. *)
Definition decimal_float (neg : bool) (t : str) : result float :=
  let ip := take_while is_digit t in
  let r1 := drop_while is_digit t in
  let '(fp, r2) :=
    match r1 with
    | c :: r =>
        if is_code 46 c then (take_while is_digit r, drop_while is_digit r)
        else ([], r1)
    | [] => ([], r1)
    end in
  if nonempty ip || nonempty fp then
    match exponent r2 with
    | Some e =>
        Ok (float_of_decimal neg (digits_val (ip ++ fp))
              (e - Z.of_nat (length fp)))
    | None => Raise ValueError
    end
  else Raise ValueError.

(** [float(s)]: surrounding white space, underscores between digits, a
    sign, and then [inf], [infinity], [nan] or a decimal literal.  A string
    of another shape raises [ValueError]. *)
Definition py_float (s : str) : result float :=
  let s1 := strip_by float_space (List.map to_ascii_space s) in
  if underscores_ok false s1 then
    let '(neg, t) :=
      split_sign (List.filter (fun c => negb (is_underscore c)) s1) in
    match special_float neg t with
    | Some f => Ok f
    | None => decimal_float neg t
    end
  else Raise ValueError.

(** Rounding to the nearest integer, ties to even. *)
Definition round_half_even (q : Q) : Z :=
  let n := Qnum q in
  let d := Z.pos (Qden q) in
  let f := (n / d)%Z in
  let r := (n mod d)%Z in
  if (2 * r <? d)%Z then f
  else if (d <? 2 * r)%Z then (f + 1)%Z
  else if Z.even f then f else (f + 1)%Z.

Definition Z_to_str (z : Z) : str :=
  list_ascii_of_string (NilZero.string_of_uint (N.to_uint (Z.to_N z))).

Definition zero_pad (n : nat) (s : str) : str :=
  repeat "0"%char (n - length s) ++ s.

(** The exact value of the finite float with mantissa [m] and exponent
    [e]. *)
Definition float_abs_value (m : positive) (e : Z) : Q :=
  if (0 <=? e)%Z then inject_Z (Z.pos m * 2 ^ e)
  else Z.pos m # Pos.pow 2 (Z.to_pos (- e)).

(** The digits of a non-negative number with [prec] decimals, rounded from
    the exact value, ties to even. *)
Definition fmt_digits (prec : nat) (q : Q) : str :=
  let scaled := round_half_even (q * inject_Z (10 ^ Z.of_nat prec)) in
  let ds := zero_pad (S prec) (Z_to_str scaled) in
  let ip := take (length ds - prec) ds in
  let fp := drop (length ds - prec) ds in
  ip ++ (match prec with 0 => "" | _ => "." ++ fp end).

(** The format [f"{x:.<prec>f}"]. *)
Definition fmt_fixed (prec : nat) (x : float) : str :=
  match x with
  | S754_nan => "nan"
  | S754_infinity s => (if s then "-" else "") ++ "inf"
  | S754_zero s => (if s then "-" else "") ++ fmt_digits prec 0
  | S754_finite s m e =>
      (if s then "-" else "") ++ fmt_digits prec (float_abs_value m e)
  end.

(** ** summarize_consolidated.py *)

Definition GB_DEC : Z := 1000000000.

Record record : Type := Record_ {
  run : Z;
  file : str;
  job_name : option str;
  metrics : gmap str str
}.

Definition parse_key_val (line : str) : result (option (str * str)) :=
  if negb (has_char "=" line) then Ok None
  else
    let parts := split1 "=" line in
    let* p0 := index parts 0 in
    let* p1 := index parts 1 in
    let key := strip p0 in
    let val := strip p1 in
    let* val :=
      if has_char "#" val then
        let* h := index (split1 "#" val) 0 in Ok (strip h)
      else Ok val in
    Ok (Some (key, val)).

(** The local state of [parse_consolidated]. *)
Record splitter : Type := Splitter {
  records : list record;
  run_num : option Z;
  current_file : option str;
  current_metrics : gmap str str;
  cur_job_name : option str
}.

Definition splitter_init : splitter := Splitter [] None None ∅ None.

(** The record keeps the dictionary it was built with: [flush] rebinds
    [current_metrics] to a new dictionary and does not clear the old one. *)
Definition flush (st : splitter) : splitter :=
  let recs :=
    match run_num st, current_file st with
    | Some r, Some f =>
        if bool_decide (current_metrics st ≠ ∅) then
          records st ++ [Record_ r f (cur_job_name st) (current_metrics st)]
        else records st
    | _, _ => records st
    end in
  Splitter recs (run_num st) None ∅ None.

(** [RUN #([0-9]+)] *)
Definition run_pat : Re.regex :=
  Re.Seq (Re.lit "RUN #") (Re.Group 1 (Re.plus is_digit)).

(** One iteration of the loop over the lines of the file. *)
Definition split_line (st : splitter) (raw : str) : result splitter :=
  let line := strip_by is_nl raw in
  if startswith "~~~~~~~ RUN #" line then
    let st := flush st in
    match Re.search run_pat line with
    | Some m =>
        let* n := py_int (Re.group m 1) in
        Ok (Splitter (records st) (Some n)
              (current_file st) (current_metrics st) (cur_job_name st))
    | None => Ok st
    end
  else if startswith "-- " line && endswith " --" line then
    let st := flush st in
    Ok (Splitter (records st) (run_num st)
          (Some (strip (slice_mid 3 3 line)))
          (current_metrics st) (cur_job_name st))
  else
    let* kv := parse_key_val line in
    match kv with
    | Some (k, v) =>
        Ok (Splitter (records st) (run_num st) (current_file st)
              (<[k := v]> (current_metrics st))
              (if str_eqb k "job_name" then Some v else cur_job_name st))
    | None => Ok st
    end.

Fixpoint split_lines (st : splitter) (lines : list str) : result splitter :=
  match lines with
  | [] => Ok st
  | raw :: rest => let* st' := split_line st raw in split_lines st' rest
  end.

(** [parse_consolidated], on the lines the file yields. *)
Definition parse_consolidated (lines : list str) : result (list record) :=
  let* st := split_lines splitter_init lines in
  Ok (records (flush st)).

Definition parse_numeric (val : str) : result (option float) :=
  except_ValueError (let* f := py_float val in Ok (Some f)) (Ok None).

Definition is_numch (c : ascii) : bool := is_digit c || is_code 46 c.

(** [([0-9.]+)\s*([KMGTP]?i?B)/s] with [re.I] *)
Definition size_pat : Re.regex :=
  Re.seqs
    [ Re.Group 1 (Re.plus is_numch);
      Re.Star is_space;
      Re.Group 2
        (Re.seqs [ Re.opt (Re.Chr (Re.one_of_ci "KMGTP"));
                   Re.opt (Re.Chr (Re.one_of_ci "i"));
                   Re.Chr (Re.one_of_ci "B") ]);
      Re.liti "/s" ].

(** [([0-9.]+)\s*([kKmM]?)] *)
Definition iops_pat : Re.regex :=
  Re.seqs
    [ Re.Group 1 (Re.plus is_numch);
      Re.Star is_space;
      Re.Group 2 (Re.opt (Re.Chr (Re.one_of "kKmM"))) ].

(** The [if]/[elif] chain on the lower-cased unit. *)
Definition unit_factor (unit : str) : float :=
  if startswith "kib" unit then float_of_Z 1024
  else if startswith "kb" unit then float_of_Z 1000
  else if startswith "mib" unit then float_of_Z (1024 ^ 2)
  else if startswith "mb" unit then float_of_Z 1000000
  else if startswith "gib" unit then float_of_Z (1024 ^ 3)
  else if startswith "gb" unit then float_of_Z 1000000000
  else if startswith "tib" unit then float_of_Z (1024 ^ 4)
  else if startswith "tb" unit then float_of_Z 1000000000000
  else float_of_Z 1.

Definition bw_to_gbps (val : str) : result (option float) :=
  match Re.search size_pat val with
  | None => Ok None
  | Some m =>
      let* num := py_float (Re.group m 1) in
      let unit := lower (Re.group m 2) in
      let factor := unit_factor unit in
      let bytes_per_sec := fmul num factor in
      let* r := fdiv bytes_per_sec (float_of_Z GB_DEC) in
      Ok (Some r)
  end.

Definition iops_to_k (val : str) : result (option float) :=
  match Re.rmatch iops_pat (strip val) with
  | None => Ok None
  | Some m =>
      let* num := py_float (Re.group m 1) in
      let suffix := lower (Re.group m 2) in
      let num :=
        if str_eqb suffix "k" then fmul num (float_of_Z 1000)
        else if str_eqb suffix "m" then fmul num (float_of_Z 1000000)
        else num in
      let* r := fdiv num (float_of_Z 1000) in
      Ok (Some r)
  end.

Definition derive_latency_ms (iops_k iodepth : option float)
  : result (option float) :=
  match iops_k, iodepth with
  | Some k, Some d =>
      let iops := fmul k (float_of_Z 1000) in
      if fle iops (float_of_Z 0) then Ok None
      else
        let* x := fdiv d iops in
        Ok (Some (fmul x (float_of_Z 1000)))
  | _, _ => Ok None
  end.

Fixpoint first_available (m : gmap str str) (keys : list str) : option str :=
  match keys with
  | [] => None
  | k :: keys' =>
      match m !! k with
      | Some v => Some v
      | None => first_available m keys'
      end
  end.

(** [f(x) if x else None] for an optional string [x]. *)
Definition if_truthy {A : Type} (x : option str) (f : str -> result (option A))
  : result (option A) :=
  match x with
  | Some (c :: t) => f (c :: t)
  | _ => Ok None
  end.

(** The values [summarize_record] computes before it formats them. *)
Record derived : Type := Derived {
  d_iodepth : option float;
  d_bw_raw : option str;
  d_bw_gbps : option float;
  d_iops_raw : option str;
  d_iops_k : option float;
  d_latency : option float;
  d_clat_avg_ms : option float
}.

Definition scaled_float (raw : str) (scale : float -> result float)
  : result (option float) :=
  except_ValueError
    (let* x := py_float raw in let* y := scale x in Ok (Some y))
    (Ok None).

Definition derive (m : gmap str str) : result derived :=
  let iodepth_val := first_available m ["iodepth"] in
  let* iodepth := if_truthy iodepth_val parse_numeric in
  let bw_raw :=
    first_available m ["run_read_bw"; "run_write_bw"; "read_bw"; "write_bw"] in
  let* bw_gbps := if_truthy bw_raw bw_to_gbps in
  let* bw_gbps :=
    match bw_gbps, m !! "bw_avg" with
    | None, Some a =>
        scaled_float a
          (fun kib_s =>
             fdiv (fmul kib_s (float_of_Z 1024)) (float_of_Z GB_DEC))
    | _, _ => Ok bw_gbps
    end in
  let iops_raw := first_available m ["read_iops"; "write_iops"] in
  let* iops_k := if_truthy iops_raw iops_to_k in
  let* iops_k :=
    match iops_k, m !! "iops_avg" with
    | None, Some a => scaled_float a (fun x => fdiv x (float_of_Z 1000))
    | _, _ => Ok iops_k
    end in
  let* derived_latency := derive_latency_ms iops_k iodepth in
  let clat_avg := m !! "clat_avg" in
  let* clat_avg_ms :=
    if_truthy clat_avg
      (fun c => scaled_float c (fun x => fdiv x (float_of_Z 1000))) in
  Ok (Derived iodepth bw_raw bw_gbps iops_raw iops_k derived_latency
        clat_avg_ms).

(** The dictionary [summarize_record] returns. *)
Record summary : Type := Summary {
  s_run : Z;
  s_file : str;
  s_job_name : option str;
  s_iodepth : option str;
  s_throughput_GBps : option str;
  s_iops_k : option str;
  s_derived_latency_ms : option str;
  s_clat_avg_ms : option str;
  s_bw_source : option str;
  s_iops_source : option str
}.

Definition summarize_record (rec : record) : result summary :=
  let* d := derive (metrics rec) in
  Ok (Summary (run rec) (file rec) (job_name rec)
        (fmt_fixed 0 <$> d_iodepth d)
        (fmt_fixed 4 <$> d_bw_gbps d)
        (fmt_fixed 3 <$> d_iops_k d)
        (fmt_fixed 3 <$> d_latency d)
        (fmt_fixed 3 <$> d_clat_avg_ms d)
        (d_bw_raw d) (d_iops_raw d)).

(** ** parse_fio_output.py *)

Definition TAB : ascii := "009"%char.

Definition key_class (c : ascii) : bool := is_alnum c || Re.one_of "_.-" c.
Definition not_comma_space (c : ascii) : bool :=
  negb (is_code 44 c || is_space c).

Definition re_job_header : Re.regex :=
  Re.seqs
    [ Re.Bol; Re.Group 1 (Re.plus key_class); Re.lit ":";
      Re.Star Re.any_char; Re.liti "rw=";
      Re.Group 2 (Re.plus not_comma_space);
      Re.Star Re.any_char; Re.liti "ioengine=";
      Re.Group 3 (Re.plus not_comma_space);
      Re.Star Re.any_char; Re.liti "iodepth=";
      Re.Group 4 (Re.plus is_digit) ].

Definition re_group_jobs : Re.regex :=
  Re.seqs
    [ Re.Bol; Re.Group 1 (Re.plus key_class); Re.liti ": (groupid=";
      Re.Group 2 (Re.plus is_digit); Re.liti ", jobs=";
      Re.Group 3 (Re.plus is_digit); Re.lit "):";
      Re.Star Re.any_char; Re.liti "err="; Re.Star is_space;
      Re.Group 4 (Re.plus (fun c => negb (is_code 58 c))); Re.lit ":";
      Re.Star is_space; Re.liti "pid=";
      Re.Group 5 (Re.plus is_digit); Re.lit ":"; Re.Star is_space;
      Re.Group 6 (Re.plus Re.any_char); Re.Eol ].

Definition re_bs_r : Re.regex :=
  Re.seqs [ Re.liti "bs=(R)"; Re.Star is_space;
            Re.Group 1 (Re.plus not_comma_space) ].
Definition re_bs_w : Re.regex :=
  Re.seqs [ Re.liti "(W)"; Re.Star is_space;
            Re.Group 1 (Re.plus not_comma_space) ].
Definition re_bs_t : Re.regex :=
  Re.seqs [ Re.liti "(T)"; Re.Star is_space;
            Re.Group 1 (Re.plus not_comma_space) ].

Definition re_fio_version : Re.regex :=
  Re.seqs [ Re.Bol; Re.lit "fio-"; Re.Group 1 (Re.plus is_numch) ].

Definition re_layout : Re.regex :=
  Re.seqs
    [ Re.lit "Laying out IO file"; Re.Star Re.any_char; Re.lit "(";
      Re.Group 1 (Re.plus is_digit); Re.lit " file";
      Re.opt (Re.lit "s"); Re.lit " / ";
      Re.Group 2 (Re.plus (fun c => negb (is_code 41 c))); Re.lit ")" ].

(** Generic key=value in a comma separated list:
    [(?P<key>[A-Za-z0-9._%/\(\)-]+)=(?P<value>[^,]+)] *)
Definition re_kv : Re.regex :=
  Re.seqs
    [ Re.Group 1 (Re.plus (fun c => is_alnum c || Re.one_of "._%/()-" c));
      Re.lit "=";
      Re.Group 2 (Re.plus (fun c => negb (is_code 44 c))) ].

(** Percentile style, as in [1.00th=[  359]] *)
Definition re_percentile : Re.regex :=
  Re.seqs
    [ Re.Group 1
        (Re.seqs [ Re.plus is_digit;
                   Re.opt (Re.Seq (Re.lit ".") (Re.plus is_digit));
                   Re.lit "th" ]);
      Re.lit "=["; Re.Star is_space;
      Re.Group 2 (Re.plus (fun c => negb (is_code 93 c))); Re.lit "]" ].

Definition re_disk_dev : Re.regex :=
  Re.seqs
    [ Re.Bol; Re.Group 1 (Re.plus (fun c => is_alnum c || Re.one_of "_-" c));
      Re.lit ":"; Re.Star is_space; Re.Group 2 (Re.plus Re.any_char) ].

Definition re_run_read : Re.regex :=
  Re.seqs [ Re.Bol; Re.Star is_space; Re.lit "READ:" ].
Definition re_run_write : Re.regex :=
  Re.seqs [ Re.Bol; Re.Star is_space; Re.lit "WRITE:" ].

(** [total=([^ ]+)] and its two siblings of the "issued rwts" line. *)
Definition re_issued (name : str) : Re.regex :=
  Re.seqs [ Re.lit name; Re.lit "=";
            Re.Group 1 (Re.plus (fun c => negb (is_code 32 c))) ].

(** Normalise key to a safe metric name: remove spaces, convert some chars
    to underscores. *)
Definition normalize_key (k : str) : str :=
  let k := strip k in
  let k := replace_char ")" "" (replace_char "(" "" k) in
  let k := replace_char "%" "pct" k in
  let k := replace_char "/" "_" k in
  let k := Re.sub (Re.plus (fun c => is_space c || is_code 58 c)) "_" k in
  let k := Re.sub (Re.Chr (fun c => negb (key_class c))) "" k in
  lower k.

Definition desc_map : list (str * str) :=
  [
    ("job_name", "fio job name");
    ("rw", "workload type (read/write/randread/randwrite/rw)");
    ("ioengine", "fio ioengine used");
    ("iodepth", "queue depth per job");
    ("bs_r", "read block size range");
    ("bs_w", "write block size range");
    ("bs_t", "total block size range");
    ("groupid", "fio group id");
    ("jobs", "number of jobs (threads/processes)");
    ("err", "fio job error code");
    ("pid", "fio job pid");
    ("timestamp", "fio-reported wall-clock timestamp");
    ("fio_version", "fio version");
    ("layout_files", "number of files laid out");
    ("layout_size", "file size used for layout");
    ("read_iops", "read IOPS (fio)");
    ("read_bw", "read bandwidth (fio)");
    ("read_io", "total read bytes transferred");
    ("read_run", "read run duration (msec range)");
    ("write_iops", "write IOPS (fio)");
    ("write_bw", "write bandwidth (fio)");
    ("write_io", "total write bytes transferred");
    ("write_run", "write run duration (msec range)");
    ("slat_min", "submission latency min (ns)");
    ("slat_max", "submission latency max (ns)");
    ("slat_avg", "submission latency avg (ns)");
    ("slat_stdev", "submission latency stdev (ns)");
    ("clat_min", "completion latency min (usec)");
    ("clat_max", "completion latency max (usec)");
    ("clat_avg", "completion latency avg (usec)");
    ("clat_stdev", "completion latency stdev (usec)");
    ("lat_usec_min", "total latency min (usec)");
    ("lat_usec_max", "total latency max (usec)");
    ("lat_usec_avg", "total latency avg (usec)");
    ("lat_usec_stdev", "total latency stdev (usec)");
    ("bw_min", "bandwidth sample min");
    ("bw_max", "bandwidth sample max");
    ("bw_per", "bandwidth sample coverage percent");
    ("bw_avg", "bandwidth sample avg");
    ("bw_stdev", "bandwidth sample stdev");
    ("bw_samples", "bandwidth samples count");
    ("iops_min", "iops sample min");
    ("iops_max", "iops sample max");
    ("iops_avg", "iops sample avg");
    ("iops_stdev", "iops sample stdev");
    ("iops_samples", "iops samples count");
    ("cpu_usr", "cpu user percent");
    ("cpu_sys", "cpu system percent");
    ("cpu_ctx", "context switches");
    ("cpu_majf", "major faults");
    ("cpu_minf", "minor faults");
    ("iodepth_dist_1", "percent time at queue depth 1");
    ("iodepth_dist_2", "percent time at queue depth 2");
    ("iodepth_dist_4", "percent time at queue depth 4");
    ("iodepth_dist_8", "percent time at queue depth 8");
    ("iodepth_dist_16", "percent time at queue depth 16");
    ("iodepth_dist_32", "percent time at queue depth 32");
    ("iodepth_dist_>=64", "percent time at queue depth >=64");
    ("submit_0", "submit queue depth bucket 0 percent");
    ("submit_4", "submit queue depth bucket 4 percent");
    ("submit_8", "submit queue depth bucket 8 percent");
    ("submit_16", "submit queue depth bucket 16 percent");
    ("submit_32", "submit queue depth bucket 32 percent");
    ("submit_64", "submit queue depth bucket 64 percent");
    ("submit_>=64", "submit queue depth bucket >=64 percent");
    ("complete_0", "complete queue depth bucket 0 percent");
    ("complete_4", "complete queue depth bucket 4 percent");
    ("complete_8", "complete queue depth bucket 8 percent");
    ("complete_16", "complete queue depth bucket 16 percent");
    ("complete_32", "complete queue depth bucket 32 percent");
    ("complete_64", "complete queue depth bucket 64 percent");
    ("complete_>=64", "complete queue depth bucket >=64 percent");
    ("issued_total", "issued rwts totals (r,w,trim,sync)");
    ("issued_short", "short ios (r,w,trim,sync)");
    ("issued_dropped", "dropped ios (r,w,trim,sync)");
    ("latency_cfg_target", "latency target config");
    ("latency_cfg_window", "latency window config");
    ("latency_cfg_percentile", "latency percentile target");
    ("latency_cfg_depth", "latency depth config");
    ("run_read_bw", "run summary read bandwidth");
    ("run_read_io", "run summary read bytes");
    ("run_read_run", "run summary read duration");
    ("run_write_bw", "run summary write bandwidth");
    ("run_write_io", "run summary write bytes");
    ("run_write_run", "run summary write duration")
  ].

Definition dict_get (m : list (str * str)) (key : str) : option str :=
  snd <$> List.find (fun e => str_eqb (fst e) key) m.

Definition describe (key : str) : option str :=
  if startswith "clat_pct_" key then
    Some "completion latency percentile (usec)"
  else if startswith "lat_usecpct_" key then
    Some "percent of IOs in latency bucket (usec)"
  else if startswith "lat_msecpct_" key then
    Some "percent of IOs in latency bucket (msec)"
  else if startswith "disk_" key then Some "per-disk fio disk stats"
  else if startswith "run_read_" key then Some "run summary (read)"
  else if startswith "run_write_" key then Some "run summary (write)"
  else dict_get desc_map key.

Definition emit (out_list : list str) (k v : str) : list str :=
  match describe k with
  | Some (c :: d) => out_list ++ [k ++ " = " ++ v ++ TAB :: "# " ++ c :: d]
  | _ => out_list ++ [k ++ " = " ++ v]
  end.

Definition parse_kv_list (line prefix : str) (out_list : list str) : list str :=
  fold_left
    (fun out m =>
       let k := normalize_key (Re.group m 1) in
       let v := strip (strip (Re.group m 2)) in
       emit out (prefix ++ k) v)
    (Re.finditer re_kv line) out_list.

Definition parse_percentile_line (line prefix : str) (out_list : list str)
  : list str :=
  fold_left
    (fun out m =>
       let pct := Re.group m 1 in
       let val := strip (Re.group m 2) in
       emit out (prefix ++ pct) val)
    (Re.finditer re_percentile line) out_list.

Definition parse_disk_stats (dev rest : str) (out_list : list str)
  : result (list str) :=
  fold_left
    (fun acc m =>
       let* out := acc in
       let k := normalize_key (Re.group m 1) in
       let v := strip (Re.group m 2) in
       if has_char "/" v && negb (has_char "," v) then
         let parts := split1 "/" v in
         let* part_a := index parts 0 in
         let* part_b := index parts 1 in
         let out :=
           emit out ("disk_" ++ dev ++ "_" ++ k ++ "_read") (strip part_a) in
         Ok (emit out ("disk_" ++ dev ++ "_" ++ k ++ "_write") (strip part_b))
       else Ok (emit out ("disk_" ++ dev ++ "_" ++ k) v))
    (Re.finditer re_kv rest) (Ok out_list).

(** The local state of [parse_file]. *)
Record extractor : Type := Extractor {
  out : list str;
  pct_mode : option str;
  disk_section : bool
}.

Definition extractor_init : extractor := Extractor [] None false.

Definition with_out (st : extractor) (o : list str) : extractor :=
  Extractor o (pct_mode st) (disk_section st).

Definition emit_if_match (mm : option Re.mobj) (key : str) (o : list str)
  : list str :=
  match mm with
  | Some m => emit o key (Re.group m 1)
  | None => o
  end.

(** [parse_kv_list(sline.split(':', 1)[1], prefix, out)] *)
Definition kv_after_colon (st : extractor) (sline prefix : str)
  : result extractor :=
  let* rest := index (split1 ":" sline) 1 in
  Ok (with_out st (parse_kv_list rest prefix (out st))).

(** A rule of the cascade returns [Some] outcome when it takes the line
    (the loop body ends in [continue]) and [None] when the line goes on to
    the next test. *)
Definition orelse {A : Type} (a b : option A) : option A :=
  match a with
  | Some x => Some x
  | None => b
  end.
Infix "<|>" := orelse (at level 51, right associativity).

(** Reset disk section on blank line. *)
Definition rule_blank (st : extractor) (sline : str)
  : option (result extractor) :=
  if str_eqb sline "" then Some (Ok (Extractor (out st) None false)) else None.

Definition rule_version (st : extractor) (sline : str)
  : option (result extractor) :=
  match Re.rmatch re_fio_version sline with
  | Some m => Some (Ok (with_out st (emit (out st) "fio_version" (Re.group m 1))))
  | None => None
  end.

Definition rule_layout (st : extractor) (sline : str)
  : option (result extractor) :=
  if contains "Laying out IO file" sline then
    match Re.search re_layout sline with
    | Some m =>
        let o := emit (out st) "layout_files" (Re.group m 1) in
        Some (Ok (with_out st (emit o "layout_size" (Re.group m 2))))
    | None => Some (Ok st)
    end
  else None.

Definition rule_group_jobs (st : extractor) (sline : str)
  : option (result extractor) :=
  match Re.search re_group_jobs sline with
  | Some m =>
      let o := emit (out st) "job_name" (Re.group m 1) in
      let o := emit o "groupid" (Re.group m 2) in
      let o := emit o "jobs" (Re.group m 3) in
      let o := emit o "err" (Re.group m 4) in
      let o := emit o "pid" (Re.group m 5) in
      Some (Ok (with_out st (emit o "timestamp" (Re.group m 6))))
  | None => None
  end.

Definition rule_job_header (st : extractor) (sline : str)
  : option (result extractor) :=
  match Re.search re_job_header sline with
  | Some m =>
      let o := emit (out st) "job_name" (Re.group m 1) in
      let o := if nonempty (Re.group m 2)
               then emit o "rw" (Re.group m 2) else o in
      let o := if nonempty (Re.group m 3)
               then emit o "ioengine" (Re.group m 3) else o in
      let o := if nonempty (Re.group m 4)
               then emit o "iodepth" (Re.group m 4) else o in
      let o := emit_if_match (Re.search re_bs_r sline) "bs_r" o in
      let o := emit_if_match (Re.search re_bs_w sline) "bs_w" o in
      let o := emit_if_match (Re.search re_bs_t sline) "bs_t" o in
      Some (Ok (with_out st o))
  | None => None
  end.

(** special: percentiles block *)
Definition rule_pct_header (st : extractor) (sline : str)
  : option (result extractor) :=
  if startswith "clat percentiles" (lower sline)
     || startswith "clat percentiles (usec):" (lower sline)
  then Some (Ok (Extractor (out st) (Some "clat") (disk_section st)))
  else None.

Definition rule_pct_row (st : extractor) (sline : str)
  : option (result extractor) :=
  if bool_decide (pct_mode st = Some "clat") && startswith "|" sline
  then Some (Ok (with_out st (parse_percentile_line sline "clat_pct_" (out st))))
  else None.

(** run summary lines *)
Definition rule_run_summary (pat : Re.regex) (prefix : str)
    (st : extractor) (sline : str) : option (result extractor) :=
  match Re.rmatch pat sline with
  | Some _ => Some (Ok (with_out st (parse_kv_list sline prefix (out st))))
  | None => None
  end.

(** The rules of the cascade before the prefix-dispatched ones, in the
    order of the source: [None] when none of them takes the line. *)
Definition early_rules (st : extractor) (sline : str)
  : option (result extractor) :=
  rule_blank st sline
  <|> rule_version st sline
  <|> rule_layout st sline
  <|> rule_group_jobs st sline
  <|> rule_job_header st sline
  <|> rule_pct_header st sline
  <|> rule_pct_row st sline
  <|> rule_run_summary re_run_read "run_read_" st sline
  <|> rule_run_summary re_run_write "run_write_" st sline.

(** The fallback: general key=val anywhere else. *)
Definition fallback (st : extractor) (sline : str) : extractor :=
  with_out st
    (fold_left
       (fun o m =>
          let k := normalize_key (Re.group m 1) in
          let v := strip (Re.group m 2) in
          emit o k v)
       (Re.finditer re_kv sline) (out st)).

(** The rest of the cascade, from the [read:] test on. *)
Definition prefix_rules (st : extractor) (sline : str) : result extractor :=
  if startswith "read:" sline then kv_after_colon st sline "read_"
  else if startswith "write:" sline then kv_after_colon st sline "write_"
  else if startswith "slat" sline then kv_after_colon st sline "slat_"
  else if startswith "clat" sline && negb (contains "percentiles" (lower sline))
  then kv_after_colon st sline "clat_"
  else if startswith "lat (usec)" sline || startswith "lat (usec)   :" sline
  then kv_after_colon st sline "lat_usec_"
  else if startswith "lat (msec)" sline
  then kv_after_colon st sline "lat_msec_"
  else if startswith "bw (" sline || startswith "bw (" sline
  then kv_after_colon st sline "bw_"
  else if startswith "iops" sline && contains "iops" sline
  then kv_after_colon st sline "iops_"
  else if startswith "lat (usec)" sline
  then kv_after_colon st sline "lat_usecpct_"
  else if startswith "cpu" sline then kv_after_colon st sline "cpu_"
  else if startswith "IO depths" sline
  then kv_after_colon st sline "iodepth_dist_"
  else if startswith "submit" sline then kv_after_colon st sline "submit_"
  else if startswith "complete" sline
  then kv_after_colon st sline "complete_"
  else if contains "issued rwts" sline then
    let o := emit_if_match (Re.search (re_issued "total") sline)
               "issued_total" (out st) in
    let o := emit_if_match (Re.search (re_issued "short") sline)
               "issued_short" o in
    let o := emit_if_match (Re.search (re_issued "dropped") sline)
               "issued_dropped" o in
    Ok (with_out st o)
  else if startswith "latency" sline
  then kv_after_colon st sline "latency_cfg_"
  else if contains "Disk stats" sline
  then Ok (Extractor (out st) (pct_mode st) true)
  else
    match (if disk_section st then Re.rmatch re_disk_dev sline else None) with
    | Some m =>
        let* o := parse_disk_stats (Re.group m 1) (Re.group m 2) (out st) in
        Ok (with_out st o)
    | None => Ok (fallback st sline)
    end.

(** One iteration of the loop of [parse_file]. *)
Definition parse_line (st : extractor) (raw : str) : result extractor :=
  let line := rstrip_by is_nl raw in
  let sline := strip line in
  match early_rules st sline with
  | Some r => r
  | None => prefix_rules st sline
  end.

Fixpoint parse_lines (st : extractor) (lines : list str) : result extractor :=
  match lines with
  | [] => Ok st
  | raw :: rest => let* st' := parse_line st raw in parse_lines st' rest
  end.

(** [parse_file], on the lines the file yields. *)
Definition parse_file (lines : list str) : result (list str) :=
  let* st := parse_lines extractor_init lines in Ok (out st).

(** ** Notions the properties are stated with *)

(** A line at which [parse_consolidated] flushes: a run marker or a file
    marker. *)
Definition is_boundary (raw : str) : bool :=
  let line := strip_by is_nl raw in
  startswith "~~~~~~~ RUN #" line
  || (startswith "-- " line && endswith " --" line).

(** The digits a run marker line gives to [int]: those of the first
    [RUN #<digits>] of a line that starts with the marker text. *)
Definition marker_number (raw : str) : option str :=
  let line := strip_by is_nl raw in
  if startswith "~~~~~~~ RUN #" line then
    (fun m => Re.group m 1) <$> Re.search run_pat line
  else None.

(** A run marker whose number has more digits than [int] converts. *)
Definition overlong_marker (raw : str) : bool :=
  match marker_number raw with
  | Some ds => (max_str_digits <? Z.of_nat (length ds))%Z
  | None => false
  end.

(** The key and value of a metric line, if it is one. *)
Definition line_key (raw : str) : option str :=
  match parse_key_val (strip_by is_nl raw) with
  | Ok (Some (k, _)) => Some k
  | _ => None
  end.



(** The bandwidth fields in their order of preference. *)
Definition bw_keys : list str :=
  [ "run_read_bw"; "run_write_bw"; "read_bw"; "write_bw" ].

(** The fallback: [bw_avg] read as KiB/s, times 1024, over 1e9. *)
Definition bw_avg_gbps (m : gmap str str) : option float :=
  match m !! "bw_avg" with
  | Some a =>
      match py_float a with
      | Ok kib_s =>
          Some (fquot (fmul kib_s (float_of_Z 1024)) (float_of_Z GB_DEC))
      | Raise _ => None
      end
  | None => None
  end.

(** A record whose preferred bandwidth field does not parse while a later
    one does. *)
Definition unparseable_first : gmap str str :=
  <[ "run_read_bw" := "n/a" ]> {[ "read_bw" := "165MiB/s" ]}.

(** A character of a normalized key: a lower-case letter, a digit, or one
    of [_], [.], [-]. *)
Definition is_norm_char (c : ascii) : bool :=
  is_lower c || is_digit c || Re.one_of "_.-" c.

(** A string in normalized form. *)
Definition is_normalized (s : str) : bool := forallb is_norm_char s.

(** *** Rate tokens

    The classes of the unit [[KMGTP]?i?B] under [re.I]. *)
Definition is_unit_prefix : ascii -> bool := Re.one_of_ci "KMGTP".
Definition is_unit_i : ascii -> bool := Re.one_of_ci "i".
Definition is_unit_b : ascii -> bool := Re.one_of_ci "B".

(** [u] has the shape [[KMGTP]?i?B], in either case. *)
Definition unit_form (u : str) : bool :=
  match u with
  | [c] => is_unit_b c
  | [a; c] => (is_unit_prefix a || is_unit_i a) && is_unit_b c
  | [a; b; c] => is_unit_prefix a && is_unit_i b && is_unit_b c
  | _ => false
  end.

(** [s] starts with a rate token: a number, optional white space, a unit
    and [/s], followed by [rest]. *)
Definition rate_token (s num ws unit rest : str) : Prop :=
  (exists sl, s = num ++ ws ++ unit ++ sl ++ rest /\ lower sl = "/s")
  /\ num <> [] /\ forallb is_numch num = true
  /\ forallb is_space ws = true /\ unit_form unit = true.

(** The multipliers of the specification: binary for KiB..TiB, decimal for
    KB..TB, and bytes for a bare B. *)
Definition unit_table : list (str * Z) :=
  [ ("kib", 1024%Z); ("mib", (1024 ^ 2)%Z);
    ("gib", (1024 ^ 3)%Z); ("tib", (1024 ^ 4)%Z);
    ("kb", 1000%Z); ("mb", 1000000%Z); ("gb", 1000000000%Z);
    ("tb", 1000000000000%Z); ("b", 1%Z) ].

Definition unit_multiplier (unit : str) : option Z :=
  snd <$> List.find (fun e => str_eqb (fst e) unit) unit_table.

(** The pattern read from left to right without backtracking. *)
Definition scan_opt (p : ascii -> bool) (s : str) : str * str :=
  match s with
  | c :: t => if p c then ([c], t) else ([], s)
  | [] => ([], s)
  end.

Definition scan_unit (s : str) : option (str * str) :=
  let '(a, s1) := scan_opt is_unit_prefix s in
  let '(b, s2) := scan_opt is_unit_i s1 in
  match s2 with
  | c :: t => if is_unit_b c then Some (a ++ b ++ [c], t) else None
  | [] => None
  end.

Definition scan_per_second (s : str) : option str :=
  match s with
  | c1 :: c2 :: rest =>
      if chr_eqb "/" (lower_char c1) && chr_eqb "s" (lower_char c2)
      then Some rest else None
  | _ => None
  end.

Definition scan_rate (s : str) : option (str * str * str * str) :=
  match take_while is_numch s with
  | [] => None
  | num =>
      let r1 := drop_while is_numch s in
      let ws := take_while is_space r1 in
      match scan_unit (drop_while is_space r1) with
      | Some (u, r3) =>
          match scan_per_second r3 with
          | Some rest => Some (num, ws, u, rest)
          | None => None
          end
      | None => None
      end
  end.

(** The number [x] scaled by the IOPS suffix that starts [rest]: times
    1000 for [k], times 1,000,000 for [m], in either case, and as it is
    otherwise. *)
Definition iops_scale (rest : str) (x : float) : float :=
  match rest with
  | c :: _ =>
      if Re.one_of "kK" c then fmul x (float_of_Z 1000)
      else if Re.one_of "mM" c then fmul x (float_of_Z 1000000)
      else x
  | [] => x
  end.

(** The unit group of [size_pat]. *)
Definition unit_re : Re.regex :=
  Re.Group 2
    (Re.seqs [ Re.opt (Re.Chr (Re.one_of_ci "KMGTP"));
               Re.opt (Re.Chr (Re.one_of_ci "i"));
               Re.Chr (Re.one_of_ci "B") ]).

(** The leftmost position of [s] at which a rate token starts, read by
    [scan_rate]. *)
Fixpoint first_rate (s : str) : option (str * str * str * str) :=
  match scan_rate s with
  | Some r => Some r
  | None =>
      match s with
      | [] => None
      | _ :: t => first_rate t
      end
  end.

(** The eight unit forms of the specification, lower-cased. *)
Definition eight_units : list str :=
  [ "kib"; "mib"; "gib"; "tib"; "kb"; "mb"; "gb"; "tb" ].

(** The IOPS rule as the specification words it: a number at the very
    start of the string, with the suffix directly behind it. *)
Definition spec_iops_to_k (val : str) : result (option float) :=
  match take_while is_numch val with
  | [] => Ok None
  | num =>
      let* q := py_float num in
      Ok (Some (fquot (iops_scale (drop_while is_numch val) q)
                  (float_of_Z 1000)))
  end.

(** The suffix class of [iops_pat]. *)
Definition is_iops_suffix : ascii -> bool := Re.one_of "kKmM".

(** A record whose bandwidth field holds a number with two points. *)
Definition malformed_bw_record : record :=
  Record_ 1 "a.parsed.txt" None {[ "read_bw" := "1.2.3MiB/s" ]}.


(** ** summarize_file *)

(** [x or default] for an optional string. *)
Definition or_default (x : option str) (default : str) : str :=
  match x with
  | Some (c :: t) => c :: t
  | _ => default
  end.

(** [str(n)] for an [int]. *)
Definition fmt_int (z : Z) : str :=
  if (z <? 0)%Z then "-" ++ Z_to_str (- z) else Z_to_str z.

(** [sep.join(parts)] *)
Fixpoint join (sep : str) (parts : list str) : str :=
  match parts with
  | [] => []
  | [p] => p
  | p :: rest => p ++ sep ++ join sep rest
  end.

(** [[f"{label}={x}"]] when the optional string [x] is truthy. *)
Definition src_bit (label : str) (x : option str) : list str :=
  match x with
  | Some (c :: t) => [label ++ "=" ++ c :: t]
  | _ => []
  end.

(** [f"===== RUN #{n} ====="] *)
Definition run_header_line (n : Z) : str :=
  "===== RUN #" ++ fmt_int n ++ " =====".

(** The line of results of a record. *)
Definition result_line (rec : record) (s : summary) : str :=
  or_default (job_name rec) (file rec) ++ ": "
  ++ "throughput_GBps=" ++ or_default (s_throughput_GBps s) "n/a" ++ ", "
  ++ "iops_k=" ++ or_default (s_iops_k s) "n/a" ++ ", "
  ++ "derived_latency_ms=" ++ or_default (s_derived_latency_ms s) "n/a"
  ++ ", "
  ++ "iodepth=" ++ or_default (s_iodepth s) "n/a" ++ ", "
  ++ "clat_avg_ms=" ++ or_default (s_clat_avg_ms s) "n/a".

(** The line of source hints, when there is one. *)
Definition sources_line (s : summary) : list str :=
  let src_bits :=
    src_bit "bw_src" (s_bw_source s) ++ src_bit "iops_src" (s_iops_source s) in
  match src_bits with
  | [] => []
  | _ => ["  (" ++ join "; " src_bits ++ ")"]
  end.

(** The lines one record adds to the report, and the run number after it. *)
Definition report_record (current_run : option Z) (rec : record)
  : result (option Z * list str) :=
  let* s := summarize_record rec in
  let header :=
    if bool_decide (current_run = Some (s_run s)) then []
    else [run_header_line (s_run s)] in
  Ok (Some (s_run s), header ++ [result_line rec s] ++ sources_line s).

(** The loop over the records: the lines are appended to [lines]. *)
Fixpoint report_records (current_run : option Z) (lines : list str)
    (recs : list record) : result (list str) :=
  match recs with
  | [] => Ok lines
  | rec :: rest =>
      let* step := report_record current_run rec in
      report_records (fst step) (lines ++ snd step) rest
  end.

(** The lines [summarize_file] joins and writes, for a file called [name]
    that holds [records]. *)
Definition summary_lines (name : str) (recs : list record)
  : result (list str) :=
  let* lines := report_records None ["Summary for " ++ name; ""] recs in
  Ok (lines ++ [""]).

Definition NL : ascii := "010"%char.

(** The text [summarize_file] writes for the input [raw_lines]. *)
Definition summarize_file (name : str) (raw_lines : list str) : result str :=
  let* recs := parse_consolidated raw_lines in
  let* lines := summary_lines name recs in
  Ok (join [NL] lines).

(** The lines of a record in the report, when [prev] is the record before
    it: the run header unless [prev] is of the same run, the line of
    results, and the line of source hints. *)
Definition record_block (prev : option record) (rec : record) (s : summary)
  : list str :=
  match prev with
  | Some p => if bool_decide (run p = run rec) then []
              else [run_header_line (run rec)]
  | None => [run_header_line (run rec)]
  end
  ++ [result_line rec s] ++ sources_line s.

(** The IOPS fields in their order of preference. *)
Definition iops_keys : list str := [ "read_iops"; "write_iops" ].

(** The fallback: [iops_avg] as a plain number, over 1000. *)
Definition iops_avg_k (m : gmap str str) : option float :=
  match m !! "iops_avg" with
  | Some a =>
      match py_float a with
      | Ok x => Some (fquot x (float_of_Z 1000))
      | Raise _ => None
      end
  | None => None
  end.

(** The queue depth of a record: its [iodepth] entry, when it is not
    empty and [float] reads it. *)
Definition iodepth_of (m : gmap str str) : option float :=
  match m !! "iodepth" with
  | Some (c :: t) =>
      match py_float (c :: t) with
      | Ok x => Some x
      | Raise _ => None
      end
  | _ => None
  end.

(** The kIOPS figure of a record: that of its IOPS source when the source
    gives one, the [iops_avg] fallback otherwise. *)
Definition iops_k_of (m : gmap str str) : option float :=
  match first_available m iops_keys with
  | Some (c :: t) =>
      match iops_to_k (c :: t) with
      | Ok (Some x) => Some x
      | _ => iops_avg_k m
      end
  | _ => iops_avg_k m
  end.

(** [0 < x] *)
Definition fpos (x : float) : bool := SFltb (float_of_Z 0) x.

(** A record whose only IOPS figure is not a number, as fio prints the
    average of no samples. *)
Definition nan_iops_record : record :=
  Record_ 1 "a.parsed.txt" None
    (<[ "iodepth" := "32" ]> {[ "iops_avg" := "nan" ]}).

(** A number token [[0-9.]+] that [float] accepts: at least one digit and
    at most one point. *)
Definition is_point (c : ascii) : bool := is_code 46 c.

Definition well_formed_number (num : str) : bool :=
  existsb is_digit num && (length (List.filter is_point num) <=? 1)%nat.

(** What every record of the splitter satisfies: it has a metric, and its
    job name is the [job_name] entry of its mapping. *)
Definition record_ok (r : record) : Prop :=
  metrics r <> ∅ /\ job_name r = metrics r !! "job_name".

Definition splitter_inv (st : splitter) : Prop :=
  Forall record_ok (records st)
  /\ cur_job_name st = current_metrics st !! "job_name".

(** The groups [g] of a match do not contain the character [c]. *)
Definition caps_without (c : ascii) (g : Re.caps) : Prop :=
  Forall (fun e => has_char c (snd e) = false) g.

(** What one key=value match [m] of the text adds for the device [dev]:
    the line [disk_<dev>_<key> = value], or, when the value has a slash,
    the two lines [..._read] and [..._write] with the stripped texts before
    and after its first slash. *)
Definition disk_entries (dev : str) (m : Re.mobj) (b : list str) : Prop :=
  let k := "disk_" ++ dev ++ "_" ++ normalize_key (Re.group m 1) in
  let v := strip (Re.group m 2) in
  (has_char "/" v = false /\ b = emit [] k v)
  \/ (exists a c,
        v = a ++ "/"%char :: c /\ has_char "/" a = false
        /\ b = emit [] (k ++ "_read") (strip a)
               ++ emit [] (k ++ "_write") (strip c)).

(** The stripped line is taken by one of the rules that read the text after
    its first colon. *)
Definition takes_prefix_rule (sline : str) : bool :=
  startswith "read:" sline || startswith "write:" sline
  || startswith "slat" sline
  || (startswith "clat" sline && negb (contains "percentiles" (lower sline)))
  || startswith "lat (usec)" sline || startswith "lat (msec)" sline
  || startswith "bw (" sline || startswith "iops" sline
  || startswith "cpu" sline || startswith "IO depths" sline
  || startswith "submit" sline || startswith "complete" sline
  || (negb (contains "issued rwts" sline) && startswith "latency" sline).

(** What a rule can do to the state: it only appends to the output, it can
    switch the percentile mode or the disk section on, and nothing else. *)
Definition advances (st st' : extractor) : Prop :=
  out st `prefix_of` out st'
  /\ (pct_mode st' = pct_mode st \/ pct_mode st' = Some "clat")
  /\ (disk_section st' = disk_section st \/ disk_section st' = true).

(** * Properties *)

(** ** Characters *)

Ltac char_cases c :=
  destruct c as [[] [] [] [] [] [] [] []]; vm_compute;
  try reflexivity; try discriminate; intuition congruence.

Lemma chr_eqb_eq (a b : ascii) : chr_eqb a b = true <-> a = b.
Proof. unfold chr_eqb. apply Ascii.eqb_eq. Qed.

Lemma chr_eqb_refl (a : ascii) : chr_eqb a a = true.
Proof. apply chr_eqb_eq. reflexivity. Qed.

Lemma numch_not_space (c : ascii) : is_numch c = true -> is_space c = false.
Proof. char_cases c. Qed.

(** ** The summarizer raises on a malformed number *)

(** C1 (code bug).  The specification promises that each derivation returns
    a present-or-absent value and never raises.  On a number token with two
    decimal points the pattern [[0-9.]+] matches and [float] raises
    [ValueError], which neither [bw_to_gbps] nor [iops_to_k] nor their
    caller catches, so the whole record is lost; [parse_numeric], the
    sibling that wraps [float] in [try]/[except], returns no value on the
    same number. *)
Theorem malformed_number_raises :
  bw_to_gbps "1.2.3MiB/s" = Raise ValueError
  /\ iops_to_k "1.2.3k" = Raise ValueError
  /\ summarize_record malformed_bw_record = Raise ValueError
  /\ parse_numeric "1.2.3" = Ok None.
Proof. repeat split; vm_compute; reflexivity. Qed.

(** ** Derived latency *)

Lemma bind_Ok {A B : Type} (a : A) (f : A -> result B) : bind (Ok a) f = f a.
Proof. reflexivity. Qed.

Ltac bind_inv H :=
  match type of H with
  | bind ?r _ = Ok _ =>
      let E := fresh "E" in
      destruct r eqn:E;
      [rewrite bind_Ok in H; cbv beta in H | discriminate H]
  end.

Lemma derive_latency_field (m : gmap str str) (d : derived) :
  derive m = Ok d ->
  derive_latency_ms (d_iops_k d) (d_iodepth d) = Ok (d_latency d).
Proof.
  unfold derive. intros H.
  repeat bind_inv H.
  injection H as <-. simpl. assumption.
Qed.

(** ** Strings *)

Lemma startswith_app (p s : str) :
  startswith p s = true <-> exists r, s = p ++ r.
Proof.
  revert s. induction p as [| a p IH]; intros s; simpl.
  - split; [eauto | reflexivity].
  - destruct s as [| b s]; simpl.
    + split; [discriminate | intros (r & Hr); discriminate].
    + rewrite andb_true_iff, chr_eqb_eq, IH. split.
      * intros (-> & r & ->). eauto.
      * intros (r & Hr). injection Hr as -> ->. eauto.
Qed.

Lemma has_char_app (c : ascii) (a b : str) :
  has_char c (a ++ b) = has_char c a || has_char c b.
Proof. unfold has_char. apply existsb_app. Qed.

Lemma split1_hd (c : ascii) (s : str) :
  exists h t, split1 c s = h :: t.
Proof.
  induction s as [| a s (h & t & IH)]; simpl; [eauto |].
  destruct (chr_eqb c a); [eauto |]. rewrite IH. eauto.
Qed.

Lemma split1_at (c : ascii) (a b : str) :
  has_char c a = false -> split1 c (a ++ c :: b) = [a; b].
Proof.
  induction a as [| x a IH]; simpl; intros H.
  - rewrite chr_eqb_refl. reflexivity.
  - apply orb_false_iff in H as [Hx Ha]. rewrite Hx, (IH Ha). reflexivity.
Qed.

Lemma has_char_split (c : ascii) (s : str) :
  has_char c s = true ->
  exists a b, s = a ++ c :: b /\ has_char c a = false.
Proof.
  induction s as [| x s IH]; simpl; [discriminate |].
  destruct (chr_eqb c x) eqn:E; simpl.
  - intros _. apply chr_eqb_eq in E as <-. exists [], s. split; reflexivity.
  - intros H. destruct (IH H) as (a & b & -> & Ha).
    exists (x :: a), b. split; [reflexivity |]. simpl. rewrite E. exact Ha.
Qed.

Lemma drop_while_all (p : ascii -> bool) (ws s : str) :
  forallb p ws = true -> drop_while p (ws ++ s) = drop_while p s.
Proof.
  induction ws as [| c ws IH]; simpl; [reflexivity |].
  intros H. apply andb_true_iff in H as [-> H]. auto.
Qed.

Lemma drop_while_app_stop (p : ascii -> bool) (a : str) (c : ascii) (b : str) :
  p c = false -> drop_while p (a ++ c :: b) = drop_while p a ++ c :: b.
Proof.
  intros Hc. induction a as [| x a IH]; simpl.
  - rewrite Hc. reflexivity.
  - destruct (p x); [exact IH | reflexivity].
Qed.

Lemma drop_while_app_nonempty (p : ascii -> bool) (a b : str) :
  drop_while p a <> [] -> drop_while p (a ++ b) = drop_while p a ++ b.
Proof.
  induction a as [| x a IH]; simpl; [congruence |].
  destruct (p x); [exact IH | reflexivity].
Qed.

Lemma drop_while_length (p : ascii -> bool) (s : str) :
  length (drop_while p s) <= length s.
Proof.
  induction s as [| c s IH]; simpl; [lia |]. destruct (p c); simpl; lia.
Qed.

Lemma drop_while_fix (p : ascii -> bool) (s : str) :
  length s <= length (drop_while p s) -> drop_while p s = s.
Proof.
  destruct s as [| c s]; simpl; [reflexivity |].
  destruct (p c); [| reflexivity].
  pose proof (drop_while_length p s). lia.
Qed.

Lemma drop_while_idem (p : ascii -> bool) (s : str) :
  drop_while p (drop_while p s) = drop_while p s.
Proof.
  induction s as [| c s IH]; simpl; [reflexivity |].
  destruct (p c) eqn:E; [exact IH |]. simpl. rewrite E. reflexivity.
Qed.

Lemma forallb_rev (p : ascii -> bool) (s : str) :
  forallb p (rev s) = forallb p s.
Proof.
  induction s as [| c s IH]; simpl; [reflexivity |].
  rewrite forallb_app, IH. simpl. rewrite andb_true_r. apply andb_comm.
Qed.

Lemma rstrip_by_length (p : ascii -> bool) (s : str) :
  length (rstrip_by p s) <= length s.
Proof.
  unfold rstrip_by. rewrite length_rev.
  pose proof (drop_while_length p (rev s)). rewrite length_rev in H. exact H.
Qed.

Lemma rstrip_by_all (p : ascii -> bool) (s ws : str) :
  forallb p ws = true -> rstrip_by p (s ++ ws) = rstrip_by p s.
Proof.
  intros H. unfold rstrip_by. rewrite rev_app_distr.
  rewrite drop_while_all; [reflexivity |]. rewrite forallb_rev. exact H.
Qed.

Lemma rstrip_by_app_stop (p : ascii -> bool) (a : str) (c : ascii) (t : str) :
  p c = false -> rstrip_by p (a ++ c :: t) = a ++ c :: rstrip_by p t.
Proof.
  intros Hc. unfold rstrip_by.
  rewrite rev_app_distr. simpl. rewrite <- app_assoc. simpl.
  rewrite (drop_while_app_stop p (rev t) c (rev a) Hc).
  rewrite rev_app_distr. simpl. rewrite rev_involutive, <- app_assoc.
  reflexivity.
Qed.

(** A string that [strip] leaves alone is left alone by both halves. *)
Lemma strip_by_fix (p : ascii -> bool) (s : str) :
  strip_by p s = s -> drop_while p s = s /\ rstrip_by p s = s.
Proof.
  unfold strip_by, lstrip_by. intros H.
  assert (Hl : drop_while p s = s).
  { apply drop_while_fix. rewrite <- H at 1. apply rstrip_by_length. }
  rewrite Hl in H. auto.
Qed.

Lemma strip_by_pad (p : ascii -> bool) (ws1 v ws2 : str) :
  forallb p ws1 = true -> forallb p ws2 = true ->
  strip_by p (ws1 ++ v ++ ws2) = strip_by p v.
Proof.
  intros H1 H2. unfold strip_by, lstrip_by.
  rewrite (drop_while_all p ws1 _ H1).
  destruct (drop_while p v) as [| c r] eqn:E.
  - assert (Hv : forallb p v = true).
    { clear -E. induction v as [| x v IH]; simpl in *; [reflexivity |].
      destruct (p x); [auto | discriminate]. }
    rewrite (drop_while_all p v ws2 Hv).
    assert (E2 : drop_while p ws2 = []).
    { rewrite <- (app_nil_r ws2). rewrite drop_while_all; auto. }
    rewrite E2. reflexivity.
  - rewrite drop_while_app_nonempty by (rewrite E; discriminate).
    rewrite E. apply rstrip_by_all. exact H2.
Qed.

Lemma strip_pad (ws1 v ws2 : str) :
  forallb is_space ws1 = true -> forallb is_space ws2 = true ->
  strip v = v -> strip (ws1 ++ v ++ ws2) = v.
Proof.
  intros H1 H2 Hv. unfold strip. rewrite strip_by_pad by assumption. exact Hv.
Qed.

(** ** The key=value line parser never raises *)

Lemma parse_key_val_total (line : str) :
  exists r, parse_key_val line = Ok r.
Proof.
  unfold parse_key_val.
  destruct (has_char "=" line) eqn:E; simpl; [| eauto].
  destruct (has_char_split _ _ E) as (a & b & -> & Ha).
  rewrite (split1_at _ _ _ Ha). simpl.
  destruct (has_char "#" (strip b)) eqn:E2; simpl; [| eauto].
  destruct (split1_hd "#" (strip b)) as (h & t & ->). simpl. eauto.
Qed.

(** ** Extractor output read back by the splitter *)

Lemma has_char_drop_while (c : ascii) (p : ascii -> bool) (s : str) :
  has_char c s = false -> has_char c (drop_while p s) = false.
Proof.
  induction s as [| x s IH]; simpl; [reflexivity |].
  intros H. destruct (p x); [| exact H].
  apply orb_false_iff in H as [_ H]. auto.
Qed.

Lemma parse_key_val_of_line (k v suffix : str) :
  has_char "=" k = false -> has_char "#" v = false ->
  strip k = k -> strip v = v ->
  suffix = [] \/ (exists t, suffix = TAB :: "#"%char :: t) ->
  parse_key_val (k ++ " = " ++ v ++ suffix) = Ok (Some (k, v)).
Proof.
  intros Hk Hv Sk Sv Hs. unfold parse_key_val.
  change (k ++ " = " ++ v ++ suffix)
    with (k ++ " " ++ "="%char :: " " ++ v ++ suffix).
  rewrite (app_assoc k " ").
  assert (Hk' : has_char "=" (k ++ " ") = false).
  { rewrite has_char_app, Hk. reflexivity. }
  rewrite has_char_app, Hk'. simpl negb. cbv iota.
  rewrite (split1_at _ _ _ Hk'). simpl index. simpl bind.
  assert (Ek : strip (k ++ " ") = k).
  { rewrite <- (app_nil_l (k ++ " ")). apply strip_pad; auto. }
  rewrite Ek.
  destruct Hs as [-> | (t & ->)].
  - assert (Ev : strip (" " ++ v ++ []) = v) by (apply strip_pad; auto).
    change (" " ++ v ++ []) with (" "%char :: v ++ []) in Ev.
    rewrite Ev, Hv. reflexivity.
  - set (X := " " ++ v ++ [TAB]).
    assert (EX : " "%char :: v ++ TAB :: "#"%char :: t = X ++ "#"%char :: t).
    { unfold X. simpl. rewrite <- app_assoc. reflexivity. }
    rewrite EX. unfold strip at 1 2 3. unfold strip_by, lstrip_by.
    rewrite (drop_while_app_stop is_space X "#" t eq_refl).
    rewrite (rstrip_by_app_stop is_space _ "#" _ eq_refl).
    assert (HX : has_char "#" (drop_while is_space X) = false).
    { apply has_char_drop_while. unfold X. simpl.
      rewrite has_char_app, Hv. reflexivity. }
    assert (Hh : has_char "#" (drop_while is_space X ++ "#"%char
                                 :: rstrip_by is_space t) = true).
    { rewrite has_char_app. simpl. apply orb_true_r. }
    rewrite Hh, (split1_at _ _ _ HX). simpl.
    assert (E : rstrip_by is_space
                  (drop_while is_space (drop_while is_space X)) = v).
    { rewrite drop_while_idem. apply (strip_pad " " v [TAB]); auto. }
    exact (f_equal (fun x => Ok (Some (k, x))) E).
Qed.

(** C10 (amended).  A key without ['='] and a value without ['#'], both
    unchanged by [strip], are read back by [parse_key_val] from the line
    [emit] writes, with or without a description. *)
Theorem emit_parse_key_val_roundtrip (out_list : list str) (k v : str) :
  has_char "=" k = false -> has_char "#" v = false ->
  strip k = k -> strip v = v ->
  exists line,
    emit out_list k v = out_list ++ [line]
    /\ parse_key_val line = Ok (Some (k, v)).
Proof.
  intros Hk Hv Sk Sv. unfold emit.
  destruct (describe k) as [[| c d] |].
  - eexists. split; [reflexivity |].
    rewrite <- (app_nil_r v) at 1.
    apply parse_key_val_of_line; auto.
  - eexists. split; [reflexivity |].
    apply parse_key_val_of_line; eauto.
  - eexists. split; [reflexivity |].
    rewrite <- (app_nil_r v) at 1.
    apply parse_key_val_of_line; auto.
Qed.

Lemma emit_parse_key_val_roundtrip_witness :
  exists line,
    emit [] "read_bw" "330MiB/s (346MB/s)" = [] ++ [line]
    /\ parse_key_val line = Ok (Some ("read_bw", "330MiB/s (346MB/s)")).
Proof.
  apply (emit_parse_key_val_roundtrip [] "read_bw" "330MiB/s (346MB/s)");
    reflexivity.
Defined.

(** C10, as stated, fails for a key that contains ['=']: the splitter cuts
    the line at its first ['=']. *)
Lemma roundtrip_fails_on_key_with_equals :
  has_char "#" "1" = false
  /\ strip "a=b" = "a=b"
  /\ strip "1" = "1"
  /\ emit [] "a=b" "1" = ["a=b = 1"]
  /\ parse_key_val "a=b = 1" = Ok (Some ("a", "b = 1"))
  /\ parse_key_val "a=b = 1" <> Ok (Some ("a=b", "1")).
Proof. repeat split; try (vm_compute; reflexivity). vm_compute. discriminate. Qed.

(** ** The splitter *)

Lemma split_lines_app (st : splitter) (a b : list str) :
  split_lines st (a ++ b) = let* st' := split_lines st a in split_lines st' b.
Proof.
  revert st. induction a as [| raw a IH]; intros st; simpl; [reflexivity |].
  destruct (split_line st raw); simpl; [apply IH | reflexivity].
Qed.

(** A line that is not a marker only touches the metrics and the job name. *)
Lemma split_line_metric (st : splitter) (raw : str) :
  is_boundary raw = false ->
  exists st',
    split_line st raw = Ok st'
    /\ records st' = records st
    /\ run_num st' = run_num st
    /\ current_file st' = current_file st
    /\ match parse_key_val (strip_by is_nl raw) with
       | Ok (Some (k, v)) => current_metrics st' = <[k := v]> (current_metrics st)
       | _ => current_metrics st' = current_metrics st
       end.
Proof.
  unfold is_boundary, split_line. intros H.
  apply orb_false_iff in H as [-> ->].
  destruct (parse_key_val_total (strip_by is_nl raw)) as ([[k v] |] & ->);
    simpl; eexists; repeat split; reflexivity.
Qed.

Lemma not_boundary_not_overlong (raw : str) :
  is_boundary raw = false -> overlong_marker raw = false.
Proof.
  unfold is_boundary, overlong_marker, marker_number. intros H.
  apply orb_false_iff in H as [-> _]. reflexivity.
Qed.

Lemma split_line_boundary (st : splitter) (raw : str) :
  is_boundary raw = true -> overlong_marker raw = false ->
  exists st',
    split_line st raw = Ok st'
    /\ records st' = records (flush st)
    /\ current_metrics st' = ∅.
Proof.
  unfold is_boundary, overlong_marker, marker_number, split_line, py_int.
  intros H Ho.
  destruct (startswith "~~~~~~~ RUN #" (strip_by is_nl raw)).
  - destruct (Re.search run_pat (strip_by is_nl raw)) as [m |];
      cbn [fmap option_fmap option_map] in Ho.
    + rewrite Ho, bind_Ok. eexists; repeat split; reflexivity.
    + eexists; repeat split; reflexivity.
  - rewrite orb_false_l in H. rewrite H.
    eexists; repeat split; reflexivity.
Qed.

Lemma split_line_overlong (st : splitter) (raw : str) :
  overlong_marker raw = true -> split_line st raw = Raise ValueError.
Proof.
  unfold overlong_marker, marker_number, split_line, py_int.
  destruct (startswith "~~~~~~~ RUN #" (strip_by is_nl raw)); [| discriminate].
  destruct (Re.search run_pat (strip_by is_nl raw)) as [m |];
    cbn [fmap option_fmap option_map]; [| discriminate].
  intros ->. reflexivity.
Qed.

Lemma metric_block (lines : list str) (st : splitter) :
  Forall (fun l => is_boundary l = false) lines ->
  exists st',
    split_lines st lines = Ok st'
    /\ records st' = records st
    /\ run_num st' = run_num st
    /\ current_file st' = current_file st
    /\ forall k, Forall (fun l => line_key l <> Some k) lines ->
                 current_metrics st' !! k = current_metrics st !! k.
Proof.
  intros H. revert st. induction H as [| raw lines Hraw _ IH]; intros st.
  - exists st. repeat split; reflexivity.
  - destruct (split_line_metric st raw Hraw) as (st1 & E1 & R1 & N1 & F1 & M1).
    destruct (IH st1) as (st2 & E2 & R2 & N2 & F2 & M2).
    exists st2. simpl. rewrite E1. simpl.
    repeat split; try congruence.
    intros k Hk. inversion Hk as [| ? ? Hk1 Hk2]; subst.
    rewrite (M2 k Hk2). unfold line_key in Hk1.
    destruct (parse_key_val (strip_by is_nl raw)) as [[[k' v'] |] | e];
      rewrite M1; try reflexivity.
    apply lookup_insert_ne. congruence.
Qed.

Lemma flush_ready (st : splitter) (r : Z) (f : str) :
  run_num st = Some r -> current_file st = Some f ->
  current_metrics st <> ∅ ->
  records (flush st)
  = records st ++ [Record_ r f (cur_job_name st) (current_metrics st)].
Proof.
  intros Hr Hf Hm. unfold flush. rewrite Hr, Hf. simpl.
  rewrite bool_decide_eq_true_2 by exact Hm. reflexivity.
Qed.


(** C8.  Within one run/file block the record's mapping holds, for a key
    that occurs on several metric lines, the value of its last occurrence. *)
Theorem last_value_wins (st : splitter) (before after : list str)
    (raw k v : str) (r : Z) (f : str) :
  Forall (fun l => is_boundary l = false) (before ++ raw :: after) ->
  parse_key_val (strip_by is_nl raw) = Ok (Some (k, v)) ->
  Forall (fun l => line_key l <> Some k) after ->
  run_num st = Some r -> current_file st = Some f ->
  exists st' rec,
    split_lines st (before ++ raw :: after) = Ok st'
    /\ current_metrics st' !! k = Some v
    /\ records (flush st') = records st ++ [rec]
    /\ run rec = r /\ file rec = f
    /\ metrics rec !! k = Some v.
Proof.
  intros Hb Hraw Hafter Hr Hf.
  apply Forall_app in Hb as [Hb1 Hb2].
  inversion Hb2 as [| ? ? Hb3 Hb4]; subst.
  destruct (metric_block before st Hb1) as (st1 & E1 & R1 & N1 & F1 & _).
  destruct (split_line_metric st1 raw Hb3) as (st2 & E2 & R2 & N2 & F2 & M2).
  rewrite Hraw in M2.
  destruct (metric_block after st2 Hb4) as (st3 & E3 & R3 & N3 & F3 & M3).
  assert (Hk : current_metrics st3 !! k = Some v).
  { rewrite (M3 k Hafter), M2. apply lookup_insert_eq. }
  exists st3, (Record_ r f (cur_job_name st3) (current_metrics st3)).
  split.
  { rewrite split_lines_app, E1. simpl. rewrite E2. simpl. exact E3. }
  split; [exact Hk |]. split.
  { rewrite (flush_ready st3 r f); try congruence.
    intros Hm. rewrite Hm, lookup_empty in Hk. discriminate. }
  repeat split. exact Hk.
Qed.

Lemma last_value_wins_witness :
  exists st' rec,
    split_lines (Splitter [] (Some 1%Z) (Some "a.txt") ∅ None)
      (["iodepth = 1"] ++ "bw_avg = 10" :: ["bw_avg = 20 # later"] ++ "iodepth = 32" :: ["jobs = 4"])
    = Ok st'
    /\ current_metrics st' !! "iodepth" = Some "32"
    /\ records (flush st') = [] ++ [rec]
    /\ run rec = 1%Z /\ file rec = "a.txt"
    /\ metrics rec !! "iodepth" = Some "32".
Proof.
  apply (last_value_wins (Splitter [] (Some 1%Z) (Some "a.txt") ∅ None)
           (["iodepth = 1"] ++ "bw_avg = 10" :: ["bw_avg = 20 # later"])
           ["jobs = 4"] "iodepth = 32" "iodepth" "32" 1%Z "a.txt").
  - repeat constructor.
  - reflexivity.
  - repeat constructor. vm_compute. discriminate.
  - reflexivity.
  - reflexivity.
Defined.

(** A line makes the splitter raise exactly when it is a run marker whose
    number [int] refuses; any other line is processed. *)
Lemma split_line_outcome (st : splitter) (raw : str) :
  if overlong_marker raw then split_line st raw = Raise ValueError
  else exists st',
         split_line st raw = Ok st'
         /\ records st'
            = if is_boundary raw then records (flush st) else records st.
Proof.
  destruct (overlong_marker raw) eqn:Eo; [apply split_line_overlong, Eo |].
  destruct (is_boundary raw) eqn:E.
  - destruct (split_line_boundary st raw E Eo) as (st' & H & R & _). eauto.
  - destruct (split_line_metric st raw E) as (st' & H & R & _). eauto.
Qed.

Lemma split_line_records (st st' : splitter) (raw : str) :
  split_line st raw = Ok st' ->
  records st' = if is_boundary raw then records (flush st) else records st.
Proof.
  intros H. pose proof (split_line_outcome st raw) as Ho.
  destruct (overlong_marker raw); [congruence |].
  destruct Ho as (st1 & H1 & R). congruence.
Qed.

Lemma split_lines_outcome (lines : list str) (st : splitter) :
  if existsb overlong_marker lines
  then split_lines st lines = Raise ValueError
  else exists st', split_lines st lines = Ok st'.
Proof.
  revert st. induction lines as [| raw lines IH]; intros st;
    cbn [existsb split_lines]; [eauto |].
  pose proof (split_line_outcome st raw) as Ho.
  destruct (overlong_marker raw); cbn [orb].
  - rewrite Ho. reflexivity.
  - destruct Ho as (st1 & -> & _). rewrite bind_Ok. apply IH.
Qed.




(** ** Bandwidth resolution *)

Lemma decimal_float_raises (neg : bool) (t : str) (e : exn) :
  decimal_float neg t = Raise e -> e = ValueError.
Proof.
  unfold decimal_float.
  destruct (drop_while is_digit t) as [| c r].
  - destruct (_ || _); [destruct (exponent _) |]; congruence.
  - destruct (is_code 46 c);
      (destruct (_ || _); [destruct (exponent _) |]; congruence).
Qed.

Lemma py_float_raises (s : str) (e : exn) :
  py_float s = Raise e -> e = ValueError.
Proof.
  unfold py_float.
  destruct (underscores_ok _ _); [| congruence].
  destruct (split_sign _) as [neg t].
  destruct (special_float neg t); [discriminate |].
  apply decimal_float_raises.
Qed.

Lemma fdiv_GB (x : float) :
  fdiv x (float_of_Z GB_DEC) = Ok (fquot x (float_of_Z GB_DEC)).
Proof. reflexivity. Qed.

Lemma fdiv_1000 (x : float) :
  fdiv x (float_of_Z 1000) = Ok (fquot x (float_of_Z 1000)).
Proof. reflexivity. Qed.

Lemma scaled_float_bw (a : str) :
  scaled_float a
    (fun kib_s => fdiv (fmul kib_s (float_of_Z 1024)) (float_of_Z GB_DEC))
  = Ok match py_float a with
       | Ok kib_s =>
           Some (fquot (fmul kib_s (float_of_Z 1024)) (float_of_Z GB_DEC))
       | Raise _ => None
       end.
Proof.
  unfold scaled_float. destruct (py_float a) as [x | e] eqn:E.
  - rewrite bind_Ok, fdiv_GB. reflexivity.
  - apply py_float_raises in E as ->. reflexivity.
Qed.

Lemma first_available_first (m : gmap str str) (keys : list str)
    (i : nat) (k v : str) :
  keys !! i = Some k -> m !! k = Some v ->
  (forall j k', j < i -> keys !! j = Some k' -> m !! k' = None) ->
  first_available m keys = Some v.
Proof.
  revert i. induction keys as [| k0 keys IH]; intros i Hi Hv Hlt.
  - discriminate.
  - destruct i as [| i]; simpl in *.
    + injection Hi as ->. rewrite Hv. reflexivity.
    + rewrite (Hlt 0 k0) by (try lia; reflexivity).
      apply (IH i); auto.
      intros j k' Hj Hk'. apply (Hlt (S j) k'); [lia | exact Hk'].
Qed.

Lemma first_available_none (m : gmap str str) (keys : list str) :
  (forall k, k ∈ keys -> m !! k = None) -> first_available m keys = None.
Proof.
  induction keys as [| k0 keys IH]; intros H; simpl; [reflexivity |].
  rewrite (H k0) by apply list_elem_of_here.
  apply IH. intros k Hk. apply H. apply list_elem_of_further. exact Hk.
Qed.

Lemma derive_bw (m : gmap str str) (d : derived) :
  derive m = Ok d ->
  d_bw_raw d = first_available m bw_keys
  /\ exists o,
       if_truthy (first_available m bw_keys) bw_to_gbps = Ok o
       /\ d_bw_gbps d = match o with
                        | Some g => Some g
                        | None => bw_avg_gbps m
                        end.
Proof.
  unfold derive. intros H.
  bind_inv H. fold bw_keys in H.
  destruct (if_truthy (first_available m bw_keys) bw_to_gbps)
    as [o |] eqn:Eo; [| discriminate H].
  rewrite bind_Ok in H.
  bind_inv H. repeat bind_inv H. injection H as <-. simpl.
  split; [reflexivity |]. exists o. split; [reflexivity |].
  unfold bw_avg_gbps.
  destruct o as [g |]; [injection E0 as <-; reflexivity |].
  destruct (m !! "bw_avg") as [a' |].
  - rewrite scaled_float_bw in E0. injection E0 as <-. reflexivity.
  - injection E0 as <-. reflexivity.
Qed.

(** C3 (amended).  The bandwidth source is the first of [run_read_bw],
    [run_write_bw], [read_bw], [write_bw] that is present in the record;
    only that field is parsed with the bandwidth rule.  When it parses, its
    value is the throughput; when it does not parse, or none of the four is
    present, the throughput is the [bw_avg] fallback (KiB/s times 1024 over
    1e9, absent when [bw_avg] is missing or not a number).  Fields after
    the first present one are not consulted. *)
Theorem bandwidth_resolution (m : gmap str str) (d : derived) :
  derive m = Ok d ->
  d_bw_raw d = first_available m bw_keys
  /\ (forall (i : nat) (k v : str),
         bw_keys !! i = Some k -> m !! k = Some v ->
         (forall j k', j < i -> bw_keys !! j = Some k' -> m !! k' = None) ->
         first_available m bw_keys = Some v)
  /\ ((forall k, k ∈ bw_keys -> m !! k = None) ->
      first_available m bw_keys = None)
  /\ (forall (s : str) (g : float),
         first_available m bw_keys = Some s ->
         bw_to_gbps s = Ok (Some g) -> d_bw_gbps d = Some g)
  /\ (forall s : str,
         first_available m bw_keys = Some s ->
         bw_to_gbps s = Ok None -> d_bw_gbps d = bw_avg_gbps m)
  /\ (first_available m bw_keys = None -> d_bw_gbps d = bw_avg_gbps m).
Proof.
  intros H. destruct (derive_bw m d H) as (Hraw & o & Ho & Hd).
  split; [exact Hraw |].
  split; [intros i k v; apply first_available_first |].
  split; [apply first_available_none |].
  split; [| split].
  - intros s g Hs Hg. rewrite Hs in Ho. destruct s as [| c t]; simpl in Ho.
    + vm_compute in Hg. discriminate.
    + rewrite Hg in Ho. injection Ho as <-. exact Hd.
  - intros s Hs Hn. rewrite Hs in Ho. destruct s as [| c t]; simpl in Ho.
    + injection Ho as <-. exact Hd.
    + rewrite Hn in Ho. injection Ho as <-. exact Hd.
  - intros Hs. rewrite Hs in Ho. simpl in Ho. injection Ho as <-. exact Hd.
Qed.

Lemma bandwidth_resolution_witness :
  exists d,
    derive (<[ "bw_avg" := "1000" ]> unparseable_first) = Ok d
    /\ d_bw_raw d = Some "n/a"
    /\ d_bw_gbps d = bw_avg_gbps (<[ "bw_avg" := "1000" ]> unparseable_first).
Proof.
  destruct (derive (<[ "bw_avg" := "1000" ]> unparseable_first))
    as [d | e] eqn:E; [| vm_compute in E; discriminate E].
  exists d. split; [reflexivity |].
  destruct (bandwidth_resolution _ d E) as (Hraw & _ & _ & _ & Hn & _).
  split.
  - rewrite Hraw. reflexivity.
  - apply (Hn "n/a"); reflexivity.
Defined.

(** C3, as stated, fails: with [run_read_bw] present but unparseable and
    [read_bw] present and parseable, the value of [read_bw] is not used and
    the record has no throughput. *)
Lemma later_field_not_consulted :
  unparseable_first !! "run_read_bw" = Some "n/a"
  /\ unparseable_first !! "read_bw" = Some "165MiB/s"
  /\ bw_to_gbps "n/a" = Ok None
  /\ bw_to_gbps "165MiB/s"
     = Ok (Some (fquot (fmul (float_of_Z 165) (float_of_Z (1024 * 1024)))
                   (float_of_Z GB_DEC)))
  /\ (exists d, derive unparseable_first = Ok d /\ d_bw_gbps d = None)
  /\ (exists s, summarize_record (Record_ 1 "a.txt" None unparseable_first)
                = Ok s /\ s_throughput_GBps s = None).
Proof.
  repeat split; try (vm_compute; reflexivity);
    eexists; split; vm_compute; reflexivity.
Qed.

(** ** The prefix-dispatched rule for sample IOPS lines *)

Lemma emit_appends (out_list : list str) (k v : str) :
  exists tail, emit out_list k v = out_list ++ [k ++ " = " ++ tail].
Proof.
  unfold emit. destruct (describe k) as [[| c d] |]; eauto.
Qed.

Lemma fold_emit_prefix (prefix : str) (ms : list Re.mobj) (out_list : list str) :
  exists new,
    fold_left
      (fun out m =>
         emit out (prefix ++ normalize_key (Re.group m 1))
           (strip (strip (Re.group m 2))))
      ms out_list
    = out_list ++ new
    /\ Forall2
         (fun m l =>
            exists tail,
              l = (prefix ++ normalize_key (Re.group m 1)) ++ " = " ++ tail)
         ms new.
Proof.
  revert out_list. induction ms as [| m ms IH]; intros out_list; simpl.
  - exists []. split; [symmetry; apply app_nil_r | constructor].
  - destruct (emit_appends out_list (prefix ++ normalize_key (Re.group m 1))
                (strip (strip (Re.group m 2)))) as (tail & ->).
    destruct (IH (out_list ++ [(prefix ++ normalize_key (Re.group m 1))
                                 ++ " = " ++ tail])) as (new & -> & Hnew).
    eexists (_ :: new). split.
    + rewrite <- app_assoc. reflexivity.
    + constructor; eauto.
Qed.

Lemma startswith_prefix (p r : str) : startswith p (p ++ r) = true.
Proof. apply startswith_app. eauto. Qed.

Lemma contains_startswith (p s : str) :
  startswith p s = true -> contains p s = true.
Proof. intros H. destruct s; simpl in *; rewrite H; reflexivity. Qed.

Lemma leading_iops_excludes (s : str) :
  startswith "iops" s = true ->
  startswith "read:" s = false /\ startswith "write:" s = false
  /\ startswith "slat" s = false /\ startswith "clat" s = false
  /\ startswith "lat (usec)" s = false
  /\ startswith "lat (usec)   :" s = false
  /\ startswith "lat (msec)" s = false /\ startswith "bw (" s = false.
Proof.
  destruct s as [| c s]; [discriminate |].
  intros H. assert (Hc : c = "i"%char).
  { cbn [startswith] in H. apply andb_true_iff in H as [H _].
    apply chr_eqb_eq in H. congruence. }
  subst c. repeat split; reflexivity.
Qed.

(** C7 (amended).  A line that reaches the prefix-dispatched rules and
    starts with [iops] (and has a colon) has every key=value pair found
    after its first colon emitted under its normalized key prefixed with
    [iops_], one line per pair and in order.  The rule is keyed on the
    start of the line. *)
Theorem iops_rule_prefix (st : extractor) (raw : str) :
  early_rules st (strip (rstrip_by is_nl raw)) = None ->
  startswith "iops" (strip (rstrip_by is_nl raw)) = true ->
  has_char ":" (strip (rstrip_by is_nl raw)) = true ->
  exists rest new,
    index (split1 ":" (strip (rstrip_by is_nl raw))) 1 = Ok rest
    /\ parse_line st raw
       = Ok (Extractor (out st ++ new) (pct_mode st) (disk_section st))
    /\ Forall2
         (fun m l =>
            exists tail,
              l = ("iops_" ++ normalize_key (Re.group m 1)) ++ " = " ++ tail)
         (Re.finditer re_kv rest) new
    /\ Forall (fun l => startswith "iops_" l = true) new.
Proof.
  intros Hearly Hstart Hcolon.
  unfold parse_line. rewrite Hearly.
  set (sline := strip (rstrip_by is_nl raw)) in *.
  destruct (has_char_split _ _ Hcolon) as (a & rest & Hs & Ha).
  assert (Hidx : index (split1 ":" sline) 1 = Ok rest).
  { rewrite Hs, (split1_at _ _ _ Ha). reflexivity. }
  destruct (fold_emit_prefix "iops_" (Re.finditer re_kv rest) (out st))
    as (new & Hfold & Hnew).
  exists rest, new. split; [exact Hidx |]. split; [| split; [exact Hnew |]].
  - pose proof (contains_startswith _ _ Hstart) as Hin.
    destruct (leading_iops_excludes _ Hstart)
      as (H1 & H2 & H3 & H4 & H5 & H6 & H7 & H8).
    unfold prefix_rules, kv_after_colon.
    rewrite Hidx, Hin, Hstart, H1, H2, H3, H4, H5, H6, H7, H8.
    cbn [andb orb]. rewrite bind_Ok. unfold with_out, parse_kv_list.
    cbn [out]. rewrite Hfold. reflexivity.
  - clear -Hnew. induction Hnew as [| m l ms ls (tail & ->) _ IH];
      constructor; [| exact IH].
    rewrite <- app_assoc. apply startswith_prefix.
Qed.

Lemma iops_rule_prefix_witness :
  exists rest new,
    index (split1 ":" (strip (rstrip_by is_nl "   iops  : min=75, avg=84.5"))) 1
    = Ok rest
    /\ parse_line extractor_init "   iops  : min=75, avg=84.5"
       = Ok (Extractor ([] ++ new) None false)
    /\ Forall2
         (fun m l =>
            exists tail,
              l = ("iops_" ++ normalize_key (Re.group m 1)) ++ " = " ++ tail)
         (Re.finditer re_kv rest) new
    /\ Forall (fun l => startswith "iops_" l = true) new.
Proof.
  apply (iops_rule_prefix extractor_init "   iops  : min=75, avg=84.5");
    vm_compute; reflexivity.
Defined.

(** C7, as stated, fails: a line that reaches the prefix-dispatched rules
    and contains [iops] without starting with it is left to the fallback,
    which emits its pairs without a prefix. *)
Lemma iops_rule_needs_leading_iops :
  early_rules extractor_init (strip (rstrip_by is_nl "x iops: min=1")) = None
  /\ contains "iops" (strip (rstrip_by is_nl "x iops: min=1")) = true
  /\ parse_line extractor_init "x iops: min=1"
     = Ok (Extractor ["min = 1"] None false)
  /\ startswith "iops_" "min = 1" = false.
Proof. repeat split; vm_compute; reflexivity. Qed.

(** ** The matcher on repeated classes *)

Section StarLoop.
Context {R : Type} (p : ascii -> bool) (k : nat -> str -> option R).

(** The longest run is tried first. *)
Lemma star_loop_longest (pos : nat) (s : str) (x : R) :
  k (pos + length (take_while p s)) (drop_while p s) = Some x ->
  Re.star_loop p k pos s = Some x.
Proof.
  revert pos. induction s as [| c s IH]; intros pos; simpl.
  - rewrite Nat.add_0_r. auto.
  - destruct (p c); simpl.
    + rewrite <- Nat.add_succ_comm. intros H. rewrite (IH _ H). reflexivity.
    + rewrite Nat.add_0_r. auto.
Qed.

(** When the continuation refuses every text that still starts with a
    character of the class, only the longest run can succeed. *)
Lemma star_loop_only_longest (pos : nat) (s : str) :
  (forall c t pos', p c = true -> k pos' (c :: t) = None) ->
  Re.star_loop p k pos s
  = k (pos + length (take_while p s)) (drop_while p s).
Proof.
  intros Hk. revert pos. induction s as [| c s IH]; intros pos; simpl.
  - rewrite Nat.add_0_r. reflexivity.
  - destruct (p c) eqn:E; simpl.
    + rewrite IH, <- Nat.add_succ_comm.
      destruct (k (S pos + length (take_while p s)) (drop_while p s));
        [reflexivity |].
      apply Hk. exact E.
    + rewrite Nat.add_0_r. reflexivity.
Qed.

End StarLoop.

Lemma take_drop_while (p : ascii -> bool) (s : str) :
  take_while p s ++ drop_while p s = s.
Proof.
  induction s as [| c s IH]; simpl; [reflexivity |].
  destruct (p c); simpl; [rewrite IH |]; reflexivity.
Qed.

Lemma take_while_all (p : ascii -> bool) (s : str) :
  forallb p (take_while p s) = true.
Proof.
  induction s as [| c s IH]; simpl; [reflexivity |].
  destruct (p c) eqn:E; simpl; [rewrite E; exact IH | reflexivity].
Qed.

Lemma drop_while_head (p : ascii -> bool) (s : str) (c : ascii) (t : str) :
  drop_while p s = c :: t -> p c = false.
Proof.
  induction s as [| x s IH]; simpl; [discriminate |].
  destruct (p x) eqn:E; [exact IH |]. congruence.
Qed.

(** ** Substitution *)

Lemma sub_from_S (fuel : nat) (r : Re.regex) (repl : str) (pos : nat) (s : str) :
  Re.sub_from (S fuel) r repl pos s
  = match Re.match_at r pos s with
    | Some m =>
        if (Re.m_end m =? pos)%nat then
          match s with
          | [] => repl
          | c :: t => repl ++ c :: Re.sub_from fuel r repl (S pos) t
          end
        else repl ++ Re.sub_from fuel r repl (Re.m_end m) (Re.m_rest m)
    | None =>
        match s with
        | [] => []
        | c :: t => c :: Re.sub_from fuel r repl (S pos) t
        end
    end.
Proof. reflexivity. Qed.

Lemma match_at_chr (q : ascii -> bool) (pos : nat) (c : ascii) (t : str) :
  Re.match_at (Re.Chr q) pos (c :: t)
  = if q c
    then Some (Re.MObj pos (S pos) [(0, take (S pos - pos) (c :: t))] t)
    else None.
Proof. reflexivity. Qed.

Lemma succ_eqb_false (n : nat) : (S n =? n)%nat = false.
Proof. apply Nat.eqb_neq. lia. Qed.

Lemma sub_from_chr (q : ascii -> bool) (s : str) (fuel pos : nat) :
  length s < fuel ->
  Re.sub_from fuel (Re.Chr q) [] pos s = List.filter (fun c => negb (q c)) s.
Proof.
  revert fuel pos. induction s as [| c s IH]; intros fuel pos Hf;
    (destruct fuel as [| fuel]; [simpl in Hf; lia |]).
  - reflexivity.
  - cbn [length] in Hf. rewrite sub_from_S, match_at_chr.
    cbn [List.filter]. destruct (q c); cbn [negb Re.m_end Re.m_rest].
    + rewrite succ_eqb_false. apply IH. lia.
    + f_equal. apply IH. lia.
Qed.

Lemma sub_chr (q : ascii -> bool) (s : str) :
  Re.sub (Re.Chr q) [] s = List.filter (fun c => negb (q c)) s.
Proof. unfold Re.sub. apply sub_from_chr. lia. Qed.

Lemma sub_from_plus_none (p : ascii -> bool) (repl s : str) (fuel pos : nat) :
  length s < fuel ->
  forallb (fun c => negb (p c)) s = true ->
  Re.sub_from fuel (Re.plus p) repl pos s = s.
Proof.
  revert fuel pos. induction s as [| c s IH]; intros fuel pos Hf Hs;
    (destruct fuel as [| fuel]; [simpl in Hf; lia |]).
  - reflexivity.
  - cbn [length forallb] in Hf, Hs. apply andb_true_iff in Hs as [Hc Hs].
    apply negb_true_iff in Hc.
    rewrite sub_from_S.
    assert (E : Re.match_at (Re.plus p) pos (c :: s) = None).
    { unfold Re.match_at, Re.plus. cbn [Re.run]. rewrite Hc. reflexivity. }
    rewrite E. f_equal. apply IH; [lia | exact Hs].
Qed.

Lemma sub_plus_none (p : ascii -> bool) (repl s : str) :
  forallb (fun c => negb (p c)) s = true -> Re.sub (Re.plus p) repl s = s.
Proof. unfold Re.sub. apply sub_from_plus_none. lia. Qed.

(** ** The matcher consumes a prefix of the text *)

Lemma star_loop_result {R : Type} (p : ascii -> bool)
    (k : nat -> str -> option R) (pos : nat) (s : str) (x : R) :
  Re.star_loop p k pos s = Some x ->
  exists pos' s',
    k pos' s' = Some x /\ pos <= pos'
    /\ length s' + (pos' - pos) = length s.
Proof.
  revert pos. induction s as [| c s IH]; intros pos; cbn [Re.star_loop].
  - intros H. exists pos, []. split; [exact H |]. cbn. lia.
  - destruct (p c).
    + destruct (Re.star_loop p k (S pos) s) as [y |] eqn:E.
      * intros H. injection H as ->.
        destruct (IH _ E) as (pos' & s' & Hk & Hle & Hlen).
        exists pos', s'. split; [exact Hk |]. cbn [length]. lia.
      * intros H. exists pos, (c :: s). split; [exact H |]. lia.
    + intros H. exists pos, (c :: s). split; [exact H |]. lia.
Qed.

Lemma run_result {R : Type} (r : Re.regex) :
  forall (pos : nat) (s : str) (g : Re.caps)
         (k : nat -> str -> Re.caps -> option R) (x : R),
    Re.run r pos s g k = Some x ->
    exists pos' s' g',
      k pos' s' g' = Some x /\ pos <= pos'
      /\ length s' + (pos' - pos) = length s.
Proof.
  induction r as [| p | a IHa b IHb | a IHa b IHb | p | n a IHa | |];
    intros pos s g k x; cbn [Re.run].
  - intros H. exists pos, s, g. split; [exact H |]. lia.
  - destruct s as [| c s]; [discriminate |].
    destruct (p c); [| discriminate].
    intros H. exists (S pos), s, g. split; [exact H |]. cbn [length]. lia.
  - intros H. destruct (IHa _ _ _ _ _ H) as (p1 & s1 & g1 & H1 & L1 & N1).
    destruct (IHb _ _ _ _ _ H1) as (p2 & s2 & g2 & H2 & L2 & N2).
    exists p2, s2, g2. split; [exact H2 |]. lia.
  - destruct (Re.run a pos s g k) as [y |] eqn:E.
    + intros H. injection H as ->. apply (IHa _ _ _ _ _ E).
    + apply IHb.
  - intros H. destruct (star_loop_result _ _ _ _ _ H) as (p1 & s1 & H1 & L1).
    exists p1, s1, g. auto.
  - intros H. destruct (IHa _ _ _ _ _ H) as (p1 & s1 & g1 & H1 & L1).
    eauto.
  - destruct (pos =? 0)%nat; [| discriminate].
    intros H. exists pos, s, g. split; [exact H |]. lia.
  - destruct s as [| c [| c' s]]; try discriminate.
    + intros H. exists pos, [], g. split; [exact H |]. cbn. lia.
    + destruct (is_nl c); [| discriminate].
      intros H. exists pos, [c], g. split; [exact H |]. cbn. lia.
Qed.

Lemma match_at_consumes (r : Re.regex) (pos : nat) (s : str) (m : Re.mobj) :
  Re.match_at r pos s = Some m ->
  Re.m_start m = pos /\ pos <= Re.m_end m
  /\ length (Re.m_rest m) + (Re.m_end m - pos) = length s.
Proof.
  unfold Re.match_at. intros H.
  destruct (run_result _ _ _ _ _ _ H) as (p1 & s1 & g1 & H1 & L1 & N1).
  injection H1 as <-. cbn. auto.
Qed.

Lemma search_from_consumes (r : Re.regex) (s : str) (pos : nat) (m : Re.mobj) :
  Re.search_from r pos s = Some m ->
  pos <= Re.m_start m /\ Re.m_start m <= Re.m_end m
  /\ length (Re.m_rest m) + (Re.m_end m - Re.m_start m) <= length s.
Proof.
  revert pos. induction s as [| c s IH]; intros pos; cbn [Re.search_from].
  - destruct (Re.match_at r pos []) as [m' |] eqn:E; [| discriminate].
    intros H. injection H as ->.
    destruct (match_at_consumes _ _ _ _ E) as (-> & L & N). lia.
  - destruct (Re.match_at r pos (c :: s)) as [m' |] eqn:E.
    + intros H. injection H as ->.
      destruct (match_at_consumes _ _ _ _ E) as (-> & L & N). lia.
    + intros H. destruct (IH _ H) as (L1 & L2 & N). cbn [length]. lia.
Qed.

(** [finditer] and [sub] never run out of fuel: more fuel than the length of
    the text changes nothing. *)
Lemma finditer_from_enough (r : Re.regex) (n : nat) :
  forall (n' pos : nat) (s : str),
    length s < n -> length s < n' ->
    Re.finditer_from n r pos s = Re.finditer_from n' r pos s.
Proof.
  induction n as [| n IH]; intros n' pos s Hn Hn'; [lia |].
  destruct n' as [| n']; [lia |]. cbn [Re.finditer_from].
  destruct (Re.search_from r pos s) as [m |] eqn:E; [| reflexivity].
  destruct (search_from_consumes _ _ _ _ E) as (L1 & L2 & N).
  f_equal. destruct (Re.m_end m =? Re.m_start m)%nat eqn:Ee.
  - destruct (Re.m_rest m) as [| c t] eqn:Er; [reflexivity |].
    cbn [length] in N. apply IH; lia.
  - apply Nat.eqb_neq in Ee. apply IH; lia.
Qed.

Lemma sub_from_enough (r : Re.regex) (repl : str) (n : nat) :
  forall (n' pos : nat) (s : str),
    length s < n -> length s < n' ->
    Re.sub_from n r repl pos s = Re.sub_from n' r repl pos s.
Proof.
  induction n as [| n IH]; intros n' pos s Hn Hn'; [lia |].
  destruct n' as [| n']; [lia |]. rewrite !sub_from_S.
  destruct (Re.match_at r pos s) as [m |] eqn:E.
  - destruct (match_at_consumes _ _ _ _ E) as (_ & L & N).
    destruct (Re.m_end m =? pos)%nat eqn:Ee.
    + destruct s as [| c t]; [reflexivity |].
      cbn [length] in *. do 2 f_equal. apply IH; lia.
    + apply Nat.eqb_neq in Ee. f_equal. apply IH; lia.
  - destruct s as [| c t]; [reflexivity |].
    cbn [length] in *. f_equal. apply IH; lia.
Qed.

(** ** Key normalization *)

Lemma key_class_lower_norm (c : ascii) :
  key_class c = true -> is_norm_char (lower_char c) = true.
Proof. char_cases c. Qed.

Lemma norm_char_facts (c : ascii) :
  is_norm_char c = true ->
  is_space c = false /\ key_class c = true /\ lower_char c = c
  /\ is_code 58 c = false
  /\ chr_eqb "(" c = false /\ chr_eqb ")" c = false
  /\ chr_eqb "%" c = false /\ chr_eqb "/" c = false.
Proof. char_cases c. Qed.

Lemma strip_by_none (p : ascii -> bool) (s : str) :
  forallb (fun c => negb (p c)) s = true -> strip_by p s = s.
Proof.
  intros H. unfold strip_by, lstrip_by, rstrip_by.
  assert (Hd : forall t, forallb (fun c => negb (p c)) t = true ->
                         drop_while p t = t).
  { intros [| c t]; simpl; [reflexivity |]. intros Ht.
    apply andb_true_iff in Ht as [Hc _]. apply negb_true_iff in Hc.
    rewrite Hc. reflexivity. }
  rewrite (Hd s H), Hd, rev_involutive; [reflexivity |].
  rewrite forallb_rev. exact H.
Qed.

Lemma replace_char_absent (c : ascii) (new s : str) :
  has_char c s = false -> replace_char c new s = s.
Proof.
  induction s as [| x s IH]; simpl; [reflexivity |].
  intros H. apply orb_false_iff in H as [-> H]. rewrite (IH H). reflexivity.
Qed.

Lemma normalized_forall (s : str) (P : ascii -> bool) :
  (forall c, is_norm_char c = true -> P c = true) ->
  is_normalized s = true -> forallb P s = true.
Proof.
  intros HP H. apply forallb_forall. intros c Hc. apply HP.
  unfold is_normalized in H. rewrite forallb_forall in H. auto.
Qed.

Lemma normalized_has_char (s : str) (c : ascii) :
  (forall x, is_norm_char x = true -> chr_eqb c x = false) ->
  is_normalized s = true -> has_char c s = false.
Proof.
  intros Hc H. unfold has_char.
  destruct (existsb (chr_eqb c) s) eqn:E; [| reflexivity].
  apply existsb_exists in E as (x & Hx & Hcx).
  unfold is_normalized in H. rewrite forallb_forall in H.
  rewrite (Hc x (H x Hx)) in Hcx. discriminate.
Qed.

Lemma filter_all (P : ascii -> bool) (s : str) :
  forallb P s = true -> List.filter P s = s.
Proof.
  induction s as [| c s IH]; simpl; [reflexivity |].
  intros H. apply andb_true_iff in H as [-> H]. rewrite (IH H). reflexivity.
Qed.

Lemma normalize_key_normalized (k : str) :
  is_normalized (normalize_key k) = true.
Proof.
  unfold normalize_key, is_normalized, lower. rewrite sub_chr.
  apply forallb_forall. intros c Hc.
  apply in_map_iff in Hc as (x & <- & Hx).
  apply filter_In in Hx as [_ Hx].
  apply key_class_lower_norm. rewrite negb_involutive in Hx. exact Hx.
Qed.

Lemma normalize_key_fixes_normalized (s : str) :
  is_normalized s = true -> normalize_key s = s.
Proof.
  intros H. unfold normalize_key.
  assert (E1 : strip s = s).
  { apply strip_by_none. apply (normalized_forall s); [| exact H].
    intros c Hc. destruct (norm_char_facts c Hc) as (-> & _). reflexivity. }
  rewrite E1.
  rewrite (replace_char_absent "(" "" s)
    by (apply normalized_has_char; [intros x Hx; apply (norm_char_facts x Hx) | exact H]).
  rewrite (replace_char_absent ")" "" s)
    by (apply normalized_has_char; [intros x Hx; apply (norm_char_facts x Hx) | exact H]).
  rewrite (replace_char_absent "%" "pct" s)
    by (apply normalized_has_char; [intros x Hx; apply (norm_char_facts x Hx) | exact H]).
  rewrite (replace_char_absent "/" "_" s)
    by (apply normalized_has_char; [intros x Hx; apply (norm_char_facts x Hx) | exact H]).
  rewrite sub_plus_none.
  2:{ apply (normalized_forall s); [| exact H]. intros c Hc.
      destruct (norm_char_facts c Hc) as (-> & _ & _ & -> & _). reflexivity. }
  rewrite sub_chr, filter_all.
  2:{ apply (normalized_forall s); [| exact H]. intros c Hc.
      destruct (norm_char_facts c Hc) as (_ & -> & _). reflexivity. }
  unfold lower. rewrite <- (map_id s) at 2. apply map_ext_in.
  intros c Hc. unfold is_normalized in H. rewrite forallb_forall in H.
  apply (norm_char_facts c (H c Hc)).
Qed.

(** C9.  Key normalization is idempotent, and a string already in
    normalized form (only lower-case letters, digits, [_], [.] and [-]) is
    returned unchanged. *)
Theorem normalize_key_idempotent :
  (forall k : str, normalize_key (normalize_key k) = normalize_key k)
  /\ (forall k : str, is_normalized (normalize_key k) = true)
  /\ (forall s : str, is_normalized s = true -> normalize_key s = s).
Proof.
  split; [| split].
  - intros k. apply normalize_key_fixes_normalized.
    apply normalize_key_normalized.
  - exact normalize_key_normalized.
  - exact normalize_key_fixes_normalized.
Qed.

Lemma normalize_key_idempotent_witness :
  is_normalized "lat_usec_99.50th" = true
  /\ normalize_key "lat_usec_99.50th" = "lat_usec_99.50th"
  /\ normalize_key (normalize_key " BW (KiB/s) %") = normalize_key " BW (KiB/s) %".
Proof.
  split; [reflexivity |]. split.
  - apply (proj2 (proj2 normalize_key_idempotent) "lat_usec_99.50th").
    reflexivity.
  - apply (proj1 normalize_key_idempotent " BW (KiB/s) %").
Defined.

(** ** The bandwidth pattern *)

Lemma run_seq {R} (a b : Re.regex) (pos : nat) (s : str) (g : Re.caps)
    (k : nat -> str -> Re.caps -> option R) :
  Re.run (Re.Seq a b) pos s g k
  = Re.run a pos s g (fun pos' s' g' => Re.run b pos' s' g' k).
Proof. reflexivity. Qed.

Lemma run_star {R} (p : ascii -> bool) (pos : nat) (s : str) (g : Re.caps)
    (k : nat -> str -> Re.caps -> option R) :
  Re.run (Re.Star p) pos s g k
  = Re.star_loop p (fun pos' s' => k pos' s' g) pos s.
Proof. reflexivity. Qed.

Lemma run_group_plus {R} (n : nat) (p : ascii -> bool) (pos : nat) (s : str)
    (g : Re.caps) (k : nat -> str -> Re.caps -> option R) :
  Re.run (Re.Group n (Re.plus p)) pos s g k
  = match s with
    | c :: s1 =>
        if p c then
          Re.star_loop p
            (fun pos' s' => k pos' s' ((n, take (pos' - pos) s) :: g))
            (S pos) s1
        else None
    | [] => None
    end.
Proof. destruct s; reflexivity. Qed.

Lemma unit_classes (c : ascii) :
  (is_unit_prefix c = true -> is_unit_i c = false /\ is_unit_b c = false)
  /\ (is_unit_i c = true -> is_unit_b c = false)
  /\ (is_numch c = true ->
      is_unit_prefix c = false /\ is_unit_i c = false /\ is_unit_b c = false)
  /\ (is_space c = true ->
      is_unit_prefix c = false /\ is_unit_i c = false /\ is_unit_b c = false).
Proof. char_cases c. Qed.

Lemma sub_1 n : S n - n = 1. Proof. lia. Qed.
Lemma sub_2 n : S (S n) - n = 2. Proof. lia. Qed.
Lemma sub_3 n : S (S (S n)) - n = 3. Proof. lia. Qed.
Lemma add_1 n : n + 1 = S n. Proof. lia. Qed.
Lemma add_2 n : n + 2 = S (S n). Proof. lia. Qed.
Lemma add_3 n : n + 3 = S (S (S n)). Proof. lia. Qed.

Lemma run_unit {R} (pos : nat) (s : str) (g : Re.caps)
    (k : nat -> str -> Re.caps -> option R) :
  Re.run unit_re pos s g k
  = match scan_unit s with
    | Some (u, rest) => k (pos + length u) rest ((2, u) :: g)
    | None => None
    end.
Proof.
  unfold unit_re, scan_unit, scan_opt. cbn [Re.seqs Re.run Re.opt].
  fold is_unit_prefix is_unit_i is_unit_b.
  destruct s as [| c1 s]; [reflexivity |].
  destruct (unit_classes c1) as (P1 & I1 & _).
  destruct (is_unit_prefix c1) eqn:E1.
  - destruct (P1 eq_refl) as [Hi1 Hb1]. rewrite Hi1, Hb1.
    destruct s as [| c2 s].
    + reflexivity.
    + destruct (unit_classes c2) as (_ & I2 & _).
      destruct (is_unit_i c2) eqn:E2.
      * rewrite (I2 eq_refl).
        destruct s as [| c3 s]; [reflexivity |].
        destruct (is_unit_b c3); [| reflexivity].
        cbn [length app]. rewrite sub_3, add_3. cbn [take].
        destruct (k _ _ _); reflexivity.
      * destruct (is_unit_b c2); [| reflexivity].
        cbn [length app]. rewrite sub_2, add_2. cbn [take].
        destruct (k _ _ _); reflexivity.
  - destruct (is_unit_i c1) eqn:E2.
    + rewrite (I1 eq_refl).
      destruct s as [| c2 s]; [reflexivity |].
      destruct (is_unit_b c2); [| reflexivity].
      cbn [length app]. rewrite sub_2, add_2. cbn [take].
      destruct (k _ _ _); reflexivity.
    + destruct (is_unit_b c1); [| reflexivity].
      cbn [length app]. rewrite sub_1, add_1. cbn [take]. reflexivity.
Qed.

Lemma run_per_second {R} (pos : nat) (s : str) (g : Re.caps)
    (k : nat -> str -> Re.caps -> option R) :
  Re.run (Re.liti "/s") pos s g k
  = match scan_per_second s with
    | Some rest => k (pos + 2) rest g
    | None => None
    end.
Proof.
  unfold scan_per_second. cbn [Re.liti Re.run].
  change (lower_char "/") with "/"%char.
  change (lower_char "s") with "s"%char.
  destruct s as [| c1 [| c2 rest]]; try reflexivity.
  - destruct (chr_eqb "/" (lower_char c1)); reflexivity.
  - destruct (chr_eqb "/" (lower_char c1)); [| reflexivity].
    destruct (chr_eqb "s" (lower_char c2)); [| reflexivity].
    cbn [andb]. rewrite add_2. reflexivity.
Qed.

Lemma size_pat_unfold :
  size_pat
  = Re.Seq (Re.Group 1 (Re.plus is_numch))
      (Re.Seq (Re.Star is_space) (Re.Seq unit_re (Re.liti "/s"))).
Proof. reflexivity. Qed.

Lemma take_take_while (p : ascii -> bool) (s : str) :
  take (length (take_while p s)) s = take_while p s.
Proof.
  induction s as [| c s IH]; cbn [take_while]; [reflexivity |].
  destruct (p c); [| reflexivity]. cbn [length take]. rewrite IH. reflexivity.
Qed.

(** The tail of the pattern after the number: white space, unit, [/s]. *)
Lemma run_size_tail {R} (pos : nat) (s : str) (g : Re.caps)
    (k : nat -> str -> Re.caps -> option R) :
  Re.run (Re.Seq (Re.Star is_space) (Re.Seq unit_re (Re.liti "/s")))
    pos s g k
  = match scan_unit (drop_while is_space s) with
    | Some (u, r3) =>
        match scan_per_second r3 with
        | Some rest =>
            k (pos + length (take_while is_space s) + length u + 2) rest
              ((2, u) :: g)
        | None => None
        end
    | None => None
    end.
Proof.
  rewrite run_seq, run_star, star_loop_only_longest.
  - rewrite run_seq, run_unit.
    destruct (scan_unit (drop_while is_space s)) as [[u r3] |]; [| reflexivity].
    apply run_per_second.
  - intros c t pos' Hc. rewrite run_seq, run_unit.
    destruct (unit_classes c) as (_ & _ & _ & Hs).
    destruct (Hs Hc) as (H1 & H2 & H3).
    unfold scan_unit, scan_opt. rewrite H1, H2, H3. reflexivity.
Qed.

Lemma run_size_pat {R} (pos : nat) (s : str)
    (k : nat -> str -> Re.caps -> option R) :
  Re.run size_pat pos s [] k
  = match scan_rate s with
    | Some (num, ws, u, rest) =>
        k (pos + length num + length ws + length u + 2) rest
          [(2, u); (1, num)]
    | None => None
    end.
Proof.
  rewrite size_pat_unfold, run_seq, run_group_plus. unfold scan_rate.
  destruct s as [| c s1]; [reflexivity |].
  cbn [take_while drop_while].
  destruct (is_numch c) eqn:Ec; [| reflexivity].
  rewrite star_loop_only_longest.
  - rewrite run_size_tail.
    destruct (scan_unit _) as [[u r3] |]; [| reflexivity].
    destruct (scan_per_second r3) as [rest |]; [| reflexivity].
    cbn [length].
    replace (S pos + length (take_while is_numch s1) - pos)
      with (S (length (take_while is_numch s1))) by lia.
    cbn [take]. rewrite take_take_while.
    replace (S pos + length (take_while is_numch s1))
      with (pos + S (length (take_while is_numch s1))) by lia.
    reflexivity.
  - intros c' t pos' Hc. rewrite run_size_tail.
    destruct (unit_classes c') as (_ & _ & Hn & _).
    destruct (Hn Hc) as (H1 & H2 & H3).
    cbn [drop_while]. rewrite (numch_not_space c' Hc).
    unfold scan_unit, scan_opt. rewrite H1, H2, H3. reflexivity.
Qed.

(** ** Searching for the first rate token *)

Lemma search_from_size_pat (val : str) (pos : nat) :
  match Re.search_from size_pat pos val, first_rate val with
  | Some m, Some (num, _, u, _) => Re.group m 1 = num /\ Re.group m 2 = u
  | None, None => True
  | _, _ => False
  end.
Proof.
  revert pos. induction val as [| c val IH]; intros pos.
  - reflexivity.
  - cbn [Re.search_from first_rate]. unfold Re.match_at.
    rewrite run_size_pat.
    destruct (scan_rate (c :: val)) as [[[[num ws] u] rest] |].
    + split; reflexivity.
    + apply IH.
Qed.

(** ** Signs of rounded results *)

Lemma shr_1_nonneg (mrs : shr_record) :
  (0 <= shr_m mrs)%Z -> (0 <= shr_m (shr_1 mrs))%Z.
Proof.
  destruct mrs as [m r s]. cbn [shr_m]. intros H.
  destruct m as [| [p | p |] | p]; cbn; lia.
Qed.

Lemma iter_shr_1_nonneg (p : positive) (mrs : shr_record) :
  (0 <= shr_m mrs)%Z -> (0 <= shr_m (SpecFloat.iter_pos shr_1 p mrs))%Z.
Proof.
  revert mrs. induction p as [p IH | p IH |]; intros mrs H; cbn [SpecFloat.iter_pos].
  - apply IH, IH, shr_1_nonneg, H.
  - apply IH, IH, H.
  - apply shr_1_nonneg, H.
Qed.

Lemma shr_fexp_nonneg (m e : Z) (l : location) :
  (0 <= m)%Z -> (0 <= shr_m (fst (shr_fexp prec emax m e l)))%Z.
Proof.
  intros H. unfold shr_fexp, shr.
  assert (H0 : (0 <= shr_m (shr_record_of_loc m l))%Z).
  { destruct l as [| []]; exact H. }
  destruct (_ - e)%Z; cbn [fst]; try exact H0.
  apply iter_shr_1_nonneg, H0.
Qed.

Lemma round_nearest_even_nonneg (m : Z) (l : location) :
  (0 <= m)%Z -> (0 <= round_nearest_even m l)%Z.
Proof.
  intros H. unfold round_nearest_even.
  destruct l as [| []]; try destruct (Z.even m); lia.
Qed.

Lemma binary_round_aux_sign (s : bool) (m e : Z) (l : location) :
  (0 <= m)%Z -> has_sign s (binary_round_aux prec emax s m e l).
Proof.
  intros H. unfold binary_round_aux.
  pose proof (shr_fexp_nonneg m e l H) as H1.
  destruct (shr_fexp prec emax m e l) as [mrs' e']. cbn [fst] in H1.
  pose proof (shr_fexp_nonneg _ e' loc_Exact
                (round_nearest_even_nonneg _ (loc_of_shr_record mrs') H1)) as H2.
  destruct (shr_fexp prec emax _ e' loc_Exact) as [mrs'' e'']. cbn [fst] in H2.
  destruct (shr_m mrs'') as [| p | p]; [reflexivity | | lia].
  destruct (e'' <=? emax - prec)%Z; reflexivity.
Qed.

Lemma binary_round_sign (s : bool) (m : positive) (e : Z) :
  has_sign s (binary_round prec emax s m e).
Proof.
  unfold binary_round. destruct (shl_align _ _ _) as [mz ez].
  apply binary_round_aux_sign. lia.
Qed.

Lemma float_of_decimal_sign (neg : bool) (mant e10 : Z) :
  has_sign neg (float_of_decimal neg mant e10).
Proof.
  unfold float_of_decimal. destruct mant as [| m | m]; try reflexivity.
  destruct (0 <=? e10)%Z eqn:E0; [apply binary_round_sign |].
  apply Z.leb_gt in E0. unfold SFdiv_core_binary.
  set (m' := match _ with Z.pos _ => _ | _ => _ end).
  assert (Hm' : (0 <= m')%Z).
  { subst m'. destruct (_ - _ - _)%Z; try lia. rewrite Z.shiftl_nonneg. lia. }
  pose proof (Z.pow_pos_nonneg 10 (- e10)) as Hp.
  destruct (Z.div_eucl m' (10 ^ (- e10))) as [q r] eqn:E.
  apply binary_round_aux_sign.
  assert (Hq : q = (m' / 10 ^ (- e10))%Z).
  { unfold Z.div. rewrite E. reflexivity. }
  rewrite Hq. apply Z.div_pos; lia.
Qed.

Lemma has_sign_nonneg (x : float) : has_sign false x <-> is_nonneg x = true.
Proof. destruct x as [[] | [] | | [] m e]; cbn; intuition congruence. Qed.

Lemma fmul_nonneg (x : float) (m : positive) (e : Z) :
  is_nonneg x = true -> is_nonneg (fmul x (S754_finite false m e)) = true.
Proof.
  destruct x as [[] | [] | | [] mx ex]; try discriminate; intros _;
    try reflexivity.
  apply has_sign_nonneg. unfold fmul, SFmul. cbn [xorb].
  apply binary_round_aux_sign. lia.
Qed.

Lemma fquot_nonneg (x : float) (m : positive) (e : Z) :
  is_nonneg x = true -> is_nonneg (fquot x (S754_finite false m e)) = true.
Proof.
  destruct x as [[] | [] | | [] mx ex]; try discriminate; intros _;
    try reflexivity.
  apply has_sign_nonneg. unfold fquot, SFdiv. cbn [xorb].
  unfold SFdiv_core_binary.
  set (m' := match _ with Z.pos _ => _ | _ => _ end).
  assert (Hm' : (0 <= m')%Z).
  { subst m'. destruct (_ - _ - _)%Z; try lia. rewrite Z.shiftl_nonneg. lia. }
  destruct (Z.div_eucl m' (Z.pos m)) as [q r] eqn:E.
  apply binary_round_aux_sign.
  assert (Hq : q = (m' / Z.pos m)%Z).
  { unfold Z.div. rewrite E. reflexivity. }
  rewrite Hq. apply Z.div_pos; lia.
Qed.

Lemma nonneg_fle (x : float) : is_nonneg x = true -> fle (float_of_Z 0) x = true.
Proof. destruct x as [[] | [] | | [] m e]; try discriminate; reflexivity. Qed.

(** ** [float] on the number tokens of the two patterns *)

Lemma numch_cases (c : ascii) :
  is_numch c = true ->
  is_code 45 c = false /\ is_code 43 c = false
  /\ is_underscore c = false /\ float_space c = false
  /\ to_ascii_space c = c
  /\ lower_char c <> "i"%char /\ lower_char c <> "n"%char
  /\ (is_digit c = true /\ is_point c = false
      \/ is_digit c = false /\ is_point c = true
         /\ is_code 101 c = false /\ is_code 69 c = false).
Proof. char_cases c. Qed.

Lemma forallb_drop_while (p q : ascii -> bool) (s : str) :
  forallb p s = true -> forallb p (drop_while q s) = true.
Proof.
  induction s as [| c s IH]; cbn [drop_while forallb]; [reflexivity |].
  intros H. apply andb_true_iff in H as [Hc Hs].
  destruct (q c); [auto |]. cbn [forallb]. rewrite Hc, Hs. reflexivity.
Qed.

Lemma existsb_take_while (p : ascii -> bool) (s : str) :
  existsb p (take_while p s) = nonempty (take_while p s).
Proof.
  destruct s as [| c s]; cbn [take_while]; [reflexivity |].
  destruct (p c) eqn:E; [| reflexivity]. cbn [existsb nonempty].
  rewrite E. reflexivity.
Qed.

Lemma digits_no_point (s : str) :
  List.filter is_point (take_while is_digit s) = [].
Proof.
  induction s as [| c s IH]; cbn [take_while]; [reflexivity |].
  destruct (is_digit c) eqn:E; [| reflexivity]. cbn [List.filter].
  assert (Hp : is_point c = false) by (revert E; char_cases c).
  rewrite Hp. exact IH.
Qed.

(** The text a number token leaves after its leading digits is empty or
    starts with a point. *)
Lemma number_tail (s : str) :
  forallb is_numch s = true ->
  drop_while is_digit s = []
  \/ exists c r, drop_while is_digit s = c :: r /\ is_digit c = false
                 /\ is_point c = true /\ is_code 101 c = false
                 /\ is_code 69 c = false /\ forallb is_numch r = true.
Proof.
  intros H. pose proof (forallb_drop_while is_numch is_digit s H) as Hd.
  destruct (drop_while is_digit s) as [| c r] eqn:E; [left; reflexivity |].
  right. exists c, r. cbn [forallb] in Hd.
  apply andb_true_iff in Hd as [Hc Hr].
  pose proof (drop_while_head _ _ _ _ E) as Hnd.
  destruct (numch_cases c Hc)
    as (_ & _ & _ & _ & _ & _ & _ & [[Hdg _] | (_ & Hp & He1 & He2)]);
    [congruence |].
  auto 10.
Qed.

Lemma digit_split (s : str) :
  existsb is_digit s
  = nonempty (take_while is_digit s) || existsb is_digit (drop_while is_digit s)
  /\ List.filter is_point s = List.filter is_point (drop_while is_digit s).
Proof.
  pose proof (take_drop_while is_digit s) as E. split.
  - rewrite <- E at 1. rewrite existsb_app, existsb_take_while. reflexivity.
  - rewrite <- E at 1. rewrite List.filter_app, digits_no_point. reflexivity.
Qed.

(** On a number token the decimal reader succeeds, with a value that is not
    negative, exactly when the token is well formed. *)
Lemma decimal_float_number_token (num : str) :
  forallb is_numch num = true ->
  if well_formed_number num
  then exists q, decimal_float false num = Ok q /\ is_nonneg q = true
  else decimal_float false num = Raise ValueError.
Proof.
  intros Hn. unfold decimal_float, well_formed_number.
  destruct (digit_split num) as [-> ->].
  destruct (number_tail num Hn) as [-> | (c & r & -> & Hcd & Hcp & He1 & He2 & Hr)].
  - cbn [existsb List.filter length nonempty exponent]. rewrite !orb_false_r.
    rewrite app_nil_r. cbn [Nat.leb]. rewrite andb_true_r.
    destruct (nonempty (take_while is_digit num)); [| reflexivity].
    eexists. split; [reflexivity |].
    apply has_sign_nonneg, float_of_decimal_sign.
  - change (is_code 46 c) with (is_point c). rewrite Hcp.
    cbn [existsb List.filter]. rewrite Hcd, Hcp. cbn [orb length].
    destruct (digit_split r) as [-> ->].
    destruct (number_tail r Hr) as [-> | (c2 & r2 & -> & Hd2 & Hp2 & H21 & H22 & Hr2)].
    + cbn [existsb List.filter length exponent]. rewrite !orb_false_r.
      cbn [Nat.leb]. rewrite andb_true_r.
      destruct (nonempty (take_while is_digit num) || nonempty (take_while is_digit r));
        [| reflexivity].
      eexists. split; [reflexivity |].
      apply has_sign_nonneg, float_of_decimal_sign.
    + cbn [List.filter length exponent]. rewrite Hp2. cbn [length Nat.leb].
      rewrite andb_false_r. rewrite H21, H22. cbn [orb].
      destruct (_ || _); reflexivity.
Qed.

(** What [float] does before it reads the digits leaves a number token as
    it is. *)
Lemma py_float_on_token (num : str) :
  forallb is_numch num = true -> py_float num = decimal_float false num.
Proof.
  intros Hn. unfold py_float.
  assert (Hmap : List.map to_ascii_space num = num).
  { induction num as [| c t IH]; [reflexivity |]. cbn [forallb] in Hn.
    apply andb_true_iff in Hn as [Hc Ht]. cbn [List.map].
    rewrite (IH Ht). f_equal. apply (numch_cases c Hc). }
  assert (Hstrip : strip_by float_space num = num).
  { apply strip_by_none. apply forallb_forall. intros c Hc.
    rewrite forallb_forall in Hn.
    destruct (numch_cases c (Hn c Hc)) as (_ & _ & _ & -> & _). reflexivity. }
  assert (Hus : forall b, underscores_ok b num = true).
  { clear Hmap Hstrip. induction num as [| c t IH]; intros b; [reflexivity |].
    cbn [forallb] in Hn. apply andb_true_iff in Hn as [Hc Ht].
    cbn [underscores_ok].
    destruct (numch_cases c Hc) as (_ & _ & -> & _). apply (IH Ht). }
  assert (Hfil : List.filter (fun c => negb (is_underscore c)) num = num).
  { apply filter_all. apply forallb_forall. intros c Hc.
    rewrite forallb_forall in Hn.
    destruct (numch_cases c (Hn c Hc)) as (_ & _ & -> & _). reflexivity. }
  rewrite Hmap, Hstrip, Hus, Hfil.
  assert (Hsign : split_sign num = (false, num)).
  { destruct num as [| c t]; [reflexivity |]. cbn [forallb] in Hn.
    apply andb_true_iff in Hn as [Hc _].
    destruct (numch_cases c Hc) as (H1 & H2 & _).
    unfold split_sign. rewrite H1, H2. reflexivity. }
  rewrite Hsign.
  assert (Hspecial : special_float false num = None).
  { unfold special_float, str_eqb.
    destruct num as [| c t]; [reflexivity |]. cbn [forallb] in Hn.
    apply andb_true_iff in Hn as [Hc _].
    destruct (numch_cases c Hc) as (_ & _ & _ & _ & _ & Hi & Hnn & _).
    cbn [lower List.map].
    rewrite !bool_decide_eq_false_2; [reflexivity | | |];
      intros E; injection E as E _; congruence. }
  rewrite Hspecial. reflexivity.
Qed.

(** On a number token [float] succeeds, with a value that is not negative,
    exactly when the token is well formed; otherwise it raises. *)
Lemma py_float_number_token (num : str) :
  forallb is_numch num = true ->
  if well_formed_number num
  then exists q, py_float num = Ok q /\ is_nonneg q = true
  else py_float num = Raise ValueError.
Proof.
  intros Hn. rewrite (py_float_on_token num Hn).
  apply decimal_float_number_token, Hn.
Qed.

(** ** The bandwidth rule on the first rate token *)

Lemma bw_to_gbps_scan (val : str) :
  bw_to_gbps val
  = match first_rate val with
    | Some (num, _, u, _) =>
        let* q := py_float num in
        Ok (Some (fquot (fmul q (unit_factor (lower u))) (float_of_Z GB_DEC)))
    | None => Ok None
    end.
Proof.
  unfold bw_to_gbps, Re.search.
  pose proof (search_from_size_pat val 0) as H.
  destruct (Re.search_from size_pat 0 val) as [m |];
    destruct (first_rate val) as [[[[num ws] u] rest] |];
    try contradiction; [| reflexivity].
  destruct H as [-> ->]. destruct (py_float num); reflexivity.
Qed.

Lemma bw_to_gbps_value (val num ws u rest : str) (q f : float) :
  first_rate val = Some (num, ws, u, rest) ->
  py_float num = Ok q -> unit_factor (lower u) = f ->
  bw_to_gbps val = Ok (Some (fquot (fmul q f) (float_of_Z GB_DEC))).
Proof.
  intros H Hq <-. rewrite bw_to_gbps_scan, H, Hq. reflexivity.
Qed.

(** ** Rate tokens and the scanner *)

Lemma take_while_app_stop (p : ascii -> bool) (a b : str) :
  forallb p a = true ->
  (forall c t, b = c :: t -> p c = false) ->
  take_while p (a ++ b) = a /\ drop_while p (a ++ b) = b.
Proof.
  intros Ha Hb. induction a as [| x a IH]; cbn [app take_while drop_while].
  - destruct b as [| c t]; [split; reflexivity |].
    cbn [take_while drop_while]. rewrite (Hb c t eq_refl). split; reflexivity.
  - cbn [forallb] in Ha. apply andb_true_iff in Ha as [-> Ha].
    destruct (IH Ha) as [-> ->]. split; reflexivity.
Qed.

Lemma unit_classes_rev (c : ascii) :
  (is_unit_b c = true -> is_unit_prefix c = false /\ is_unit_i c = false)
  /\ (is_unit_i c = true -> is_unit_prefix c = false)
  /\ (is_unit_prefix c = true \/ is_unit_i c = true \/ is_unit_b c = true ->
      is_numch c = false /\ is_space c = false).
Proof. char_cases c. Qed.

Lemma scan_unit_form (s u rest : str) :
  scan_unit s = Some (u, rest) <-> s = u ++ rest /\ unit_form u = true.
Proof.
  unfold scan_unit, scan_opt, unit_form. split.
  - intros H. destruct s as [| c1 s]; [discriminate |].
    destruct (is_unit_prefix c1) eqn:E1.
    + destruct s as [| c2 s]; [discriminate |].
      destruct (is_unit_i c2) eqn:E2.
      * destruct s as [| c3 s]; [discriminate |].
        destruct (is_unit_b c3) eqn:E3; [| discriminate].
        injection H as <- <-. cbn [app]. rewrite E1, E2, E3. auto.
      * destruct (is_unit_b c2) eqn:E3; [| discriminate].
        injection H as <- <-. cbn [app]. rewrite E1, E3. auto.
    + destruct (is_unit_i c1) eqn:E2.
      * destruct s as [| c2 s]; [discriminate |].
        destruct (is_unit_b c2) eqn:E3; [| discriminate].
        injection H as <- <-. cbn [app]. rewrite E1, E2, E3. auto.
      * destruct (is_unit_b c1) eqn:E3; [| discriminate].
        injection H as <- <-. cbn [app]. rewrite E3. auto.
  - intros [-> H].
    destruct u as [| a [| b [| c [| d u]]]]; try discriminate; cbn [app].
    + destruct (unit_classes_rev a) as (Hb & _). destruct (Hb H) as [-> ->].
      rewrite H. reflexivity.
    + apply andb_true_iff in H as [Ha Hb].
      destruct (unit_classes_rev b) as (Hb' & _).
      destruct (Hb' Hb) as [Hb1 Hb2].
      destruct (is_unit_prefix a) eqn:E1.
      * rewrite Hb2, Hb. reflexivity.
      * cbn [orb] in Ha. rewrite Ha, Hb. reflexivity.
    + apply andb_true_iff in H as [H Hc].
      apply andb_true_iff in H as [Ha Hb].
      rewrite Ha, Hb, Hc. reflexivity.
Qed.

Lemma scan_per_second_spec (s rest : str) :
  scan_per_second s = Some rest <-> exists sl, s = sl ++ rest /\ lower sl = "/s".
Proof.
  unfold scan_per_second. split.
  - destruct s as [| c1 [| c2 r]]; try discriminate.
    destruct (chr_eqb "/" (lower_char c1)) eqn:E1; [| discriminate].
    destruct (chr_eqb "s" (lower_char c2)) eqn:E2; [| discriminate].
    intros H. injection H as <-. exists [c1; c2]. split; [reflexivity |].
    apply chr_eqb_eq in E1, E2. cbn. rewrite <- E1, <- E2. reflexivity.
  - intros (sl & -> & H).
    destruct sl as [| c1 [| c2 [| c3 sl]]]; try discriminate.
    cbn in H. injection H as H1 H2. cbn [app]. rewrite H1, H2. reflexivity.
Qed.

Lemma unit_form_head (u : str) :
  unit_form u = true ->
  exists c t, u = c :: t /\ is_numch c = false /\ is_space c = false.
Proof.
  unfold unit_form. intros H.
  destruct u as [| a [| b [| c [| d u]]]]; try discriminate;
    exists a; eexists; (split; [reflexivity |]);
    apply (unit_classes_rev a).
  - auto.
  - apply andb_true_iff in H as [H _]. apply orb_true_iff in H. tauto.
  - apply andb_true_iff in H as [H _]. apply andb_true_iff in H as [H _]. auto.
Qed.

Lemma scan_rate_token (s num ws u rest : str) :
  scan_rate s = Some (num, ws, u, rest) <-> rate_token s num ws u rest.
Proof.
  unfold scan_rate, rate_token. split.
  - intros H.
    pose proof (take_drop_while is_numch s) as Es.
    pose proof (take_while_all is_numch s) as Hn.
    destruct (take_while is_numch s) as [| c n] eqn:En; [discriminate |].
    pose proof (take_drop_while is_space (drop_while is_numch s)) as Ew.
    pose proof (take_while_all is_space (drop_while is_numch s)) as Hw.
    destruct (scan_unit _) as [[u' r3] |] eqn:Eu; [| discriminate].
    destruct (scan_per_second r3) as [rest' |] eqn:Er; [| discriminate].
    injection H as <- <- <- <-.
    apply scan_unit_form in Eu as [Eu Hu].
    apply scan_per_second_spec in Er as (sl & -> & Hsl).
    split; [| repeat split; auto; discriminate].
    exists sl. split; [| exact Hsl].
    rewrite <- Es at 1. f_equal. rewrite <- Ew at 1. f_equal. exact Eu.
  - intros ((sl & -> & Hsl) & Hne & Hn & Hw & Hu).
    destruct (unit_form_head u Hu) as (c & t & -> & Hc1 & Hc2).
    destruct (take_while_app_stop is_numch num (ws ++ (c :: t) ++ sl ++ rest) Hn)
      as [-> ->].
    { intros x y E. destruct ws as [| w ws'].
      - cbn in E. injection E as <- <-. exact Hc1.
      - cbn in E. injection E as <- <-. cbn in Hw.
        apply andb_true_iff in Hw as [Hw _].
        destruct (is_numch w) eqn:Ex; [| reflexivity].
        rewrite (numch_not_space w Ex) in Hw. discriminate. }
    destruct num as [| n0 num']; [congruence |].
    destruct (take_while_app_stop is_space ws ((c :: t) ++ sl ++ rest) Hw)
      as [-> ->].
    { intros x y E. cbn in E. injection E as <- <-. exact Hc2. }
    assert (Eu : scan_unit ((c :: t) ++ sl ++ rest) = Some (c :: t, sl ++ rest)).
    { apply scan_unit_form. auto. }
    rewrite Eu.
    assert (Er : scan_per_second (sl ++ rest) = Some rest).
    { apply scan_per_second_spec. eauto. }
    rewrite Er. reflexivity.
Qed.

Lemma first_rate_first (pre s : str) (r : str * str * str * str) :
  scan_rate s = Some r ->
  (forall pre1 s1, pre ++ s = pre1 ++ s1 -> length pre1 < length pre ->
                   scan_rate s1 = None) ->
  first_rate (pre ++ s) = Some r.
Proof.
  intros Hs. induction pre as [| c pre IH]; intros Hfirst.
  - cbn [app]. destruct s; cbn [first_rate]; rewrite Hs; reflexivity.
  - cbn [app first_rate].
    rewrite (Hfirst [] (c :: pre ++ s)) by (try reflexivity; cbn; lia).
    apply IH. intros pre1 s1 E Hlen.
    apply (Hfirst (c :: pre1) s1); [cbn; congruence | cbn; lia].
Qed.

Lemma first_rate_none (val : str) :
  first_rate val = None <-> forall pre s, val = pre ++ s -> scan_rate s = None.
Proof.
  induction val as [| c val IH].
  - cbn [first_rate]. split.
    + intros H pre s E. symmetry in E. apply app_eq_nil in E as [_ ->].
      destruct (scan_rate []); congruence.
    + intros H. rewrite (H [] []) by reflexivity. reflexivity.
  - cbn [first_rate]. split.
    + intros H pre s E. destruct (scan_rate (c :: val)) eqn:E1; [discriminate |].
      destruct pre as [| x pre]; cbn in E; [subst; exact E1 |].
      injection E as <- E. apply (proj1 IH H pre s E).
    + intros H. rewrite (H [] (c :: val)) by reflexivity.
      apply IH. intros pre s E. apply (H (c :: pre) s). cbn. congruence.
Qed.

Lemma unit_factor_multiplier (u : str) (f : Z) :
  unit_multiplier u = Some f -> unit_factor u = float_of_Z f.
Proof.
  unfold unit_multiplier, unit_table. cbn [List.find fst snd].
  unfold str_eqb.
  repeat (case_bool_decide;
          [subst u; cbn;
           let E := fresh "E" in intros E; injection E as <-; reflexivity |]).
  cbn. discriminate.
Qed.

(** C2 (amended).  [bw_to_gbps] reads the first rate token of the string:
    a number, optional white space, a unit of the shape [[KMGTP]?i?B] in
    either case, and [/s].  When the number of that token is well formed and
    its unit is one of KiB, MiB, GiB, TiB (multiplier 1024^n), KB, MB, GB,
    TB (multiplier 1000^n) or a bare B (multiplier 1), the result is
    number times multiplier over 1e9; so [165MiB/s] gives 165 * 1024^2 / 1e9
    (0.1730) and [103MB/s] gives 0.103, and only the first of several
    readings counts.  A string that has no rate token at any position gives
    no value. *)
Theorem bw_to_gbps_first_token :
  (forall (val pre s num ws unit rest : str) (f : Z),
      val = pre ++ s ->
      rate_token s num ws unit rest ->
      (forall pre1 s1 n w u r,
          val = pre1 ++ s1 -> length pre1 < length pre ->
          ~ rate_token s1 n w u r) ->
      well_formed_number num = true ->
      unit_multiplier (lower unit) = Some f ->
      exists q,
        py_float num = Ok q
        /\ bw_to_gbps val
           = Ok (Some (fquot (fmul q (float_of_Z f)) (float_of_Z GB_DEC))))
  /\ (forall val : str,
         (forall pre s n w u r, val = pre ++ s -> ~ rate_token s n w u r) ->
         bw_to_gbps val = Ok None)
  /\ bw_to_gbps "165MiB/s"
     = Ok (Some (fquot (fmul (float_of_Z 165) (float_of_Z (1024 ^ 2)))
                   (float_of_Z GB_DEC)))
  /\ (exists g, bw_to_gbps "165MiB/s" = Ok (Some g)
                /\ fmt_fixed 4 g = "0.1730")
  /\ (exists g, bw_to_gbps "103MB/s" = Ok (Some g)
                /\ py_float "0.103" = Ok g /\ fmt_fixed 4 g = "0.1030")
  /\ bw_to_gbps "5486MiB/s (5752MB/s)"
     = Ok (Some (fquot (fmul (float_of_Z 5486) (float_of_Z (1024 ^ 2)))
                   (float_of_Z GB_DEC))).
Proof.
  split; [| split].
  - intros val pre s num ws unit rest f -> Htok Hfirst Hwf Hf.
    pose proof Htok as (_ & _ & Hn & _).
    pose proof (py_float_number_token num Hn) as Hq. rewrite Hwf in Hq.
    destruct Hq as (q & Hq & _). exists q. split; [exact Hq |].
    apply (bw_to_gbps_value _ num ws unit rest); auto.
    + apply first_rate_first; [apply scan_rate_token; exact Htok |].
      intros pre1 s1 E Hlen.
      destruct (scan_rate s1) as [[[[n w] u] r] |] eqn:E1; [| reflexivity].
      apply scan_rate_token in E1. exfalso. exact (Hfirst _ _ _ _ _ _ E Hlen E1).
    + apply unit_factor_multiplier. exact Hf.
  - intros val H. rewrite bw_to_gbps_scan.
    assert (E : first_rate val = None).
    { apply first_rate_none. intros pre s E.
      destruct (scan_rate s) as [[[[n w] u] r] |] eqn:E1; [| reflexivity].
      apply scan_rate_token in E1. exfalso. exact (H _ _ _ _ _ _ E E1). }
    rewrite E. reflexivity.
  - split; [vm_compute; reflexivity |].
    split.
    { eexists. split; [vm_compute; reflexivity | vm_compute; reflexivity]. }
    split.
    { eexists. split; [vm_compute; reflexivity |].
      split; vm_compute; reflexivity. }
    vm_compute. reflexivity.
Qed.

Lemma bw_to_gbps_first_token_witness :
  (exists q,
      py_float "330" = Ok q
      /\ bw_to_gbps "bw=330 MiB/s (346MB/s)"
         = Ok (Some (fquot (fmul q (float_of_Z (1024 ^ 2)))
                       (float_of_Z GB_DEC))))
  /\ (bw_to_gbps "5PiB" = Ok None).
Proof.
  split.
  - apply (proj1 bw_to_gbps_first_token "bw=330 MiB/s (346MB/s)" "bw="
             "330 MiB/s (346MB/s)" "330" " " "MiB" " (346MB/s)").
    + reflexivity.
    + split; [exists "/s"; split; reflexivity |].
      repeat split; try reflexivity. discriminate.
    + intros pre1 s1 n w u r E Hlen Htok.
      apply scan_rate_token in Htok.
      destruct pre1 as [| c1 [| c2 [| c3 pre1]]];
        cbn in E; try (cbn in Hlen; lia);
        (first [subst s1 | injection E; intros; subst];
         vm_compute in Htok; discriminate).
    + reflexivity.
    + reflexivity.
  - apply (proj1 (proj2 bw_to_gbps_first_token) "5PiB").
    intros pre s n w u r E Htok. apply scan_rate_token in Htok.
    destruct pre as [| c1 [| c2 [| c3 [| c4 [| c5 pre]]]]];
      cbn in E; try discriminate;
      (first [subst s | injection E; intros; subst];
       vm_compute in Htok; discriminate).
Defined.

(** C2, as stated, fails: [100B/s] contains none of the eight prefixed
    units, yet its bare [B/s] token is read as bytes per second and gives a
    value. *)
Lemma bare_bytes_token_has_value :
  forallb (fun u => negb (contains (u ++ "/s") (lower "100B/s"))) eight_units
  = true
  /\ (exists g, bw_to_gbps "100B/s" = Ok (Some g)
                /\ py_float "1e-7" = Ok g)
  /\ bw_to_gbps "100B/s" <> Ok None.
Proof.
  split; [vm_compute; reflexivity |]. split.
  - eexists. split; vm_compute; reflexivity.
  - vm_compute. discriminate.
Qed.

(** ** The IOPS pattern *)

Lemma iops_pat_unfold :
  iops_pat
  = Re.Seq (Re.Group 1 (Re.plus is_numch))
      (Re.Seq (Re.Star is_space)
         (Re.Group 2 (Re.opt (Re.Chr is_iops_suffix)))).
Proof. reflexivity. Qed.

Lemma run_iops_tail {R} (pos : nat) (s : str) (g : Re.caps)
    (F : nat -> str -> Re.caps -> R) :
  Re.run (Re.Seq (Re.Star is_space)
            (Re.Group 2 (Re.opt (Re.Chr is_iops_suffix))))
    pos s g (fun a b c => Some (F a b c))
  = Some
      (let pos2 := pos + length (take_while is_space s) in
       let '(suf, rest) := scan_opt is_iops_suffix (drop_while is_space s) in
       F (pos2 + length suf) rest ((2, suf) :: g)).
Proof.
  rewrite run_seq, run_star. apply star_loop_longest.
  cbn [Re.run Re.opt]. unfold scan_opt.
  destruct (drop_while is_space s) as [| c t].
  - rewrite Nat.sub_diag, Nat.add_0_r. reflexivity.
  - destruct (is_iops_suffix c).
    + rewrite sub_1, add_1. reflexivity.
    + rewrite Nat.sub_diag, Nat.add_0_r. reflexivity.
Qed.

Lemma iops_groups (s : str) :
  match Re.rmatch iops_pat s with
  | Some m =>
      take_while is_numch s <> []
      /\ Re.group m 1 = take_while is_numch s
      /\ Re.group m 2
         = fst (scan_opt is_iops_suffix
                  (drop_while is_space (drop_while is_numch s)))
  | None => take_while is_numch s = []
  end.
Proof.
  unfold Re.rmatch, Re.match_at. rewrite iops_pat_unfold, run_seq, run_group_plus.
  destruct s as [| c s1]; [reflexivity |]. cbn [take_while drop_while].
  destruct (is_numch c) eqn:Ec; [| reflexivity].
  erewrite star_loop_longest; [| apply run_iops_tail].
  cbv zeta.
  destruct (scan_opt is_iops_suffix _) as [suf rest].
  split; [discriminate |]. split; [| reflexivity].
  unfold Re.group. cbn [Re.m_groups Re.get_group List.find fst snd Nat.eqb].
  cbn [fmap option_fmap option_map default].
  replace (1 + length (take_while is_numch s1) - 0)
    with (S (length (take_while is_numch s1))) by lia.
  cbn [take]. rewrite take_take_while. reflexivity.
Qed.

Lemma iops_suffix_cases (c : ascii) :
  is_iops_suffix c = true ->
  (Re.one_of "kK" c = true /\ lower_char c = "k"%char)
  \/ (Re.one_of "kK" c = false /\ Re.one_of "mM" c = true
      /\ lower_char c = "m"%char).
Proof. char_cases c. Qed.

Lemma iops_suffix_none (c : ascii) :
  is_iops_suffix c = false ->
  Re.one_of "kK" c = false /\ Re.one_of "mM" c = false.
Proof. char_cases c. Qed.

Lemma iops_to_k_scan (val : str) :
  iops_to_k val
  = match take_while is_numch (strip val) with
    | [] => Ok None
    | num =>
        let* q := py_float num in
        Ok (Some (fquot
                    (iops_scale
                       (drop_while is_space (drop_while is_numch (strip val)))
                       q)
                    (float_of_Z 1000)))
    end.
Proof.
  unfold iops_to_k. pose proof (iops_groups (strip val)) as H.
  destruct (Re.rmatch iops_pat (strip val)) as [m |].
  - destruct H as (Hne & -> & ->).
    destruct (take_while is_numch (strip val)) as [| c n]; [congruence |].
    destruct (py_float (c :: n)) as [q | e]; [| reflexivity].
    rewrite !bind_Ok. unfold scan_opt, iops_scale.
    destruct (drop_while is_space _) as [| x rest].
    + cbn [fst lower List.map]. unfold str_eqb.
      rewrite !bool_decide_eq_false_2 by discriminate.
      rewrite fdiv_1000, bind_Ok. reflexivity.
    + destruct (is_iops_suffix x) eqn:Ex.
      * cbn [fst lower List.map].
        destruct (iops_suffix_cases x Ex) as [[-> ->] | (-> & -> & ->)].
        -- unfold str_eqb. rewrite bool_decide_eq_true_2 by reflexivity.
           rewrite fdiv_1000, bind_Ok. reflexivity.
        -- unfold str_eqb. rewrite bool_decide_eq_false_2 by discriminate.
           rewrite bool_decide_eq_true_2 by reflexivity.
           rewrite fdiv_1000, bind_Ok. reflexivity.
      * destruct (iops_suffix_none x Ex) as [-> ->].
        cbn [fst lower List.map]. unfold str_eqb.
        rewrite !bool_decide_eq_false_2 by discriminate.
        rewrite fdiv_1000, bind_Ok. reflexivity.
  - rewrite H. reflexivity.
Qed.

(** C6 (amended).  [iops_to_k] strips the string and reads its leading
    number and the suffix after it, skipping white space between the two:
    for a well-formed number, [k] multiplies by 1000 and [m] by 1,000,000,
    in either case, and the result is divided by 1000.  So [84.4k] gives
    84.4, printed 84.400, and [50221.53] gives 50.22153, printed 50.222.  A
    string whose stripped form does not start with a digit or a point gives
    no value. *)
Theorem iops_to_k_leading_token :
  (forall (val num ws rest : str),
      strip val = num ++ ws ++ rest ->
      num <> [] -> forallb is_numch num = true ->
      forallb is_space ws = true ->
      (forall c t, ws ++ rest = c :: t -> is_numch c = false) ->
      (forall c t, rest = c :: t -> is_space c = false) ->
      well_formed_number num = true ->
      exists q,
        py_float num = Ok q
        /\ iops_to_k val
           = Ok (Some (fquot (iops_scale rest q) (float_of_Z 1000))))
  /\ (forall val : str,
         strip val = []
         \/ (exists c t, strip val = c :: t /\ is_numch c = false) ->
         iops_to_k val = Ok None)
  /\ (exists x, iops_to_k "84.4k" = Ok (Some x)
                /\ py_float "84.4" = Ok x /\ fmt_fixed 3 x = "84.400")
  /\ (exists x, iops_to_k "50221.53" = Ok (Some x)
                /\ py_float "50.22153" = Ok x /\ fmt_fixed 3 x = "50.222")
  /\ (exists x, iops_to_k "1.5M" = Ok (Some x) /\ py_float "1500" = Ok x)
  /\ iops_to_k "n/a" = Ok None.
Proof.
  split; [| split].
  - intros val num ws rest Hs Hne Hn Hw Hmax1 Hmax2 Hwf.
    pose proof (py_float_number_token num Hn) as Hq. rewrite Hwf in Hq.
    destruct Hq as (q & Hq & _). exists q. split; [exact Hq |].
    rewrite iops_to_k_scan, Hs.
    destruct (take_while_app_stop is_numch num (ws ++ rest) Hn Hmax1)
      as [-> ->].
    destruct (take_while_app_stop is_space ws rest Hw Hmax2) as [_ ->].
    destruct num as [| c n]; [congruence |].
    rewrite Hq. reflexivity.
  - intros val H. rewrite iops_to_k_scan.
    destruct H as [-> | (c & t & -> & Hc)]; [reflexivity |].
    cbn [take_while]. rewrite Hc. reflexivity.
  - split.
    { eexists. split; [vm_compute; reflexivity |].
      split; vm_compute; reflexivity. }
    split.
    { eexists. split; [vm_compute; reflexivity |].
      split; vm_compute; reflexivity. }
    split.
    { eexists. split; [vm_compute; reflexivity | vm_compute; reflexivity]. }
    vm_compute. reflexivity.
Qed.

Lemma iops_to_k_leading_token_witness :
  (exists q,
      py_float "23.2" = Ok q
      /\ iops_to_k " 23.2 k "
         = Ok (Some (fquot (iops_scale "k" q) (float_of_Z 1000))))
  /\ iops_to_k "k23" = Ok None.
Proof.
  split.
  - apply (proj1 iops_to_k_leading_token " 23.2 k " "23.2" " " "k");
      try reflexivity.
    + discriminate.
    + intros c t E. injection E as <- <-. reflexivity.
    + intros c t E. injection E as <- <-. reflexivity.
  - apply (proj1 (proj2 iops_to_k_leading_token) "k23").
    right. exists "k"%char, "23". split; reflexivity.
Defined.

(** C6, as stated, fails.  Read as the specification words it, the token
    of [5 mins] is the number 5 without a suffix and that of [ 84.4k], which
    starts with a space, is not numeric; the code skips the white space in
    both and gives 5000 and 84.4. *)
Lemma iops_token_skips_white_space :
  (exists x, spec_iops_to_k "5 mins" = Ok (Some x)
             /\ py_float "0.005" = Ok x)
  /\ (exists x, iops_to_k "5 mins" = Ok (Some x) /\ py_float "5000" = Ok x)
  /\ iops_to_k "5 mins" <> spec_iops_to_k "5 mins"
  /\ spec_iops_to_k " 84.4k" = Ok None
  /\ (exists x, iops_to_k " 84.4k" = Ok (Some x) /\ py_float "84.4" = Ok x)
  /\ iops_to_k " 84.4k" <> spec_iops_to_k " 84.4k".
Proof.
  split; [eexists; split; vm_compute; reflexivity |].
  split; [eexists; split; vm_compute; reflexivity |].
  split; [vm_compute; discriminate |].
  split; [vm_compute; reflexivity |].
  split; [eexists; split; vm_compute; reflexivity |].
  vm_compute. discriminate.
Qed.

(** ** The worked examples of the specification *)

Example extract_read_line :
  parse_file [ "  read: IOPS=1234, BW=50.0MiB/s" ]
  = Ok [ "read_iops = 1234" ++ TAB :: "# read IOPS (fio)";
         "read_bw = 50.0MiB/s" ++ TAB :: "# read bandwidth (fio)" ].
Proof. vm_compute. reflexivity. Qed.

Example extract_disk_stats :
  parse_file [ "Disk stats (read/write):"; "  sda: ticks=10/20" ]
  = Ok [ "disk_sda_ticks_read = 10" ++ TAB :: "# per-disk fio disk stats";
         "disk_sda_ticks_write = 20" ++ TAB :: "# per-disk fio disk stats" ].
Proof. vm_compute. reflexivity. Qed.

Example extract_percentile_row :
  parse_file [ "    clat percentiles (usec):"; "     |  1.00th=[  359]" ]
  = Ok [ "clat_pct_1.00th = 359"
         ++ TAB :: "# completion latency percentile (usec)" ].
Proof. vm_compute. reflexivity. Qed.

Example end_to_end_summary :
  exists lines rec s,
    parse_file
      [ "job1: (g=0): rw=read, bs=(R) 4096B-4096B, ioengine=libaio, iodepth=8";
        "  read: IOPS=1000, BW=50.0MiB/s (52.4MB/s)(3000MiB/60001msec)";
        "  lat (usec)   : 250=0.01%, 500=99.99%" ]
    = Ok lines
    /\ parse_consolidated
         ("~~~~~~~ RUN #1 ~~~~~~~" :: "-- job1.parsed.txt --" :: lines)
       = Ok [rec]
    /\ summarize_record rec = Ok s
    /\ s_throughput_GBps s = Some "0.0524"
    /\ s_iops_k s = Some "1.000"
    /\ s_derived_latency_ms s = Some "8.000"
    /\ s_job_name s = Some "job1".
Proof.
  eexists. eexists. eexists.
  split; [vm_compute; reflexivity |].
  split; [vm_compute; reflexivity |].
  split; [vm_compute; reflexivity |].
  repeat split.
Qed.


(** * Further properties of the two programs *)

(** ** What [parse_key_val] returns *)

Lemma has_char_rev (c : ascii) (s : str) : has_char c (rev s) = has_char c s.
Proof.
  unfold has_char. induction s as [| x s IH]; cbn [rev existsb]; [reflexivity |].
  rewrite existsb_app, IH. cbn [existsb]. rewrite orb_false_r. apply orb_comm.
Qed.

Lemma has_char_strip (c : ascii) (s : str) :
  has_char c s = false -> has_char c (strip s) = false.
Proof.
  intros H. unfold strip, strip_by, lstrip_by, rstrip_by.
  rewrite has_char_rev. apply has_char_drop_while.
  rewrite has_char_rev. apply has_char_drop_while. exact H.
Qed.

Lemma rstrip_by_idem (p : ascii -> bool) (s : str) :
  rstrip_by p (rstrip_by p s) = rstrip_by p s.
Proof. unfold rstrip_by. rewrite rev_involutive, drop_while_idem. reflexivity. Qed.

Lemma drop_while_rstrip (p : ascii -> bool) (s : str) :
  drop_while p s = s -> drop_while p (rstrip_by p s) = rstrip_by p s.
Proof.
  destruct s as [| c s]; [reflexivity |].
  cbn [drop_while]. destruct (p c) eqn:E.
  - intros H. pose proof (drop_while_length p s) as Hl.
    rewrite H in Hl. cbn [length] in Hl. lia.
  - intros _. pose proof (rstrip_by_app_stop p [] c s E) as H.
    cbn [app] in H. rewrite H. cbn [drop_while]. rewrite E. reflexivity.
Qed.

Lemma strip_idem (s : str) : strip (strip s) = strip s.
Proof.
  unfold strip, strip_by, lstrip_by.
  rewrite drop_while_rstrip by apply drop_while_idem.
  apply rstrip_by_idem.
Qed.

(** The splitter's line parser never raises; it returns no pair exactly on
    a line without ['=']; the key of a pair has no ['='], its value has no
    ['#'], neither has surrounding white space, and the pair written back
    as [key = value] is parsed to itself. *)
Theorem parse_key_val_normal_form (line : str) :
  (exists r, parse_key_val line = Ok r)
  /\ (parse_key_val line = Ok None <-> has_char "=" line = false)
  /\ (forall k v : str,
         parse_key_val line = Ok (Some (k, v)) ->
         has_char "=" k = false /\ has_char "#" v = false
         /\ strip k = k /\ strip v = v
         /\ parse_key_val (k ++ " = " ++ v) = Ok (Some (k, v))).
Proof.
  split; [apply parse_key_val_total |].
  assert (Hpair : forall k v : str,
             parse_key_val line = Ok (Some (k, v)) ->
             has_char "=" line = true
             /\ has_char "=" k = false /\ has_char "#" v = false
             /\ strip k = k /\ strip v = v).
  { intros k v. unfold parse_key_val.
    destruct (has_char "=" line) eqn:E; cbn [negb]; [| discriminate].
    destruct (has_char_split _ _ E) as (a & b & -> & Ha).
    rewrite (split1_at _ _ _ Ha). cbn [index nth_error]. rewrite !bind_Ok.
    destruct (has_char "#" (strip b)) eqn:E2.
    - destruct (has_char_split _ _ E2) as (h & t & Eb & Hh).
      rewrite Eb, (split1_at _ _ _ Hh). cbn [index nth_error].
      rewrite !bind_Ok. intros H. injection H as <- <-.
      split; [reflexivity |]. split; [apply has_char_strip; exact Ha |].
      split; [apply has_char_strip; exact Hh |].
      split; apply strip_idem.
    - rewrite bind_Ok. intros H. injection H as <- <-.
      split; [reflexivity |]. split; [apply has_char_strip; exact Ha |].
      split; [exact E2 |]. split; apply strip_idem. }
  split.
  - split.
    + intros H. destruct (has_char "=" line) eqn:E; [| reflexivity].
      unfold parse_key_val in H. rewrite E in H. cbn [negb] in H.
      destruct (has_char_split _ _ E) as (a & b & -> & Ha).
      rewrite (split1_at _ _ _ Ha) in H. cbn [index nth_error] in H.
      rewrite !bind_Ok in H.
      destruct (has_char "#" (strip b)).
      * destruct (split1_hd "#" (strip b)) as (h & t & Eh).
        rewrite Eh in H. cbn [index nth_error] in H.
        rewrite !bind_Ok in H. discriminate.
      * rewrite bind_Ok in H. discriminate.
    + intros H. unfold parse_key_val. rewrite H. reflexivity.
  - intros k v H. destruct (Hpair k v H) as (_ & Hk & Hv & Sk & Sv).
    repeat (split; [assumption |]).
    rewrite <- (app_nil_r v) at 1.
    apply parse_key_val_of_line; auto.
Qed.

Lemma parse_key_val_normal_form_witness :
  has_char "=" "  bw = 10 MiB/s # avg = x  " = true
  /\ parse_key_val "  bw = 10 MiB/s # avg = x  " = Ok (Some ("bw", "10 MiB/s"))
  /\ parse_key_val ("bw" ++ " = " ++ "10 MiB/s") = Ok (Some ("bw", "10 MiB/s")).
Proof.
  split; [reflexivity |]. split; [reflexivity |].
  apply (proj2 (proj2 (parse_key_val_normal_form "  bw = 10 MiB/s # avg = x  "))
           "bw" "10 MiB/s").
  reflexivity.
Defined.

(** ** [first_available] *)

(** [first_available] returns the value of the first listed key that is in
    the mapping: no value exactly when none of the keys is present, and over
    a concatenation of key lists the first list wins. *)
Theorem first_available_spec (m : gmap str str) :
  (forall keys : list str,
      first_available m keys = None <-> Forall (fun k => m !! k = None) keys)
  /\ (forall (keys : list str) (v : str),
         first_available m keys = Some v <->
         exists before k after,
           keys = before ++ k :: after
           /\ Forall (fun k' => m !! k' = None) before
           /\ m !! k = Some v)
  /\ (forall keys1 keys2 : list str,
         first_available m (keys1 ++ keys2)
         = match first_available m keys1 with
           | Some v => Some v
           | None => first_available m keys2
           end).
Proof.
  split; [| split].
  - induction keys as [| k keys IH]; cbn [first_available].
    + split; [constructor | reflexivity].
    + destruct (m !! k) eqn:E.
      * split; [discriminate |]. intros H. inversion H; congruence.
      * rewrite IH. split.
        -- intros H. constructor; assumption.
        -- intros H. inversion H; assumption.
  - induction keys as [| k keys IH]; intros v; cbn [first_available].
    + split; [discriminate |]. intros (b & k & a & E & _).
      destruct b; discriminate.
    + destruct (m !! k) as [v0 |] eqn:E.
      * split.
        -- intros H. injection H as ->. exists [], k, keys. auto.
        -- intros (b & k' & a & Ek & Hb & Hv).
           destruct b as [| k0 b]; cbn in Ek; injection Ek as -> ->.
           ++ congruence.
           ++ inversion Hb; congruence.
      * rewrite IH. split.
        -- intros (b & k' & a & -> & Hb & Hv).
           exists (k :: b), k', a. auto.
        -- intros (b & k' & a & Ek & Hb & Hv).
           destruct b as [| k0 b]; cbn in Ek; injection Ek as -> ->.
           ++ congruence.
           ++ inversion Hb; subst. exists b, k', a. auto.
  - induction keys1 as [| k keys1 IH]; intros keys2; cbn [app first_available].
    + reflexivity.
    + destruct (m !! k); [reflexivity | apply IH].
Qed.

Lemma first_available_spec_witness :
  first_available (<[ "write_bw" := "5MB/s" ]> ∅) bw_keys = Some "5MB/s".
Proof.
  apply (proj1 (proj2 (first_available_spec (<[ "write_bw" := "5MB/s" ]> ∅)))
           bw_keys "5MB/s").
  exists [ "run_read_bw"; "run_write_bw"; "read_bw" ], "write_bw", [].
  split; [reflexivity |]. split; [| reflexivity].
  repeat constructor.
Defined.

(** ** IOPS resolution *)

Lemma scaled_float_iops (a : str) :
  scaled_float a (fun x => fdiv x (float_of_Z 1000))
  = Ok match py_float a with
       | Ok x => Some (fquot x (float_of_Z 1000))
       | Raise _ => None
       end.
Proof.
  unfold scaled_float. destruct (py_float a) as [x | e] eqn:E.
  - rewrite bind_Ok, fdiv_1000. reflexivity.
  - apply py_float_raises in E as ->. reflexivity.
Qed.

Lemma derive_iops (m : gmap str str) (d : derived) :
  derive m = Ok d ->
  d_iops_raw d = first_available m iops_keys
  /\ exists o,
       if_truthy (first_available m iops_keys) iops_to_k = Ok o
       /\ d_iops_k d = match o with
                       | Some x => Some x
                       | None => iops_avg_k m
                       end.
Proof.
  unfold derive. intros H.
  bind_inv H. bind_inv H. bind_inv H. fold iops_keys in H.
  destruct (if_truthy (first_available m iops_keys) iops_to_k)
    as [o |] eqn:Eo; [| discriminate H].
  rewrite bind_Ok in H.
  repeat bind_inv H. injection H as <-. cbn [d_iops_raw d_iops_k].
  split; [reflexivity |]. exists o. split; [reflexivity |].
  unfold iops_avg_k.
  destruct o as [x |]; [injection E2 as <-; reflexivity |].
  destruct (m !! "iops_avg") as [a' |].
  - rewrite scaled_float_iops in E2. injection E2 as <-. reflexivity.
  - injection E2 as <-. reflexivity.
Qed.

(** The IOPS source of a record is the first of [read_iops], [write_iops]
    that is present; only that field is parsed with the IOPS rule.  When it
    parses its value is the kIOPS figure; when it is empty or has no leading
    number, or neither field is present, the figure is [iops_avg] over 1000
    (absent when [iops_avg] is missing or not a number). *)
Theorem iops_resolution (m : gmap str str) (d : derived) :
  derive m = Ok d ->
  d_iops_raw d = first_available m iops_keys
  /\ (forall (s : str) (x : float),
         first_available m iops_keys = Some s ->
         iops_to_k s = Ok (Some x) -> d_iops_k d = Some x)
  /\ (forall s : str,
         first_available m iops_keys = Some s ->
         iops_to_k s = Ok None -> d_iops_k d = iops_avg_k m)
  /\ (first_available m iops_keys = None -> d_iops_k d = iops_avg_k m).
Proof.
  intros H. destruct (derive_iops m d H) as (Hraw & o & Ho & Hd).
  split; [exact Hraw |]. split; [| split].
  - intros s x Hs Hx. rewrite Hs in Ho. destruct s as [| c t]; cbn in Ho.
    + vm_compute in Hx. discriminate.
    + rewrite Hx in Ho. injection Ho as <-. exact Hd.
  - intros s Hs Hn. rewrite Hs in Ho. destruct s as [| c t]; cbn in Ho.
    + injection Ho as <-. exact Hd.
    + rewrite Hn in Ho. injection Ho as <-. exact Hd.
  - intros Hs. rewrite Hs in Ho. cbn in Ho. injection Ho as <-. exact Hd.
Qed.

Lemma iops_resolution_witness :
  exists d,
    derive (<[ "read_iops" := "n/a" ]>
              (<[ "write_iops" := "5k" ]> {[ "iops_avg" := "2500" ]}))
    = Ok d
    /\ d_iops_raw d = Some "n/a"
    /\ exists x, d_iops_k d = Some x /\ py_float "2.5" = Ok x.
Proof.
  destruct (derive (<[ "read_iops" := "n/a" ]>
                      (<[ "write_iops" := "5k" ]> {[ "iops_avg" := "2500" ]})))
    as [d | e] eqn:E; [| vm_compute in E; discriminate E].
  exists d. split; [reflexivity |].
  destruct (iops_resolution _ d E) as (Hraw & _ & Hn & _).
  split.
  - rewrite Hraw. reflexivity.
  - rewrite (Hn "n/a"); [| reflexivity | reflexivity].
    eexists. split; vm_compute; reflexivity.
Defined.

(** ** When the two normalizers raise *)

Lemma first_rate_inv (val : str) (r : str * str * str * str) :
  first_rate val = Some r ->
  exists pre s,
    val = pre ++ s /\ scan_rate s = Some r
    /\ forall pre1 s1, val = pre1 ++ s1 -> length pre1 < length pre ->
                       scan_rate s1 = None.
Proof.
  induction val as [| c val IH]; cbn [first_rate].
  - destruct (scan_rate []) eqn:E; [| discriminate].
    intros H. injection H as ->. exists [], []. split; [reflexivity |].
    split; [exact E |]. intros pre1 s1 _ Hl. cbn in Hl. lia.
  - destruct (scan_rate (c :: val)) eqn:E.
    + intros H. injection H as ->. exists [], (c :: val).
      split; [reflexivity |]. split; [exact E |].
      intros pre1 s1 _ Hl. cbn in Hl. lia.
    + intros H. destruct (IH H) as (pre & s & -> & Hs & Hfirst).
      exists (c :: pre), s. split; [reflexivity |]. split; [exact Hs |].
      intros pre1 s1 E1 Hl. destruct pre1 as [| x pre1].
      * cbn in E1. subst s1. exact E.
      * cbn in E1. injection E1 as <- E1. apply (Hfirst pre1 s1 E1).
        cbn in Hl. lia.
Qed.

Lemma bw_to_gbps_exn (val : str) (e : exn) :
  bw_to_gbps val = Raise e -> e = ValueError.
Proof.
  rewrite bw_to_gbps_scan.
  destruct (first_rate val) as [[[[num ws] u] rest] |]; [| discriminate].
  destruct (py_float num) as [q | e'] eqn:E.
  - rewrite bind_Ok. discriminate.
  - cbn [bind]. intros H. injection H as <-. apply (py_float_raises _ _ E).
Qed.

Lemma iops_to_k_exn (val : str) (e : exn) :
  iops_to_k val = Raise e -> e = ValueError.
Proof.
  rewrite iops_to_k_scan.
  destruct (take_while is_numch (strip val)) as [| c n]; [discriminate |].
  destruct (py_float (c :: n)) as [q | e'] eqn:E.
  - rewrite bind_Ok. discriminate.
  - cbn [bind]. intros H. injection H as <-. apply (py_float_raises _ _ E).
Qed.

(** [bw_to_gbps] raises nothing but [ValueError], and raises it exactly when
    the number of the first rate token is not well formed (it has no digit,
    or more than one point). *)
Theorem bw_to_gbps_raises (val : str) :
  (forall e, bw_to_gbps val = Raise e -> e = ValueError)
  /\ (bw_to_gbps val = Raise ValueError <->
      exists pre s num ws unit rest,
        val = pre ++ s
        /\ rate_token s num ws unit rest
        /\ (forall pre1 s1 n w u r,
               val = pre1 ++ s1 -> length pre1 < length pre ->
               ~ rate_token s1 n w u r)
        /\ well_formed_number num = false).
Proof.
  split; [intros e; apply bw_to_gbps_exn |].
  rewrite bw_to_gbps_scan.
  - split.
    + destruct (first_rate val) as [[[[num ws] u] rest] |] eqn:E; [| discriminate].
      intros H. destruct (first_rate_inv _ _ E) as (pre & s & -> & Hs & Hfirst).
      exists pre, s, num, ws, u, rest. split; [reflexivity |].
      apply scan_rate_token in Hs. split; [exact Hs |]. split.
      * intros pre1 s1 n w u' r E1 Hl Htok. apply scan_rate_token in Htok.
        rewrite (Hfirst pre1 s1 E1 Hl) in Htok. discriminate.
      * destruct Hs as (_ & _ & Hn & _).
        pose proof (py_float_number_token num Hn) as Hf.
        destruct (well_formed_number num); [| reflexivity].
        destruct Hf as (q & Hq & _). rewrite Hq, bind_Ok in H.
        discriminate.
    + intros (pre & s & num & ws & u & rest & -> & Htok & Hfirst & Hwf).
      assert (E : first_rate (pre ++ s) = Some (num, ws, u, rest)).
      { apply first_rate_first; [apply scan_rate_token; exact Htok |].
        intros pre1 s1 E1 Hl.
        destruct (scan_rate s1) as [[[[n w] u'] r] |] eqn:E2; [| reflexivity].
        apply scan_rate_token in E2. exfalso.
        exact (Hfirst _ _ _ _ _ _ E1 Hl E2). }
      rewrite E. destruct Htok as (_ & _ & Hn & _).
      pose proof (py_float_number_token num Hn) as Hf.
      rewrite Hwf in Hf. rewrite Hf. reflexivity.
Qed.

Lemma bw_to_gbps_raises_witness :
  bw_to_gbps "bw=..MiB/s" = Raise ValueError.
Proof.
  apply (proj2 (bw_to_gbps_raises "bw=..MiB/s")).
  exists "bw=", "..MiB/s", "..", "", "MiB", "".
  split; [reflexivity |]. split.
  { split; [exists "/s"; split; reflexivity |].
    repeat split; try reflexivity. discriminate. }
  split; [| reflexivity].
  intros pre1 s1 n w u r E Hlen Htok. apply scan_rate_token in Htok.
  destruct pre1 as [| c1 [| c2 [| c3 pre1]]];
    cbn in E; try (cbn in Hlen; lia);
    (first [subst s1 | injection E; intros; subst];
     vm_compute in Htok; discriminate).
Defined.

(** [iops_to_k] raises nothing but [ValueError], and raises it exactly when
    the stripped string starts with a number token that is not well
    formed. *)
Theorem iops_to_k_raises (val : str) :
  (forall e, iops_to_k val = Raise e -> e = ValueError)
  /\ (iops_to_k val = Raise ValueError <->
      take_while is_numch (strip val) <> []
      /\ well_formed_number (take_while is_numch (strip val)) = false).
Proof.
  split; [intros e; apply iops_to_k_exn |].
  rewrite iops_to_k_scan.
  pose proof (py_float_number_token (take_while is_numch (strip val))
                (take_while_all _ _)) as Hf.
  destruct (take_while is_numch (strip val)) as [| c n] eqn:E.
  - split; [discriminate |]. intros [H _]. congruence.
  - destruct (well_formed_number (c :: n)).
    + destruct Hf as (q & -> & _). rewrite bind_Ok.
      split; [discriminate |]. intros [_ H]. discriminate.
    + rewrite Hf. cbn [bind].
      split; [| reflexivity]. intros _. split; [discriminate | reflexivity].
Qed.

Lemma iops_to_k_raises_witness : iops_to_k " 1.2.3k " = Raise ValueError.
Proof.
  apply (proj2 (iops_to_k_raises " 1.2.3k ")).
  split; [discriminate | reflexivity].
Defined.

(** ** The normalized figures are not negative *)

Lemma unit_factor_pos (u : str) :
  exists m e, unit_factor u = S754_finite false m e.
Proof.
  unfold unit_factor.
  repeat match goal with
         | |- context [if ?b then _ else _] =>
             destruct b; [do 2 eexists; vm_compute; reflexivity |]
         end.
  do 2 eexists. vm_compute. reflexivity.
Qed.

Lemma iops_scale_nonneg (rest : str) (x : float) :
  is_nonneg x = true -> is_nonneg (iops_scale rest x) = true.
Proof.
  intros H. unfold iops_scale. destruct rest as [| c t]; [exact H |].
  destruct (Re.one_of "kK" c); [apply fmul_nonneg, H |].
  destruct (Re.one_of "mM" c); [apply fmul_nonneg, H | exact H].
Qed.

(** A bandwidth or an IOPS figure that is returned is never negative (and
    is not NaN): [0 <= g] holds of it. *)
Theorem normalized_figures_nonneg :
  (forall (val : str) (g : float),
      bw_to_gbps val = Ok (Some g) -> fle (float_of_Z 0) g = true)
  /\ (forall (val : str) (x : float),
         iops_to_k val = Ok (Some x) -> fle (float_of_Z 0) x = true).
Proof.
  split.
  - intros val g. rewrite bw_to_gbps_scan.
    destruct (first_rate val) as [[[[num ws] u] rest] |] eqn:E; [| discriminate].
    destruct (first_rate_inv _ _ E) as (pre & s & _ & Hs & _).
    apply scan_rate_token in Hs. destruct Hs as (_ & _ & Hn & _).
    pose proof (py_float_number_token num Hn) as Hf.
    destruct (well_formed_number num).
    + destruct Hf as (q & -> & Hq). rewrite bind_Ok.
      intros H. injection H as <-. apply nonneg_fle.
      destruct (unit_factor_pos (lower u)) as (m & e & ->).
      apply fquot_nonneg, fmul_nonneg, Hq.
    + rewrite Hf. discriminate.
  - intros val x. rewrite iops_to_k_scan.
    pose proof (py_float_number_token (take_while is_numch (strip val))
                  (take_while_all _ _)) as Hf.
    destruct (take_while is_numch (strip val)) as [| c n]; [discriminate |].
    destruct (well_formed_number (c :: n)).
    + destruct Hf as (q & -> & Hq). rewrite bind_Ok.
      intros H. injection H as <-. apply nonneg_fle.
      apply fquot_nonneg, iops_scale_nonneg, Hq.
    + rewrite Hf. discriminate.
Qed.

Lemma normalized_figures_nonneg_witness :
  fle (float_of_Z 0) (S754_finite false 7421932185906577 (-56)) = true
  /\ fle (float_of_Z 0) (S754_finite false 5939122008594842 (-46)) = true.
Proof.
  split.
  - apply (proj1 normalized_figures_nonneg "103MB/s"). vm_compute. reflexivity.
  - apply (proj2 normalized_figures_nonneg "84.4k"). vm_compute. reflexivity.
Defined.

(** ** The exceptions of [summarize_record] *)

Lemma parse_numeric_total (v : str) : exists o, parse_numeric v = Ok o.
Proof.
  unfold parse_numeric. destruct (py_float v) as [q | e] eqn:E.
  - eexists. reflexivity.
  - apply py_float_raises in E as ->. eexists. reflexivity.
Qed.

(** The division of [derive_latency_ms] is never by zero: a zero passes the
    test [iops <= 0]. *)
Lemma derive_latency_ms_cases (k d : float) :
  derive_latency_ms (Some k) (Some d)
  = Ok (if fle (fmul k (float_of_Z 1000)) (float_of_Z 0) then None
        else Some (fmul (fquot d (fmul k (float_of_Z 1000)))
                     (float_of_Z 1000))).
Proof.
  unfold derive_latency_ms, fdiv.
  destruct (fle (fmul k (float_of_Z 1000)) (float_of_Z 0)) eqn:E;
    [reflexivity |].
  destruct (fmul k (float_of_Z 1000)) as [sz | | |]; try reflexivity.
  discriminate E.
Qed.

Lemma derive_latency_ms_total (iops_k iodepth : option float) :
  exists o, derive_latency_ms iops_k iodepth = Ok o.
Proof.
  destruct iops_k as [k |]; [| cbn; eauto].
  destruct iodepth as [d |]; [| cbn; eauto].
  rewrite derive_latency_ms_cases. eauto.
Qed.

Lemma derive_iodepth (m : gmap str str) (d : derived) :
  derive m = Ok d -> d_iodepth d = iodepth_of m.
Proof.
  unfold derive. intros H.
  destruct (if_truthy (first_available m ["iodepth"]) parse_numeric)
    as [o |] eqn:E; [| discriminate H].
  rewrite bind_Ok in H.
  assert (Hd : d_iodepth d = o).
  { repeat bind_inv H. injection H as <-. reflexivity. }
  rewrite Hd. clear H Hd. unfold iodepth_of.
  cbn [first_available] in E.
  destruct (m !! "iodepth") as [[| c t] |]; cbn [if_truthy] in E;
    try (injection E as <-; reflexivity).
  unfold parse_numeric in E.
  destruct (py_float (c :: t)) as [x | e] eqn:Ex.
  - cbn in E. injection E as <-. reflexivity.
  - apply py_float_raises in Ex as ->. cbn in E. injection E as <-.
    reflexivity.
Qed.

Lemma derive_iops_k (m : gmap str str) (d : derived) :
  derive m = Ok d -> d_iops_k d = iops_k_of m.
Proof.
  intros H. destruct (derive_iops m d H) as (_ & o & Ho & ->).
  unfold iops_k_of.
  destruct (first_available m iops_keys) as [[| c t] |]; cbn [if_truthy] in Ho;
    try (injection Ho as <-; reflexivity).
  rewrite Ho. destruct o; reflexivity.
Qed.

(** C4 (code bug).  Derived latency is [(iodepth / iops) * 1000] with
    [iops = iops_k * 1000], and the derivation never raises.  It is
    produced when both values are present and [iops] is strictly positive,
    and not produced when a value is absent or [iops <= 0] holds, as the
    specification says; iodepth 32 and 84.4 kIOPS give the latency printed
    as 0.379.  But the test the code makes is [iops <= 0], which is false
    of a NaN: when the IOPS figure is not a number, a latency is produced
    all the same, and it is NaN.  The latency of a summarized record is
    this function of the record's IOPS figure and queue depth, so a record
    with [iops_avg = nan] is reported with the latency [nan]. *)
Theorem derive_latency_ms_law :
  (forall iops_k iodepth : option float,
      exists r, derive_latency_ms iops_k iodepth = Ok r)
  /\ (forall k d : float,
         fpos (fmul k (float_of_Z 1000)) = true ->
         derive_latency_ms (Some k) (Some d)
         = Ok (Some (fmul (fquot d (fmul k (float_of_Z 1000)))
                       (float_of_Z 1000))))
  /\ (forall iops_k iodepth : option float,
         iops_k = None \/ iodepth = None
         \/ (exists k, iops_k = Some k
                       /\ fle (fmul k (float_of_Z 1000)) (float_of_Z 0)
                          = true) ->
         derive_latency_ms iops_k iodepth = Ok None)
  /\ (forall k d : float,
         fmul k (float_of_Z 1000) = S754_nan ->
         derive_latency_ms (Some k) (Some d) = Ok (Some S754_nan))
  /\ (forall x : float,
         fpos x = true \/ fle x (float_of_Z 0) = true \/ x = S754_nan)
  /\ (forall (rec : record) (s : summary),
         summarize_record rec = Ok s ->
         exists l,
           derive_latency_ms (iops_k_of (metrics rec))
             (iodepth_of (metrics rec))
           = Ok l
           /\ s_derived_latency_ms s = fmt_fixed 3 <$> l)
  /\ (exists k d l,
         py_float "84.4" = Ok k /\ py_float "32" = Ok d
         /\ derive_latency_ms (Some k) (Some d) = Ok (Some l)
         /\ fmt_fixed 3 l = "0.379")
  /\ (exists s,
         summarize_record
           (Record_ 1 "a.txt" None
              (<[ "iodepth" := "32" ]> {[ "read_iops" := "84.4k" ]}))
         = Ok s
         /\ s_iops_k s = Some "84.400"
         /\ s_derived_latency_ms s = Some "0.379")
  /\ (exists s,
         summarize_record nan_iops_record = Ok s
         /\ s_iops_k s = Some "nan"
         /\ s_derived_latency_ms s = Some "nan").
Proof.
  split; [exact derive_latency_ms_total |].
  split.
  { intros k d Hk. rewrite derive_latency_ms_cases.
    unfold fpos in Hk.
    destruct (fmul k (float_of_Z 1000)) as [[] | [] | | [] m e];
      try discriminate Hk; reflexivity. }
  split.
  { intros iops_k iodepth [-> | [-> | (k & -> & Hk)]].
    - reflexivity.
    - destruct iops_k; reflexivity.
    - destruct iodepth as [d |]; [| reflexivity].
      rewrite derive_latency_ms_cases, Hk. reflexivity. }
  split.
  { intros k d Hk. rewrite derive_latency_ms_cases, Hk.
    destruct d as [[] | [] | | [] m e]; reflexivity. }
  split.
  { intros [[] | [] | | [] m e]; cbn; auto. }
  split.
  { intros rec s H. unfold summarize_record in H.
    destruct (derive (metrics rec)) as [d |] eqn:E; [| discriminate H].
    rewrite bind_Ok in H. injection H as <-. cbn [s_derived_latency_ms].
    exists (d_latency d). split; [| reflexivity].
    rewrite <- (derive_iops_k _ d E), <- (derive_iodepth _ d E).
    apply (derive_latency_field (metrics rec) d E). }
  split.
  { do 3 eexists. split; [vm_compute; reflexivity |].
    split; [vm_compute; reflexivity |].
    split; vm_compute; reflexivity. }
  split.
  { eexists. split; [vm_compute; reflexivity |].
    split; reflexivity. }
  eexists. split; [vm_compute; reflexivity |]. split; reflexivity.
Qed.

Lemma derive_latency_ms_law_witness :
  derive_latency_ms (Some (S754_finite false 5939122008594842 (-46)))
    (Some (S754_finite false 4503599627370496 (-47)))
  = Ok (Some (fmul
                (fquot (S754_finite false 4503599627370496 (-47))
                   (fmul (S754_finite false 5939122008594842 (-46))
                      (float_of_Z 1000)))
                (float_of_Z 1000)))
  /\ derive_latency_ms (Some (S754_zero false))
       (Some (S754_finite false 4503599627370496 (-47)))
     = Ok None
  /\ derive_latency_ms (Some S754_nan)
       (Some (S754_finite false 4503599627370496 (-47)))
     = Ok (Some S754_nan).
Proof.
  pose proof derive_latency_ms_law as (_ & Hpos & Hnone & Hnan & _).
  split; [| split].
  - apply Hpos. vm_compute. reflexivity.
  - apply Hnone. right. right. exists (S754_zero false).
    split; [reflexivity | vm_compute; reflexivity].
  - apply Hnan. reflexivity.
Defined.

Lemma if_truthy_raises {A : Type} (x : option str)
    (f : str -> result (option A)) (e : exn) :
  if_truthy x f = Raise e <-> exists s, x = Some s /\ s <> [] /\ f s = Raise e.
Proof.
  unfold if_truthy. split.
  - destruct x as [[| c t] |]; try discriminate.
    intros H. exists (c :: t). split; [reflexivity |]. split; [discriminate | exact H].
  - intros (s & -> & Hs & H). destruct s; [congruence | exact H].
Qed.

(** The two steps of [derive] that can raise decide its outcome. *)
Lemma derive_outcome (m : gmap str str) :
  match if_truthy (first_available m bw_keys) bw_to_gbps with
  | Raise e => derive m = Raise e
  | Ok _ =>
      match if_truthy (first_available m iops_keys) iops_to_k with
      | Raise e => derive m = Raise e
      | Ok _ => exists d, derive m = Ok d
      end
  end.
Proof.
  unfold derive. fold bw_keys iops_keys.
  assert (H1 : exists o, if_truthy (first_available m ["iodepth"]) parse_numeric
                         = Ok o).
  { unfold if_truthy. destruct (first_available m ["iodepth"]) as [[| c t] |];
      eauto using parse_numeric_total. }
  destruct H1 as (o1 & ->). rewrite bind_Ok.
  destruct (if_truthy (first_available m bw_keys) bw_to_gbps) as [bw | e];
    [| reflexivity].
  rewrite bind_Ok.
  assert (H3 : exists o, match bw, m !! "bw_avg" with
                         | None, Some a =>
                             scaled_float a
                               (fun kib_s =>
                                  fdiv (fmul kib_s (float_of_Z 1024))
                                    (float_of_Z GB_DEC))
                         | _, _ => Ok bw
                         end = Ok o).
  { destruct bw; [eauto |]. destruct (m !! "bw_avg"); [| eauto].
    rewrite scaled_float_bw. eauto. }
  destruct H3 as (o3 & ->). rewrite bind_Ok.
  destruct (if_truthy (first_available m iops_keys) iops_to_k) as [ik | e];
    [| reflexivity].
  rewrite bind_Ok.
  assert (H5 : exists o, match ik, m !! "iops_avg" with
                         | None, Some a =>
                             scaled_float a
                               (fun x => fdiv x (float_of_Z 1000))
                         | _, _ => Ok ik
                         end = Ok o).
  { destruct ik; [eauto |]. destruct (m !! "iops_avg"); [| eauto].
    rewrite scaled_float_iops. eauto. }
  destruct H5 as (o5 & ->). rewrite bind_Ok.
  destruct (derive_latency_ms_total o5 o1) as (o6 & ->). rewrite bind_Ok.
  assert (H7 : exists o, if_truthy (m !! "clat_avg")
                           (fun c =>
                              scaled_float c
                                (fun x => fdiv x (float_of_Z 1000)))
                         = Ok o).
  { unfold if_truthy. destruct (m !! "clat_avg") as [[| c t] |]; eauto.
    rewrite scaled_float_iops. eauto. }
  destruct H7 as (o7 & ->). rewrite bind_Ok. eauto.
Qed.

(** [summarize_record] raises nothing but [ValueError], and raises it exactly
    when the bandwidth source or the IOPS source of the record makes its
    normalizer raise; the fallbacks, the iodepth, the completion latency and
    the derived latency never do. *)
Theorem summarize_record_raises (rec : record) :
  (forall e, summarize_record rec = Raise e -> e = ValueError)
  /\ (summarize_record rec = Raise ValueError <->
      (exists s, first_available (metrics rec) bw_keys = Some s
                 /\ bw_to_gbps s = Raise ValueError)
      \/ (exists s, first_available (metrics rec) iops_keys = Some s
                    /\ iops_to_k s = Raise ValueError)).
Proof.
  pose proof (derive_outcome (metrics rec)) as H.
  unfold summarize_record.
  destruct (if_truthy (first_available (metrics rec) bw_keys) bw_to_gbps)
    as [bw | e1] eqn:E1.
  - assert (Hbw : forall s, first_available (metrics rec) bw_keys = Some s ->
                            bw_to_gbps s <> Raise ValueError).
    { intros s Hs Hr. rewrite Hs in E1. destruct s as [| c t].
      - vm_compute in Hr. discriminate.
      - cbn in E1. congruence. }
    destruct (if_truthy (first_available (metrics rec) iops_keys) iops_to_k)
      as [ik | e2] eqn:E2.
    + destruct H as (d & ->). rewrite bind_Ok.
      split; [discriminate |]. split; [discriminate |].
      intros [(s & Hs & Hr) | (s & Hs & Hr)].
      * exfalso. exact (Hbw s Hs Hr).
      * exfalso. rewrite Hs in E2. destruct s as [| c t].
        -- vm_compute in Hr. discriminate.
        -- cbn in E2. congruence.
    + rewrite H. cbn [bind].
      apply if_truthy_raises in E2 as (s & Hs & _ & Hr).
      pose proof (iops_to_k_exn s e2 Hr) as ->.
      split; [congruence |]. split; [| reflexivity].
      intros _. right. eauto.
  - rewrite H. cbn [bind].
    apply if_truthy_raises in E1 as (s & Hs & _ & Hr).
    pose proof (bw_to_gbps_exn s e1 Hr) as ->.
    split; [congruence |]. split; [| reflexivity].
    intros _. left. eauto.
Qed.

Lemma summarize_record_raises_witness :
  summarize_record
    (Record_ 1 "a.txt" None
       (<[ "read_bw" := "10MB/s" ]> {[ "write_iops" := "1.2.3k" ]}))
  = Raise ValueError.
Proof.
  apply (proj2 (summarize_record_raises _)).
  right. exists "1.2.3k". split; reflexivity.
Defined.

(** ** Invariants of the splitter *)

Lemma flush_inv (st : splitter) : splitter_inv st -> splitter_inv (flush st).
Proof.
  intros [Hr Hj]. unfold splitter_inv, flush. cbn.
  split; [| rewrite lookup_empty; reflexivity].
  destruct (run_num st); [| exact Hr].
  destruct (current_file st); [| exact Hr].
  case_bool_decide; [| exact Hr].
  apply Forall_app. split; [exact Hr |].
  constructor; [| constructor]. split; assumption.
Qed.

Lemma split_line_inv (st st' : splitter) (raw : str) :
  splitter_inv st -> split_line st raw = Ok st' -> splitter_inv st'.
Proof.
  intros Hinv. unfold split_line.
  destruct (startswith "~~~~~~~ RUN #" (strip_by is_nl raw)).
  { destruct (Re.search run_pat (strip_by is_nl raw)) as [m |].
    - destruct (py_int (Re.group m 1)) as [n |]; [| discriminate].
      rewrite bind_Ok. intros H; injection H as <-; apply (flush_inv st Hinv).
    - intros H; injection H as <-; apply (flush_inv st Hinv). }
  destruct (startswith "-- " (strip_by is_nl raw)
            && endswith " --" (strip_by is_nl raw)).
  { intros H; injection H as <-. apply (flush_inv st Hinv). }
  destruct (parse_key_val_total (strip_by is_nl raw)) as ([[k v] |] & ->);
    rewrite bind_Ok; intros H; injection H as <-; [| exact Hinv].
  destruct Hinv as [Hr Hj]. split; [exact Hr |]. cbn.
  unfold str_eqb. case_bool_decide as Hk.
  - subst k. rewrite lookup_insert_eq. reflexivity.
  - rewrite lookup_insert_ne by exact Hk. exact Hj.
Qed.

Lemma split_lines_inv (lines : list str) (st st' : splitter) :
  splitter_inv st -> split_lines st lines = Ok st' -> splitter_inv st'.
Proof.
  revert st. induction lines as [| raw lines IH]; intros st Hinv; cbn.
  - intros H. injection H as <-. exact Hinv.
  - destruct (split_line st raw) as [st1 |] eqn:E; [| discriminate].
    rewrite bind_Ok. apply IH. apply (split_line_inv st st1 raw Hinv E).
Qed.

(** [parse_consolidated] raises nothing but [ValueError], and raises it
    exactly when a line of the input is a run marker whose number has more
    digits than [int] converts.  Every record it returns has at least one
    metric and carries as job name the [job_name] entry of its own mapping
    (no job name when the mapping has none). *)
Theorem parse_consolidated_records_ok (lines : list str) :
  (forall e, parse_consolidated lines = Raise e -> e = ValueError)
  /\ (parse_consolidated lines = Raise ValueError
      <-> existsb overlong_marker lines = true)
  /\ (forall recs,
         parse_consolidated lines = Ok recs -> Forall record_ok recs).
Proof.
  unfold parse_consolidated.
  pose proof (split_lines_outcome lines splitter_init) as Ho.
  destruct (existsb overlong_marker lines).
  - rewrite Ho. cbn [bind]. split; [congruence |].
    split; [tauto | discriminate].
  - destruct Ho as (st & E). rewrite E, bind_Ok.
    split; [discriminate |]. split; [split; discriminate |].
    intros recs H. injection H as <-.
    apply flush_inv. apply (split_lines_inv lines splitter_init st); [| exact E].
    split; [constructor | reflexivity].
Qed.

Lemma parse_consolidated_records_ok_witness :
  Forall record_ok [ Record_ 3 "a.txt" (Some "j") {[ "job_name" := "j" ]} ]
  /\ parse_consolidated [ "~~~~~~~ RUN #" ++ repeat "1"%char 4301 ]
     = Raise ValueError.
Proof.
  split.
  - apply (proj2 (proj2 (parse_consolidated_records_ok
                           [ "~~~~~~~ RUN #3 ~~~~~~~"; "-- a.txt --";
                             "job_name = j" ]))).
    vm_compute. reflexivity.
  - apply (proj1 (proj2 (parse_consolidated_records_ok
                           [ "~~~~~~~ RUN #" ++ repeat "1"%char 4301 ]))).
    vm_compute. reflexivity.
Defined.

(** ** Lines the splitter ignores *)

Lemma split_line_noise (st : splitter) (raw : str) :
  is_boundary raw = false ->
  has_char "=" (strip_by is_nl raw) = false ->
  split_line st raw = Ok st.
Proof.
  unfold is_boundary, split_line, parse_key_val. intros H Heq.
  apply orb_false_iff in H as [-> ->]. rewrite Heq. reflexivity.
Qed.

(** A line that is no marker and has no ['='] (a blank line, a banner) does
    not change the result, wherever it stands in the input. *)
Theorem noise_line_ignored (before after : list str) (raw : str) :
  is_boundary raw = false ->
  has_char "=" (strip_by is_nl raw) = false ->
  parse_consolidated (before ++ raw :: after)
  = parse_consolidated (before ++ after).
Proof.
  intros H Heq. unfold parse_consolidated.
  rewrite !split_lines_app. cbn [split_lines].
  destruct (split_lines splitter_init before) as [st |]; [| reflexivity].
  rewrite !bind_Ok, (split_line_noise st raw H Heq), bind_Ok. reflexivity.
Qed.

Lemma noise_line_ignored_witness :
  parse_consolidated
    ([ "~~~~~~~ RUN #1 ~~~~~~~"; "-- a.txt --" ]
       ++ "fio banner: done" :: [ "iodepth = 4" ])
  = parse_consolidated
      ([ "~~~~~~~ RUN #1 ~~~~~~~"; "-- a.txt --" ] ++ [ "iodepth = 4" ]).
Proof.
  apply (noise_line_ignored [ "~~~~~~~ RUN #1 ~~~~~~~"; "-- a.txt --" ]
           [ "iodepth = 4" ] "fio banner: done"); reflexivity.
Defined.

(** ** Records are only ever appended *)

Lemma flush_extends (st : splitter) : records st `prefix_of` records (flush st).
Proof.
  unfold flush. cbn.
  destruct (run_num st); [| reflexivity].
  destruct (current_file st); [| reflexivity].
  case_bool_decide; [| reflexivity]. apply prefix_app_r. reflexivity.
Qed.

Lemma split_lines_extends (lines : list str) (st st' : splitter) :
  split_lines st lines = Ok st' -> records st `prefix_of` records st'.
Proof.
  revert st. induction lines as [| raw lines IH]; intros st; cbn.
  - intros H. injection H as <-. reflexivity.
  - destruct (split_line st raw) as [st1 |] eqn:E; [| discriminate].
    rewrite bind_Ok.
    intros H. transitivity (records st1); [| apply (IH _ H)].
    rewrite (split_line_records st st1 raw E).
    destruct (is_boundary raw); [apply flush_extends | reflexivity].
Qed.

(** The records completed after a first part of the input are the first
    records of the result for the whole input: later lines add records and
    never change or remove one. *)
Theorem records_append_only (first rest : list str) (st : splitter)
    (recs : list record) :
  split_lines splitter_init first = Ok st ->
  parse_consolidated (first ++ rest) = Ok recs ->
  records st `prefix_of` recs.
Proof.
  intros E. unfold parse_consolidated. rewrite split_lines_app, E, bind_Ok.
  destruct (split_lines st rest) as [st' |] eqn:E'; [| discriminate].
  rewrite bind_Ok. intros H. injection H as <-.
  transitivity (records st').
  - apply (split_lines_extends rest st st' E').
  - apply flush_extends.
Qed.

Lemma records_append_only_witness :
  [ Record_ 1 "a.txt" None {[ "x" := "1" ]} ]
  `prefix_of` [ Record_ 1 "a.txt" None {[ "x" := "1" ]};
                Record_ 1 "b.txt" None {[ "y" := "2" ]} ].
Proof.
  apply (records_append_only
           [ "~~~~~~~ RUN #1 ~~~~~~~"; "-- a.txt --"; "x = 1"; "-- b.txt --" ]
           [ "y = 2" ]
           (Splitter [ Record_ 1 "a.txt" None {[ "x" := "1" ]} ]
              (Some 1%Z) (Some "b.txt") ∅ None));
    vm_compute; reflexivity.
Defined.

(** ** What a match can contain *)

Lemma caps_without_nil (c : ascii) : caps_without c [].
Proof. constructor. Qed.

Lemma has_char_take (c : ascii) (n : nat) (s : str) :
  has_char c s = false -> has_char c (take n s) = false.
Proof.
  revert n. induction s as [| x s IH]; intros n H; destruct n;
    try reflexivity.
  cbn [has_char existsb] in H. apply orb_false_iff in H as [Hx H].
  cbn [take has_char existsb]. rewrite Hx. apply (IH n H).
Qed.

Lemma star_loop_without {R : Type} (c : ascii) (p : ascii -> bool)
    (k : nat -> str -> option R) (pos : nat) (s : str) (x : R) :
  has_char c s = false ->
  Re.star_loop p k pos s = Some x ->
  exists pos' s', k pos' s' = Some x /\ has_char c s' = false.
Proof.
  revert pos. induction s as [| a s IH]; intros pos Hs; cbn [Re.star_loop].
  - eauto.
  - assert (Hs' : has_char c s = false).
    { cbn in Hs. apply orb_false_iff in Hs as [_ Hs]. exact Hs. }
    destruct (p a); [| eauto].
    destruct (Re.star_loop p k (S pos) s) as [y |] eqn:E; [| eauto].
    intros H. injection H as ->. apply (IH _ Hs' E).
Qed.

Lemma run_without {R : Type} (c : ascii) (r : Re.regex) :
  forall (pos : nat) (s : str) (g : Re.caps)
         (k : nat -> str -> Re.caps -> option R) (x : R),
    has_char c s = false -> caps_without c g ->
    Re.run r pos s g k = Some x ->
    exists pos' s' g',
      k pos' s' g' = Some x /\ has_char c s' = false /\ caps_without c g'.
Proof.
  induction r as [| p | a IHa b IHb | a IHa b IHb | p | n a IHa | |];
    intros pos s g k x Hs Hg; cbn [Re.run].
  - eauto 6.
  - destruct s as [| y s]; [discriminate |].
    destruct (p y); [| discriminate].
    cbn in Hs. apply orb_false_iff in Hs as [_ Hs]. eauto 6.
  - intros H. destruct (IHa _ _ _ _ _ Hs Hg H) as (p1 & s1 & g1 & H1 & Hs1 & Hg1).
    apply (IHb _ _ _ _ _ Hs1 Hg1 H1).
  - destruct (Re.run a pos s g k) as [y |] eqn:E.
    + intros H. injection H as ->. apply (IHa _ _ _ _ _ Hs Hg E).
    + apply (IHb _ _ _ _ _ Hs Hg).
  - intros H. destruct (star_loop_without c _ _ _ _ _ Hs H) as (p1 & s1 & H1 & Hs1).
    eauto 6.
  - intros H. destruct (IHa _ _ _ _ _ Hs Hg H) as (p1 & s1 & g1 & H1 & Hs1 & Hg1).
    exists p1, s1, ((n, take (p1 - pos) s) :: g1).
    split; [exact H1 |]. split; [exact Hs1 |].
    constructor; [apply has_char_take; exact Hs | exact Hg1].
  - destruct (pos =? 0)%nat; [| discriminate]. eauto 6.
  - destruct s as [| y [| y' s]]; try discriminate; [eauto 6 |].
    destruct (is_nl y); [| discriminate]. eauto 6.
Qed.

Lemma match_at_without (c : ascii) (r : Re.regex) (pos : nat) (s : str)
    (m : Re.mobj) :
  has_char c s = false -> Re.match_at r pos s = Some m ->
  has_char c (Re.m_rest m) = false /\ caps_without c (Re.m_groups m).
Proof.
  unfold Re.match_at. intros Hs H.
  destruct (run_without c r _ _ _ _ _ Hs (caps_without_nil _) H)
    as (p1 & s1 & g1 & H1 & Hs1 & Hg1).
  injection H1 as <-. cbn. split; [exact Hs1 |].
  constructor; [apply has_char_take; exact Hs | exact Hg1].
Qed.

Lemma search_from_without (c : ascii) (r : Re.regex) (s : str) (pos : nat)
    (m : Re.mobj) :
  has_char c s = false -> Re.search_from r pos s = Some m ->
  has_char c (Re.m_rest m) = false /\ caps_without c (Re.m_groups m).
Proof.
  revert pos. induction s as [| y s IH]; intros pos Hs; cbn [Re.search_from].
  - destruct (Re.match_at r pos []) as [m' |] eqn:E; [| discriminate].
    intros H. injection H as ->. apply (match_at_without c r pos [] m Hs E).
  - destruct (Re.match_at r pos (y :: s)) as [m' |] eqn:E.
    + intros H. injection H as ->. apply (match_at_without c r _ _ m Hs E).
    + apply IH. cbn in Hs. apply orb_false_iff in Hs as [_ Hs]. exact Hs.
Qed.

Lemma group_without (c : ascii) (m : Re.mobj) (n : nat) :
  caps_without c (Re.m_groups m) -> has_char c (Re.group m n) = false.
Proof.
  unfold Re.group, Re.get_group, caps_without.
  induction (Re.m_groups m) as [| e g IH]; intros H; cbn [List.find].
  - reflexivity.
  - inversion H as [| ? ? He Hg]; subst.
    destruct (fst e =? n)%nat; [exact He | apply IH; exact Hg].
Qed.

Lemma finditer_from_without (c : ascii) (r : Re.regex) (fuel : nat) :
  forall (pos : nat) (s : str),
    has_char c s = false ->
    Forall (fun m => caps_without c (Re.m_groups m))
      (Re.finditer_from fuel r pos s).
Proof.
  induction fuel as [| fuel IH]; intros pos s Hs; cbn [Re.finditer_from].
  - constructor.
  - destruct (Re.search_from r pos s) as [m |] eqn:E; [| constructor].
    destruct (search_from_without c r s pos m Hs E) as [Hr Hg].
    constructor; [exact Hg |].
    destruct (Re.m_end m =? Re.m_start m)%nat.
    + destruct (Re.m_rest m) as [| y t]; [constructor |].
      apply IH. cbn in Hr. apply orb_false_iff in Hr as [_ Hr]. exact Hr.
    + apply IH. exact Hr.
Qed.

(** A match of the generic key=value pattern needs an ['=']. *)
Lemma match_at_re_kv (pos : nat) (s : str) (m : Re.mobj) :
  Re.match_at re_kv pos s = Some m -> has_char "=" s = true.
Proof.
  unfold Re.match_at, re_kv. cbn [Re.seqs]. rewrite run_seq. intros H.
  destruct (has_char "=" s) eqn:Hs; [reflexivity |]. exfalso.
  destruct (run_without "=" _ _ _ _ _ _ Hs (caps_without_nil _) H)
    as (p1 & s1 & g1 & H1 & Hs1 & _).
  rewrite run_seq in H1. cbn [Re.lit Re.run] in H1.
  destruct s1 as [| y s1]; [discriminate |].
  cbn [has_char existsb] in Hs1. apply orb_false_iff in Hs1 as [Hy _].
  rewrite Hy in H1. discriminate.
Qed.

Lemma search_from_re_kv (s : str) (pos : nat) :
  has_char "=" s = false -> Re.search_from re_kv pos s = None.
Proof.
  revert pos. induction s as [| y s IH]; intros pos Hs; cbn [Re.search_from].
  - destruct (Re.match_at re_kv pos []) as [m |] eqn:E; [| reflexivity].
    apply match_at_re_kv in E. congruence.
  - destruct (Re.match_at re_kv pos (y :: s)) as [m |] eqn:E.
    + apply match_at_re_kv in E. congruence.
    + apply IH. cbn in Hs. apply orb_false_iff in Hs as [_ Hs]. exact Hs.
Qed.

Lemma finditer_re_kv_none (s : str) :
  has_char "=" s = false -> Re.finditer re_kv s = [].
Proof.
  intros Hs. unfold Re.finditer. cbn [Re.finditer_from].
  rewrite (search_from_re_kv s 0 Hs). reflexivity.
Qed.

(** ** The key=value scanners of the extractor *)

Lemma emit_extends (o : list str) (k v : str) : o `prefix_of` emit o k v.
Proof. destruct (emit_appends o k v) as (t & ->). apply prefix_app_r. reflexivity. Qed.

Lemma fold_extends {A : Type} (f : list str -> A -> list str) (xs : list A) :
  (forall o x, o `prefix_of` f o x) ->
  forall o, o `prefix_of` fold_left f xs o.
Proof.
  intros Hf. induction xs as [| x xs IH]; intros o; cbn [fold_left].
  - reflexivity.
  - transitivity (f o x); [apply Hf | apply IH].
Qed.

Lemma parse_kv_list_extends (line prefix : str) (o : list str) :
  o `prefix_of` parse_kv_list line prefix o.
Proof. unfold parse_kv_list. apply fold_extends. intros. apply emit_extends. Qed.

Lemma parse_percentile_line_extends (line prefix : str) (o : list str) :
  o `prefix_of` parse_percentile_line line prefix o.
Proof.
  unfold parse_percentile_line. apply fold_extends. intros. apply emit_extends.
Qed.

Lemma emit_if_match_extends (mm : option Re.mobj) (key : str) (o : list str) :
  o `prefix_of` emit_if_match mm key o.
Proof. destruct mm; cbn; [apply emit_extends | reflexivity]. Qed.

Lemma emit_starts (o : list str) (k v : str) :
  exists l, emit o k v = o ++ [l] /\ startswith k l = true.
Proof.
  destruct (emit_appends o k v) as (t & ->). eexists. split; [reflexivity |].
  apply startswith_prefix.
Qed.

Lemma startswith_app_l (p q s : str) :
  startswith (p ++ q) s = true -> startswith p s = true.
Proof.
  rewrite !startswith_app. intros (r & ->). rewrite <- app_assoc. eauto.
Qed.

Lemma parse_disk_stats_appends (dev rest : str) (out_list : list str) :
  exists new,
    parse_disk_stats dev rest out_list = Ok (out_list ++ new)
    /\ Forall (fun l => startswith ("disk_" ++ dev ++ "_") l = true) new
    /\ length (Re.finditer re_kv rest) <= length new
       <= 2 * length (Re.finditer re_kv rest).
Proof.
  unfold parse_disk_stats. revert out_list.
  induction (Re.finditer re_kv rest) as [| m ms IH]; intros o; cbn [fold_left].
  - exists []. rewrite app_nil_r. split; [reflexivity |].
    split; [constructor | cbn; lia].
  - rewrite bind_Ok.
    set (k := normalize_key (Re.group m 1)).
    set (v := strip (Re.group m 2)).
    destruct (has_char "/" v && negb (has_char "," v)) eqn:E.
    + apply andb_true_iff in E as [E _].
      destruct (has_char_split _ _ E) as (a & b & -> & Ha).
      rewrite (split1_at _ _ _ Ha). cbn [index nth_error]. rewrite !bind_Ok.
      destruct (emit_starts o ("disk_" ++ dev ++ "_" ++ k ++ "_read") (strip a))
        as (l1 & -> & H1).
      destruct (emit_starts (o ++ [l1])
                  ("disk_" ++ dev ++ "_" ++ k ++ "_write") (strip b))
        as (l2 & -> & H2).
      destruct (IH ((o ++ [l1]) ++ [l2])) as (new & -> & Hnew & Hlen).
      exists (l1 :: l2 :: new). rewrite <- !app_assoc. split; [reflexivity |].
      split; [| cbn [length]; lia].
      constructor; [| constructor; [| exact Hnew]].
      * apply (startswith_app_l _ (k ++ "_read")).
        rewrite <- !app_assoc. exact H1.
      * apply (startswith_app_l _ (k ++ "_write")).
        rewrite <- !app_assoc. exact H2.
    + destruct (emit_starts o ("disk_" ++ dev ++ "_" ++ k) v) as (l1 & -> & H1).
      destruct (IH (o ++ [l1])) as (new & -> & Hnew & Hlen).
      exists (l1 :: new). rewrite <- !app_assoc. split; [reflexivity |].
      split; [| cbn [length]; lia].
      constructor; [| exact Hnew].
      apply (startswith_app_l _ k). rewrite <- !app_assoc. exact H1.
Qed.

(** ** The values of key=value matches *)

Lemma star_loop_prefix {R : Type} (p : ascii -> bool)
    (k : nat -> str -> option R) (pos : nat) (s : str) (x : R) :
  Re.star_loop p k pos s = Some x ->
  exists n, n <= length (take_while p s) /\ k (pos + n) (drop n s) = Some x.
Proof.
  revert pos. induction s as [| c s IH]; intros pos; cbn [Re.star_loop take_while].
  - intros H. exists 0. rewrite Nat.add_0_r. split; [reflexivity | exact H].
  - destruct (p c).
    + destruct (Re.star_loop p k (S pos) s) as [y |] eqn:E.
      * intros H. injection H as ->. destruct (IH _ E) as (n & Hn & Hk).
        exists (S n). cbn [length drop]. split; [lia |].
        rewrite <- Nat.add_succ_comm. exact Hk.
      * intros H. exists 0. rewrite Nat.add_0_r. split; [lia | exact H].
    + intros H. exists 0. rewrite Nat.add_0_r. split; [lia | exact H].
Qed.

Lemma take_within_take_while (p : ascii -> bool) (n : nat) (s : str) :
  n <= length (take_while p s) -> forallb p (take n s) = true.
Proof.
  revert n. induction s as [| c s IH]; intros n; cbn [take_while].
  - destruct n; reflexivity.
  - destruct n as [| n]; [reflexivity |]. destruct (p c) eqn:E; cbn [length].
    + intros H. cbn [take forallb]. rewrite E. apply IH. lia.
    + lia.
Qed.

Lemma no_comma (v : str) :
  forallb (fun c => negb (is_code 44 c)) v = true -> has_char "," v = false.
Proof.
  unfold has_char. induction v as [| c v IH]; cbn [forallb existsb];
    [reflexivity |].
  intros H. apply andb_true_iff in H as [Hc Hv]. rewrite (IH Hv), orb_false_r.
  revert Hc. char_cases c.
Qed.

Lemma match_at_re_kv_value (pos : nat) (s : str) (m : Re.mobj) :
  Re.match_at re_kv pos s = Some m -> has_char "," (Re.group m 2) = false.
Proof.
  unfold Re.match_at, re_kv. cbn [Re.seqs]. rewrite run_seq. intros H.
  apply run_result in H as (p1 & s1 & g1 & H & _).
  rewrite run_seq in H.
  apply run_result in H as (p2 & s2 & g2 & H & _).
  rewrite run_group_plus in H.
  destruct s2 as [| c s3]; [discriminate |].
  destruct (negb (is_code 44 c)) eqn:Ec; [| discriminate].
  apply star_loop_prefix in H as (n & Hn & H). injection H as <-.
  unfold Re.group, Re.get_group.
  cbn [Re.m_groups List.find fst snd Nat.eqb fmap option_fmap option_map
       default].
  unfold id. replace (S (p2 + n) - p2) with (S n) by lia. cbn [take].
  apply no_comma. cbn [forallb]. rewrite Ec.
  apply take_within_take_while, Hn.
Qed.

Lemma search_from_re_kv_value (s : str) (pos : nat) (m : Re.mobj) :
  Re.search_from re_kv pos s = Some m -> has_char "," (Re.group m 2) = false.
Proof.
  revert pos. induction s as [| c s IH]; intros pos; cbn [Re.search_from];
    destruct (Re.match_at re_kv pos _) as [m' |] eqn:E;
    try discriminate;
    try (intros H; injection H as <-; apply (match_at_re_kv_value _ _ _ E)).
  apply IH.
Qed.

Lemma finditer_from_re_kv_values (fuel : nat) :
  forall (pos : nat) (s : str),
    Forall (fun m => has_char "," (Re.group m 2) = false)
      (Re.finditer_from fuel re_kv pos s).
Proof.
  induction fuel as [| fuel IH]; intros pos s; cbn [Re.finditer_from];
    [constructor |].
  destruct (Re.search_from re_kv pos s) as [m |] eqn:E; [| constructor].
  constructor; [apply (search_from_re_kv_value _ _ _ E) |].
  destruct (Re.m_end m =? Re.m_start m)%nat; [| apply IH].
  destruct (Re.m_rest m); [constructor | apply IH].
Qed.

Lemma emit_from_nil (o : list str) (k v : str) : emit o k v = o ++ emit [] k v.
Proof. unfold emit. destruct (describe k) as [[| c d] |]; reflexivity. Qed.

(** ** The lines of the disk statistics *)

Lemma parse_disk_stats_blocks (dev : str) (ms : list Re.mobj) :
  Forall (fun m => has_char "," (Re.group m 2) = false) ms ->
  forall out_list : list str,
  exists blocks,
    fold_left
      (fun acc m =>
         let* out := acc in
         let k := normalize_key (Re.group m 1) in
         let v := strip (Re.group m 2) in
         if has_char "/" v && negb (has_char "," v) then
           let parts := split1 "/" v in
           let* part_a := index parts 0 in
           let* part_b := index parts 1 in
           let out :=
             emit out ("disk_" ++ dev ++ "_" ++ k ++ "_read") (strip part_a) in
           Ok (emit out ("disk_" ++ dev ++ "_" ++ k ++ "_write") (strip part_b))
         else Ok (emit out ("disk_" ++ dev ++ "_" ++ k) v))
      ms (Ok out_list)
    = Ok (out_list ++ concat blocks)
    /\ Forall2 (disk_entries dev) ms blocks.
Proof.
  induction 1 as [| m ms Hm _ IH]; intros o; cbn [fold_left].
  - exists []. cbn. rewrite app_nil_r. split; [reflexivity | constructor].
  - rewrite bind_Ok.
    set (k := normalize_key (Re.group m 1)).
    set (v := strip (Re.group m 2)).
    assert (Hv : has_char "," v = false) by (apply has_char_strip, Hm).
    rewrite Hv, andb_true_r.
    destruct (has_char "/" v) eqn:E.
    + destruct (has_char_split _ _ E) as (a & b & Ev & Ha).
      rewrite Ev, (split1_at _ _ _ Ha). cbn [index nth_error]. rewrite !bind_Ok.
      rewrite (emit_from_nil (emit o _ _)), (emit_from_nil o).
      destruct (IH ((o ++ emit [] ("disk_" ++ dev ++ "_" ++ k ++ "_read") (strip a))
                      ++ emit [] ("disk_" ++ dev ++ "_" ++ k ++ "_write") (strip b)))
        as (blocks & Hfold & Hb).
      exists ((emit [] ("disk_" ++ dev ++ "_" ++ k ++ "_read") (strip a)
               ++ emit [] ("disk_" ++ dev ++ "_" ++ k ++ "_write") (strip b))
              :: blocks).
      split.
      * cbn [concat]. rewrite <- !app_assoc in Hfold. rewrite <- !app_assoc.
        exact Hfold.
      * constructor; [| exact Hb].
        unfold disk_entries. cbv zeta. right. exists a, b.
        split; [exact Ev |]. split; [exact Ha |].
        subst k. rewrite <- !app_assoc. reflexivity.
    + rewrite (emit_from_nil o).
      destruct (IH (o ++ emit [] ("disk_" ++ dev ++ "_" ++ k) v))
        as (blocks & Hfold & Hb).
      exists (emit [] ("disk_" ++ dev ++ "_" ++ k) v :: blocks).
      split.
      * cbn [concat]. rewrite <- app_assoc in Hfold. exact Hfold.
      * constructor; [| exact Hb].
        unfold disk_entries. cbv zeta. left. split; [exact E | reflexivity].
Qed.

(** [parse_disk_stats] never raises and only appends.  Each key=value
    match of the text adds, in order, the line [disk_<dev>_<key> = value],
    or, when its value has a slash, the two lines [disk_<dev>_<key>_read]
    and [disk_<dev>_<key>_write] with the stripped texts before and after
    the first slash.  (The value of a match never has a comma, so the test
    for one never decides.) *)
Theorem parse_disk_stats_lines (dev rest : str) (out_list : list str) :
  exists blocks,
    parse_disk_stats dev rest out_list = Ok (out_list ++ concat blocks)
    /\ Forall2 (disk_entries dev) (Re.finditer re_kv rest) blocks.
Proof.
  unfold parse_disk_stats. apply parse_disk_stats_blocks.
  apply finditer_from_re_kv_values.
Qed.

Lemma parse_disk_stats_lines_witness :
  parse_disk_stats "sda" "ios=10/20, util=5%" []
  = Ok [ "disk_sda_ios_read = 10" ++ TAB :: "# per-disk fio disk stats";
         "disk_sda_ios_write = 20" ++ TAB :: "# per-disk fio disk stats";
         "disk_sda_util = 5%" ++ TAB :: "# per-disk fio disk stats" ]
  /\ exists blocks,
       parse_disk_stats "sda" "ios=10/20, util=5%" []
       = Ok ([] ++ concat blocks)
       /\ Forall2 (disk_entries "sda") (Re.finditer re_kv "ios=10/20, util=5%")
            blocks.
Proof.
  split; [vm_compute; reflexivity |].
  apply (parse_disk_stats_lines "sda" "ios=10/20, util=5%" []).
Defined.

(** Without an ['='] in the text none of the three scanners emits a line. *)
Theorem scanners_need_equals (st : extractor) (line prefix dev : str) :
  has_char "=" line = false ->
  parse_kv_list line prefix (out st) = out st
  /\ parse_disk_stats dev line (out st) = Ok (out st)
  /\ fallback st line = Extractor (out st) (pct_mode st) (disk_section st).
Proof.
  intros H. unfold parse_kv_list, parse_disk_stats, fallback, with_out.
  rewrite (finditer_re_kv_none line H). repeat split.
Qed.

Lemma scanners_need_equals_witness :
  parse_kv_list "Run status group 0 (all jobs):" "run_read_" [] = []
  /\ parse_disk_stats "sda" "Run status group 0 (all jobs):" [] = Ok []
  /\ fallback extractor_init "Run status group 0 (all jobs):"
     = Extractor [] None false.
Proof.
  apply (scanners_need_equals extractor_init "Run status group 0 (all jobs):"
           "run_read_" "sda").
  reflexivity.
Defined.

(** ** Extractor lines read back by the splitter *)

Lemma norm_char_no_equals (c : ascii) :
  is_norm_char c = true -> chr_eqb "=" c = false.
Proof. char_cases c. Qed.

Lemma normalized_key_ok (k : str) :
  is_normalized k = true -> has_char "=" k = false /\ strip k = k.
Proof.
  intros H. split.
  - apply normalized_has_char; [apply norm_char_no_equals | exact H].
  - apply strip_by_none. apply (normalized_forall k); [| exact H].
    intros c Hc. destruct (norm_char_facts c Hc) as (-> & _). reflexivity.
Qed.

Lemma emit_read_back (o : list str) (k v : str) :
  has_char "=" k = false -> has_char "#" v = false ->
  strip k = k -> strip v = v ->
  exists l, emit o k v = o ++ [l] /\ parse_key_val l = Ok (Some (k, v)).
Proof.
  intros Hk Hv Sk Sv. unfold emit.
  destruct (describe k) as [[| c d] |]; eexists; (split; [reflexivity |]).
  - rewrite <- (app_nil_r v) at 1. apply parse_key_val_of_line; auto.
  - apply parse_key_val_of_line; eauto.
  - rewrite <- (app_nil_r v) at 1. apply parse_key_val_of_line; auto.
Qed.

(** The lines [parse_kv_list] writes for a text without ['#'], under a
    prefix in normalized form, are read back by the splitter's
    [parse_key_val], pair by pair and in order, as the prefixed normalized
    key and the stripped value. *)
Theorem parse_kv_list_read_back (line prefix : str) (out_list : list str) :
  is_normalized prefix = true ->
  has_char "#" line = false ->
  exists new,
    parse_kv_list line prefix out_list = out_list ++ new
    /\ Forall2
         (fun m l =>
            parse_key_val l
            = Ok (Some (prefix ++ normalize_key (Re.group m 1),
                        strip (Re.group m 2))))
         (Re.finditer re_kv line) new.
Proof.
  intros Hp Hl. unfold parse_kv_list.
  pose proof (finditer_from_without "#" re_kv (S (length line)) 0 line Hl) as Hms.
  fold (Re.finditer re_kv line) in Hms. revert out_list.
  induction Hms as [| m ms Hm _ IH]; intros o; cbn [fold_left].
  - exists []. rewrite app_nil_r. split; [reflexivity | constructor].
  - rewrite strip_idem.
    assert (Hk : is_normalized (prefix ++ normalize_key (Re.group m 1)) = true).
    { unfold is_normalized in *. rewrite forallb_app, Hp.
      apply normalize_key_normalized. }
    destruct (normalized_key_ok _ Hk) as [Hk1 Hk2].
    destruct (emit_read_back o (prefix ++ normalize_key (Re.group m 1))
                (strip (Re.group m 2)) Hk1) as (l & -> & Hread); auto.
    { apply has_char_strip. apply group_without. exact Hm. }
    { apply strip_idem. }
    destruct (IH (o ++ [l])) as (new & -> & Hnew).
    exists (l :: new). rewrite <- app_assoc. split; [reflexivity |].
    constructor; assumption.
Qed.

Lemma parse_kv_list_read_back_witness :
  exists new,
    parse_kv_list " IOPS=84.4k, BW=330MiB/s (346MB/s)" "read_" [] = [] ++ new
    /\ Forall2
         (fun m l =>
            parse_key_val l
            = Ok (Some ("read_" ++ normalize_key (Re.group m 1),
                        strip (Re.group m 2))))
         (Re.finditer re_kv " IOPS=84.4k, BW=330MiB/s (346MB/s)") new.
Proof.
  apply (parse_kv_list_read_back " IOPS=84.4k, BW=330MiB/s (346MB/s)"
           "read_" []); reflexivity.
Defined.

(** ** One line of the extractor *)

Lemma split1_absent (c : ascii) (s : str) :
  has_char c s = false -> split1 c s = [s].
Proof.
  induction s as [| a s IH]; cbn [split1 has_char existsb]; [reflexivity |].
  intros H. apply orb_false_iff in H as [-> H]. unfold has_char in IH.
  rewrite (IH H). reflexivity.
Qed.

Lemma kv_after_colon_cases (st : extractor) (sline prefix : str) :
  if has_char ":" sline
  then exists st',
         kv_after_colon st sline prefix = Ok st'
         /\ out st `prefix_of` out st'
         /\ pct_mode st' = pct_mode st /\ disk_section st' = disk_section st
  else kv_after_colon st sline prefix = Raise IndexError.
Proof.
  unfold kv_after_colon. destruct (has_char ":" sline) eqn:E.
  - destruct (has_char_split _ _ E) as (a & b & -> & Ha).
    rewrite (split1_at _ _ _ Ha). cbn [index nth_error]. rewrite bind_Ok.
    eexists. split; [reflexivity |]. cbn.
    split; [apply parse_kv_list_extends | split; reflexivity].
  - rewrite (split1_absent _ _ E). reflexivity.
Qed.

Lemma advances_out (st : extractor) (o : list str) :
  out st `prefix_of` o -> advances st (with_out st o).
Proof. intros H. split; [exact H |]. cbn. auto. Qed.

Lemma early_rules_cases (st : extractor) (sline : str) (r : result extractor) :
  early_rules st sline = Some r ->
  (sline = [] /\ r = Ok (Extractor (out st) None false))
  \/ (sline <> [] /\ exists st', r = Ok st' /\ advances st st'
                                 /\ disk_section st' = disk_section st).
Proof.
  unfold early_rules, orelse.
  unfold rule_blank, str_eqb. case_bool_decide as Hb.
  { intros H. injection H as <-. left. auto. }
  intros H. right. split; [exact Hb |]. revert H.
  unfold rule_version.
  destruct (Re.rmatch re_fio_version sline).
  { intros H. injection H as <-. eexists. split; [reflexivity |].
    split; [apply advances_out, emit_extends | reflexivity]. }
  unfold rule_layout. destruct (contains "Laying out IO file" sline).
  { destruct (Re.search re_layout sline); intros H; injection H as <-;
      eexists; (split; [reflexivity |]).
    - split; [| reflexivity]. apply advances_out.
      etransitivity; apply emit_extends.
    - split; [| reflexivity]. split; [reflexivity | auto]. }
  unfold rule_group_jobs. destruct (Re.search re_group_jobs sline).
  { intros H. injection H as <-. eexists. split; [reflexivity |].
    split; [| reflexivity]. apply advances_out.
    repeat (etransitivity; [| apply emit_extends]). reflexivity. }
  unfold rule_job_header. destruct (Re.search re_job_header sline) as [m |].
  { intros H. injection H as <-. eexists. split; [reflexivity |].
    split; [| reflexivity]. apply advances_out.
    etransitivity; [| apply emit_if_match_extends].
    etransitivity; [| apply emit_if_match_extends].
    etransitivity; [| apply emit_if_match_extends].
    destruct (nonempty (Re.group m 2)), (nonempty (Re.group m 3)),
      (nonempty (Re.group m 4));
      repeat (etransitivity; [| apply emit_extends]); reflexivity. }
  unfold rule_pct_header. destruct (_ || _).
  { intros H. injection H as <-. eexists. split; [reflexivity |].
    split; [| reflexivity]. split; [reflexivity |]. cbn. auto. }
  unfold rule_pct_row. destruct (_ && _).
  { intros H. injection H as <-. eexists. split; [reflexivity |].
    split; [| reflexivity]. apply advances_out, parse_percentile_line_extends. }
  unfold rule_run_summary. destruct (Re.rmatch re_run_read sline).
  { intros H. injection H as <-. eexists. split; [reflexivity |].
    split; [| reflexivity]. apply advances_out, parse_kv_list_extends. }
  destruct (Re.rmatch re_run_write sline); [| discriminate].
  intros H. injection H as <-. eexists. split; [reflexivity |].
  split; [| reflexivity]. apply advances_out, parse_kv_list_extends.
Qed.

Lemma fallback_advances (st : extractor) (sline : str) :
  advances st (fallback st sline).
Proof.
  unfold fallback. apply advances_out, fold_extends. intros. apply emit_extends.
Qed.

Lemma prefix_rules_cases (st : extractor) (sline : str) :
  if takes_prefix_rule sline && negb (has_char ":" sline)
  then prefix_rules st sline = Raise IndexError
  else exists st',
         prefix_rules st sline = Ok st' /\ advances st st'
         /\ pct_mode st' = pct_mode st.
Proof.
  assert (K : forall prefix,
             if negb (has_char ":" sline)
             then kv_after_colon st sline prefix = Raise IndexError
             else exists st',
                    kv_after_colon st sline prefix = Ok st'
                    /\ advances st st' /\ pct_mode st' = pct_mode st).
  { intros prefix. pose proof (kv_after_colon_cases st sline prefix) as H.
    destruct (has_char ":" sline); cbn [negb]; [| exact H].
    destruct H as (st' & H & Ho & Hp & Hd). exists st'.
    split; [exact H |]. split; [| exact Hp].
    split; [exact Ho |]. rewrite Hp, Hd. auto. }
  unfold prefix_rules, takes_prefix_rule.
  destruct (startswith "read:" sline); [apply K |].
  destruct (startswith "write:" sline); [apply K |].
  destruct (startswith "slat" sline); [apply K |].
  destruct (startswith "clat" sline && negb (contains "percentiles" (lower sline)));
    [apply K |].
  destruct (startswith "lat (usec)" sline) eqn:Elat; [apply K |].
  assert (Elat2 : startswith "lat (usec)   :" sline = false).
  { destruct (startswith "lat (usec)   :" sline) eqn:E; [| reflexivity].
    apply (startswith_app_l "lat (usec)" "   :") in E. congruence. }
  rewrite Elat2.
  destruct (startswith "lat (msec)" sline); [apply K |].
  destruct (startswith "bw (" sline); [apply K |].
  destruct (startswith "iops" sline) eqn:Eiops.
  { rewrite (contains_startswith _ _ Eiops). apply K. }
  destruct (startswith "cpu" sline); [apply K |].
  destruct (startswith "IO depths" sline); [apply K |].
  destruct (startswith "submit" sline); [apply K |].
  destruct (startswith "complete" sline); [apply K |].
  cbn [orb andb].
  destruct (contains "issued rwts" sline).
  { cbn [negb andb]. eexists. split; [reflexivity |]. split; [| reflexivity].
    apply advances_out.
    repeat (etransitivity; [| apply emit_if_match_extends]). reflexivity. }
  cbn [negb andb].
  destruct (startswith "latency" sline); [apply K |]. cbn [andb].
  destruct (contains "Disk stats" sline).
  { eexists. split; [reflexivity |]. split; [| reflexivity].
    split; [reflexivity |]. cbn. auto. }
  destruct (if disk_section st then Re.rmatch re_disk_dev sline else None)
    as [m |].
  - destruct (parse_disk_stats_appends (Re.group m 1) (Re.group m 2) (out st))
      as (new & -> & _).
    rewrite bind_Ok. eexists. split; [reflexivity |]. split; [| reflexivity].
    apply advances_out, prefix_app_r. reflexivity.
  - eexists. split; [reflexivity |].
    split; [apply fallback_advances | reflexivity].
Qed.

Lemma parse_line_outcome (st : extractor) (raw : str) :
  match parse_line st raw with
  | Ok st' =>
      out st `prefix_of` out st'
      /\ (strip (rstrip_by is_nl raw) = [] ->
          st' = Extractor (out st) None false)
      /\ (strip (rstrip_by is_nl raw) <> [] ->
          (pct_mode st = Some "clat" -> pct_mode st' = Some "clat")
          /\ (disk_section st = true -> disk_section st' = true))
      /\ ~ (early_rules st (strip (rstrip_by is_nl raw)) = None
            /\ takes_prefix_rule (strip (rstrip_by is_nl raw)) = true
            /\ has_char ":" (strip (rstrip_by is_nl raw)) = false)
  | Raise e =>
      e = IndexError
      /\ early_rules st (strip (rstrip_by is_nl raw)) = None
      /\ takes_prefix_rule (strip (rstrip_by is_nl raw)) = true
      /\ has_char ":" (strip (rstrip_by is_nl raw)) = false
  end.
Proof.
  unfold parse_line. set (sline := strip (rstrip_by is_nl raw)).
  destruct (early_rules st sline) as [r |] eqn:E.
  - destruct (early_rules_cases st sline r E)
      as [[Hs ->] | (Hs & st' & -> & Hadv & Hd)].
    + split; [reflexivity |].
      split; [reflexivity |]. split; [congruence |].
      intros (H & _). discriminate.
    + split; [apply Hadv |]. split; [congruence |].
      split; [| intros (H & _); discriminate].
      intros _. destruct Hadv as (_ & Hp & _). split.
      * intros Hc. destruct Hp as [Hp | Hp]; congruence.
      * intros Hc. congruence.
  - pose proof (prefix_rules_cases st sline) as H.
    destruct (takes_prefix_rule sline && negb (has_char ":" sline)) eqn:Et.
    + rewrite H. apply andb_true_iff in Et as [Ht Hc].
      apply negb_true_iff in Hc. auto.
    + destruct H as (st' & -> & Hadv & Hp). split; [apply Hadv |].
      split.
      { intros Hs. exfalso. unfold early_rules, orelse, rule_blank in E.
        rewrite Hs in E. discriminate. }
      split.
      { intros _. destruct Hadv as (_ & _ & Hd). split.
        - intros Hc. congruence.
        - intros Hc. destruct Hd as [Hd | Hd]; congruence. }
      intros (_ & Ht & Hc). rewrite Ht, Hc in Et. discriminate.
Qed.

(** A line of the extractor's input raises nothing but [IndexError], and
    raises it exactly when it reaches one of the prefix-dispatched rules and
    has no colon (the rule takes [split(':', 1)[1]]).  So an input whose
    lines all have a colon, or are taken by no such rule, is parsed without
    an exception. *)
Theorem parse_line_raises :
  (forall (st : extractor) (raw : str) (e : exn),
      parse_line st raw = Raise e -> e = IndexError)
  /\ (forall (st : extractor) (raw : str),
         parse_line st raw = Raise IndexError <->
         early_rules st (strip (rstrip_by is_nl raw)) = None
         /\ takes_prefix_rule (strip (rstrip_by is_nl raw)) = true
         /\ has_char ":" (strip (rstrip_by is_nl raw)) = false)
  /\ (forall lines : list str,
         Forall (fun raw =>
                   takes_prefix_rule (strip (rstrip_by is_nl raw)) = false
                   \/ has_char ":" (strip (rstrip_by is_nl raw)) = true)
           lines ->
         exists out_list, parse_file lines = Ok out_list).
Proof.
  split; [| split].
  - intros st raw e H. pose proof (parse_line_outcome st raw) as Ho.
    rewrite H in Ho. apply Ho.
  - intros st raw. pose proof (parse_line_outcome st raw) as Ho. split.
    + intros H. rewrite H in Ho. apply Ho.
    + intros H. destruct (parse_line st raw) as [st' | e].
      * exfalso. apply Ho. exact H.
      * destruct Ho as (-> & _). reflexivity.
  - intros lines Hl. unfold parse_file.
    assert (H : forall st, exists st', parse_lines st lines = Ok st').
    { induction Hl as [| raw lines Hraw _ IH]; intros st; cbn [parse_lines].
      - eauto.
      - pose proof (parse_line_outcome st raw) as Ho.
        destruct (parse_line st raw) as [st1 | e].
        + rewrite bind_Ok. apply IH.
        + exfalso. destruct Ho as (_ & _ & Ht & Hc).
          destruct Hraw; congruence. }
    destruct (H extractor_init) as (st' & ->). rewrite bind_Ok. eauto.
Qed.

Lemma parse_line_raises_witness :
  parse_line extractor_init "   cpu usr=5.12%, sys=20.34%" = Raise IndexError
  /\ (exists out_list,
         parse_file [ "   cpu : usr=5.12%"; "done" ] = Ok out_list).
Proof.
  split.
  - apply (proj1 (proj2 parse_line_raises) extractor_init
             "   cpu usr=5.12%, sys=20.34%").
    repeat split; vm_compute; reflexivity.
  - apply (proj2 (proj2 parse_line_raises) [ "   cpu : usr=5.12%"; "done" ]).
    apply List.Forall_cons; [right; vm_compute; reflexivity |].
    apply List.Forall_cons; [left; vm_compute; reflexivity | apply List.Forall_nil].
Defined.

(** ** The output of the extractor only grows *)

Lemma parse_lines_app (st : extractor) (a b : list str) :
  parse_lines st (a ++ b) = let* st' := parse_lines st a in parse_lines st' b.
Proof.
  revert st. induction a as [| raw a IH]; intros st; cbn [app parse_lines].
  - reflexivity.
  - destruct (parse_line st raw); [rewrite !bind_Ok; apply IH | reflexivity].
Qed.

Lemma parse_lines_extends (lines : list str) (st st' : extractor) :
  parse_lines st lines = Ok st' -> out st `prefix_of` out st'.
Proof.
  revert st. induction lines as [| raw lines IH]; intros st; cbn [parse_lines].
  - intros H. injection H as <-. reflexivity.
  - pose proof (parse_line_outcome st raw) as Ho.
    destruct (parse_line st raw) as [st1 | e]; [| discriminate].
    rewrite bind_Ok. intros H. transitivity (out st1); [apply Ho | apply (IH _ H)].
Qed.

(** The entries written for a first part of the input are the first entries
    of the result for the whole input: a line only appends entries. *)
Theorem extractor_append_only (first rest : list str)
    (out_first out_all : list str) :
  parse_file first = Ok out_first ->
  parse_file (first ++ rest) = Ok out_all ->
  out_first `prefix_of` out_all.
Proof.
  unfold parse_file. rewrite parse_lines_app.
  destruct (parse_lines extractor_init first) as [st |]; [| discriminate].
  rewrite !bind_Ok. intros H. injection H as <-.
  destruct (parse_lines st rest) as [st' |] eqn:E; [| discriminate].
  rewrite bind_Ok. intros H. injection H as <-.
  apply (parse_lines_extends rest st st' E).
Qed.

Lemma extractor_append_only_witness :
  [ "fio_version = 3.33" ++ TAB :: "# fio version" ]
  `prefix_of` [ "fio_version = 3.33" ++ TAB :: "# fio version"; "x = 1" ].
Proof.
  apply (extractor_append_only [ "fio-3.33" ] [ "x=1" ]); vm_compute; reflexivity.
Defined.

(** ** Sections of the extractor's input *)

Lemma forallb_rstrip_by (p q : ascii -> bool) (s : str) :
  forallb p s = true -> forallb p (rstrip_by q s) = true.
Proof.
  intros H. unfold rstrip_by. rewrite forallb_rev.
  apply forallb_drop_while. rewrite forallb_rev. exact H.
Qed.

Lemma strip_all_space (s : str) : forallb is_space s = true -> strip s = [].
Proof.
  intros H. unfold strip, strip_by, lstrip_by.
  assert (E : drop_while is_space s = []).
  { rewrite <- (app_nil_r s). rewrite drop_while_all; auto. }
  rewrite E. reflexivity.
Qed.

(** A line of white space only (a blank line) ends the percentile block and
    the disk-stats section and writes nothing.  On any other line a
    percentile block that is open stays open, and so does the disk-stats
    section: only a blank line closes them. *)
Theorem sections_end_at_blank_line :
  (forall (st : extractor) (raw : str),
      forallb is_space raw = true ->
      parse_line st raw = Ok (Extractor (out st) None false))
  /\ (forall (st st' : extractor) (raw : str),
         strip (rstrip_by is_nl raw) <> [] ->
         parse_line st raw = Ok st' ->
         (pct_mode st = Some "clat" -> pct_mode st' = Some "clat")
         /\ (disk_section st = true -> disk_section st' = true)).
Proof.
  split.
  - intros st raw H.
    assert (Hs : strip (rstrip_by is_nl raw) = []).
    { apply strip_all_space, forallb_rstrip_by. exact H. }
    unfold parse_line. rewrite Hs. reflexivity.
  - intros st st' raw Hs H. pose proof (parse_line_outcome st raw) as Ho.
    rewrite H in Ho. apply Ho. exact Hs.
Qed.

Lemma sections_end_at_blank_line_witness :
  parse_line (Extractor [] (Some "clat") true) "  " = Ok (Extractor [] None false)
  /\ (pct_mode (Extractor [] (Some "clat") true) = Some "clat" ->
      pct_mode (Extractor [ "x = 1" ] (Some "clat") true) = Some "clat")
  /\ (disk_section (Extractor [] (Some "clat") true) = true ->
      disk_section (Extractor [ "x = 1" ] (Some "clat") true) = true).
Proof.
  split.
  - apply (proj1 sections_end_at_blank_line). reflexivity.
  - apply (proj2 sections_end_at_blank_line (Extractor [] (Some "clat") true)
             (Extractor [ "x = 1" ] (Some "clat") true) "x=1").
    + discriminate.
    + vm_compute. reflexivity.
Defined.

(** ** The report *)

Lemma summarize_record_run (rec : record) (s : summary) :
  summarize_record rec = Ok s -> s_run s = run rec.
Proof.
  unfold summarize_record. destruct (derive (metrics rec)); [| discriminate].
  rewrite bind_Ok. intros H. injection H as <-. reflexivity.
Qed.

Lemma report_record_block (prev : option record) (rec : record) :
  match summarize_record rec with
  | Ok s =>
      report_record (run <$> prev) rec
      = Ok (Some (run rec), record_block prev rec s)
  | Raise e => report_record (run <$> prev) rec = Raise e
  end.
Proof.
  unfold report_record, record_block.
  destruct (summarize_record rec) as [s | e] eqn:Es; [| reflexivity].
  rewrite bind_Ok, (summarize_record_run rec s Es). do 3 f_equal.
  destruct prev as [p |]; cbn [fmap option_fmap option_map].
  - repeat case_bool_decide; congruence.
  - rewrite bool_decide_eq_false_2 by discriminate. reflexivity.
Qed.

Lemma report_records_outcome (recs : list record) (prev : option record)
    (lines : list str) :
  match report_records (run <$> prev) lines recs with
  | Ok out_lines =>
      exists sums,
        Forall2 (fun rec s => summarize_record rec = Ok s) recs sums
        /\ out_lines
           = lines
             ++ concat (zip_with (fun p rs => record_block p rs.1 rs.2)
                          (prev :: (Some <$> recs)) (zip recs sums))
  | Raise e =>
      exists pre r post,
        recs = pre ++ r :: post
        /\ Forall (fun x => exists s, summarize_record x = Ok s) pre
        /\ summarize_record r = Raise e
  end.
Proof.
  revert prev lines. induction recs as [| rec recs IH]; intros prev lines;
    cbn [report_records].
  - exists []. split; [constructor |]. cbn. rewrite app_nil_r. reflexivity.
  - pose proof (report_record_block prev rec) as Hr.
    destruct (summarize_record rec) as [s | e] eqn:Es.
    + rewrite Hr, bind_Ok. cbn [fst snd].
      specialize (IH (Some rec) (lines ++ record_block prev rec s)).
      cbn [fmap option_fmap option_map] in IH.
      destruct (report_records (Some (run rec))
                  (lines ++ record_block prev rec s) recs)
        as [out_lines | e].
      * destruct IH as (sums & Hall & ->). exists (s :: sums).
        split; [constructor; assumption |].
        cbn [fmap list_fmap zip zip_with concat fst snd].
        rewrite <- app_assoc. reflexivity.
      * destruct IH as (pre & r & post & -> & Hpre & Hraise).
        exists (rec :: pre), r, post. split; [reflexivity |].
        split; [constructor; eauto | exact Hraise].
    + rewrite Hr. cbn [bind]. exists [], rec, recs.
      split; [reflexivity |]. split; [constructor | exact Es].
Qed.

Lemma first_raise_unique (pre pre' post post' : list record) (r r' : record)
    (e e' : exn) :
  pre ++ r :: post = pre' ++ r' :: post' ->
  Forall (fun x => exists s, summarize_record x = Ok s) pre ->
  Forall (fun x => exists s, summarize_record x = Ok s) pre' ->
  summarize_record r = Raise e -> summarize_record r' = Raise e' ->
  e = e'.
Proof.
  intros Heq Hpre. revert pre' Heq.
  induction Hpre as [| x pre (s & Hs) _ IH]; intros pre' Heq Hpre' Hr Hr'.
  - destruct pre' as [| y pre']; cbn [app] in Heq.
    + injection Heq as -> _. congruence.
    + injection Heq as -> _. apply Forall_cons in Hpre' as ((s & Hs) & _).
      congruence.
  - destruct pre' as [| y pre']; cbn [app] in Heq.
    + injection Heq as <- _. congruence.
    + injection Heq as _ Heq. apply Forall_cons in Hpre' as (_ & Hpre').
      exact (IH pre' Heq Hpre' Hr Hr').
Qed.

(** [summarize_file] raises exactly when the splitter raises on the input,
    or [summarize_record] raises on one of its records; the exception is
    that of the splitter, or of the first such record.  No report is
    written then: one record with a malformed figure loses the report of
    every record of the file. *)
Theorem one_bad_record_loses_report (name : str) (raw_lines : list str)
    (e : exn) :
  summarize_file name raw_lines = Raise e <->
  parse_consolidated raw_lines = Raise e
  \/ exists recs pre r post,
       parse_consolidated raw_lines = Ok recs
       /\ recs = pre ++ r :: post
       /\ Forall (fun x => exists s, summarize_record x = Ok s) pre
       /\ summarize_record r = Raise e.
Proof.
  unfold summarize_file, summary_lines.
  destruct (parse_consolidated raw_lines) as [recs | e0].
  2:{ cbn [bind]. split.
      - intros H. injection H as ->. left. reflexivity.
      - intros [H | (recs & pre & r & post & H & _)]; [| discriminate].
        injection H as ->. reflexivity. }
  rewrite bind_Ok.
  pose proof (report_records_outcome recs None ["Summary for " ++ name; ""])
    as Ho.
  cbn [fmap option_fmap option_map] in Ho.
  destruct (report_records None ["Summary for " ++ name; ""] recs)
    as [out_lines | e'].
  - rewrite !bind_Ok. split; [discriminate |].
    intros [H | (recs' & pre & r & post & Hrecs & -> & _ & Hraise)];
      [discriminate |].
    exfalso. injection Hrecs as ->. destruct Ho as (sums & Hall & _).
    apply Forall2_app_inv_l in Hall as (s1 & s2 & _ & Hall & _).
    apply Forall2_cons_inv_l in Hall as (s & s3 & Hs & _). congruence.
  - cbn [bind]. destruct Ho as (pre & r & post & -> & Hpre & Hraise). split.
    + intros H. injection H as <-. right.
      exists (pre ++ r :: post), pre, r, post. auto.
    + intros [H | (recs' & pre' & r' & post' & Hrecs & Heq & Hpre' & Hraise')];
        [discriminate |].
      injection Hrecs as <-. f_equal.
      exact (first_raise_unique _ _ _ _ _ _ _ _ Heq Hpre Hpre' Hraise Hraise').
Qed.

Lemma one_bad_record_loses_report_witness :
  summarize_file "c.txt"
    [ "~~~~~~~ RUN #1 ~~~~~~~"; "-- a.txt --"; "read_iops = 84.4k";
      "-- b.txt --"; "read_bw = 1.2.3MiB/s" ]
  = Raise ValueError
  /\ summarize_file "c.txt" [ "~~~~~~~ RUN #" ++ repeat "7"%char 4301 ]
     = Raise ValueError.
Proof.
  split.
  - apply (proj2 (one_bad_record_loses_report "c.txt"
                    [ "~~~~~~~ RUN #1 ~~~~~~~"; "-- a.txt --";
                      "read_iops = 84.4k"; "-- b.txt --";
                      "read_bw = 1.2.3MiB/s" ] ValueError)).
    right.
    exists [ Record_ 1 "a.txt" None {[ "read_iops" := "84.4k" ]};
             Record_ 1 "b.txt" None {[ "read_bw" := "1.2.3MiB/s" ]} ],
      [ Record_ 1 "a.txt" None {[ "read_iops" := "84.4k" ]} ],
      (Record_ 1 "b.txt" None {[ "read_bw" := "1.2.3MiB/s" ]}), [].
    split; [vm_compute; reflexivity |]. split; [reflexivity |].
    split; [| vm_compute; reflexivity].
    apply List.Forall_cons; [| apply List.Forall_nil].
    eexists. vm_compute. reflexivity.
  - apply (proj2 (one_bad_record_loses_report "c.txt"
                    [ "~~~~~~~ RUN #" ++ repeat "7"%char 4301 ] ValueError)).
    left. vm_compute. reflexivity.
Defined.

(** A report that is written is the title line and an empty line, then for
    each record, in the order of the input, its block, and a final empty
    line.  The block of a record is the header of its run, unless the
    record before it is of the same run, its line of results, and its line
    of source hints when it has a bandwidth or an IOPS source.  With no
    record the report is the frame alone. *)
Theorem report_frame (name : str) (recs : list record) (lines : list str) :
  summary_lines name recs = Ok lines ->
  exists sums,
    Forall2 (fun rec s => summarize_record rec = Ok s) recs sums
    /\ lines
       = ["Summary for " ++ name; ""]
         ++ concat (zip_with (fun p rs => record_block p rs.1 rs.2)
                      (None :: (Some <$> recs)) (zip recs sums))
         ++ [""].
Proof.
  unfold summary_lines.
  pose proof (report_records_outcome recs None ["Summary for " ++ name; ""])
    as Ho.
  cbn [fmap option_fmap option_map] in Ho.
  destruct (report_records None ["Summary for " ++ name; ""] recs)
    as [out_lines | e]; [| discriminate].
  rewrite bind_Ok. intros H. injection H as <-.
  destruct Ho as (sums & Hall & ->). exists sums.
  split; [exact Hall |]. rewrite <- app_assoc. reflexivity.
Qed.

Lemma report_frame_witness :
  exists sums,
    Forall2 (fun rec s => summarize_record rec = Ok s)
      [ Record_ 1 "a.txt" None {[ "read_iops" := "84.4k" ]};
        Record_ 1 "b.txt" (Some "j") {[ "job_name" := "j" ]};
        Record_ 2 "a.txt" None {[ "read_bw" := "103MB/s" ]} ]
      sums
    /\ [ "Summary for c.txt"; "";
         "===== RUN #1 =====";
         "a.txt: throughput_GBps=n/a, iops_k=84.400, derived_latency_ms=n/a, iodepth=n/a, clat_avg_ms=n/a";
         "  (iops_src=84.4k)";
         "j: throughput_GBps=n/a, iops_k=n/a, derived_latency_ms=n/a, iodepth=n/a, clat_avg_ms=n/a";
         "===== RUN #2 =====";
         "a.txt: throughput_GBps=0.1030, iops_k=n/a, derived_latency_ms=n/a, iodepth=n/a, clat_avg_ms=n/a";
         "  (bw_src=103MB/s)";
         "" ]
       = ["Summary for " ++ "c.txt"; ""]
         ++ concat
              (zip_with (fun p rs => record_block p rs.1 rs.2)
                 (None
                  :: (Some
                        <$> [ Record_ 1 "a.txt" None
                                {[ "read_iops" := "84.4k" ]};
                              Record_ 1 "b.txt" (Some "j")
                                {[ "job_name" := "j" ]};
                              Record_ 2 "a.txt" None
                                {[ "read_bw" := "103MB/s" ]} ]))
                 (zip
                    [ Record_ 1 "a.txt" None {[ "read_iops" := "84.4k" ]};
                      Record_ 1 "b.txt" (Some "j") {[ "job_name" := "j" ]};
                      Record_ 2 "a.txt" None {[ "read_bw" := "103MB/s" ]} ]
                    sums))
         ++ [""].
Proof.
  apply (report_frame "c.txt"
           [ Record_ 1 "a.txt" None {[ "read_iops" := "84.4k" ]};
             Record_ 1 "b.txt" (Some "j") {[ "job_name" := "j" ]};
             Record_ 2 "a.txt" None {[ "read_bw" := "103MB/s" ]} ]).
  vm_compute. reflexivity.
Defined.
